(** * cpg_image_pipeline: raster stages of the product-photo pipeline

    A shallow embedding of the image-processing modules
    ([modules/mask_processor.py], [modules/compositing_engine.py],
    [modules/image_loader.py], [modules/foreground_extractor.py]) and of the
    two orchestration methods ([methods/method1_controlnet_inpaint.py],
    [methods/method2_nanobanana_composite.py]).

    Images are numpy-style row-major rasters: a list of rows, each row a list
    of pixels; 8-bit samples are integers in [0, 255].  Calls into
    pretrained models, the hosted API and the resampling / blurring kernels
    of the imaging library are fields of an environment record. *)

From Stdlib Require Import String.
From Stdlib Require Import ZArith QArith Qround Qabs List Lia Lqa Bool.
Import ListNotations.
Open Scope string_scope.
Open Scope list_scope.

Open Scope Z_scope.

(** ** Exceptions and results *)

Inductive exn : Type :=
| FileNotFoundError
| ValueError
| ExternalError (what : string).

Inductive result (A : Type) : Type :=
| Ok (a : A)
| Raise (e : exn).

Arguments Ok {A} a.
Arguments Raise {A} e.

Definition bind {A B : Type} (m : result A) (k : A -> result B) : result B :=
  match m with
  | Ok a => k a
  | Raise e => Raise e
  end.

Declare Scope result_scope.
Delimit Scope result_scope with result.
Notation "x <- m ;; k" := (bind m (fun x => k))
  (at level 100, m at next level, right associativity) : result_scope.

(** [d.get(key, default)] on a configuration dictionary. *)
Definition get {A : Type} (entry : option A) (default : A) : A :=
  match entry with
  | Some v => v
  | None => default
  end.

(** [int(x)] and [astype] of a float: truncation towards zero. *)
Definition trunc (q : Q) : Z :=
  if Qle_bool 0 q then Qfloor q else Qceiling q.

(** ** Rasters *)

Module Raster.

Definition raster (P : Type) : Type := list (list P).

(** Mode L, RGB and RGBA images. *)
Definition gray : Type := raster Z.
Definition rgb_px : Type := (Z * Z * Z)%type.
Definition rgba_px : Type := (Z * Z * Z * Z)%type.
Definition rgb : Type := raster rgb_px.
Definition rgba : Type := raster rgba_px.

Definition height {P : Type} (im : raster P) : nat := length im.

Definition width {P : Type} (im : raster P) : nat :=
  match im with
  | [] => 0%nat
  | row :: _ => length row
  end.

(** [image.size] is (width, height). *)
Definition size {P : Type} (im : raster P) : nat * nat := (width im, height im).

Definition size_eqb (s t : nat * nat) : bool :=
  Nat.eqb (fst s) (fst t) && Nat.eqb (snd s) (snd t).

(** A [w] x [h] raster: [h] rows of [w] pixels each. *)
Definition has_size {P : Type} (w h : nat) (im : raster P) : Prop :=
  length im = h /\ Forall (fun row => length row = w) im.

Definition lookup {P : Type} (im : raster P) (r c : nat) : option P :=
  match nth_error im r with
  | Some row => nth_error row c
  | None => None
  end.

(** Total pixel access on mode L rasters, 0 outside. *)
Definition pixel (im : gray) (r c : nat) : Z := nth c (nth r im []) 0.

Definition imap {A B : Type} (f : nat -> A -> B) (l : list A) : list B :=
  map (fun ia => f (fst ia) (snd ia)) (combine (seq 0 (length l)) l).

Definition uint8_gray (im : gray) : Prop :=
  Forall (Forall (fun v => 0 <= v <= 255)) im.

Definition uint8_px (p : rgb_px) : Prop :=
  let '(r, g, b) := p in 0 <= r <= 255 /\ 0 <= g <= 255 /\ 0 <= b <= 255.

Definition uint8_rgb (im : rgb) : Prop := Forall (Forall uint8_px) im.

Definition channels (p : rgb_px) : list Z := let '(r, g, b) := p in [r; g; b].

End Raster.
Import Raster.

(** ** Array filters (scipy.ndimage, PIL.ImageFilter rank filters) *)

Module ndimage.

(** Border extension of scipy's default mode 'reflect'
    (d c b a | a b c d | d c b a): virtual index [j] of a line of [n]
    samples. *)
Definition reflect (n : nat) (j : Z) : nat :=
  let m := j mod (2 * Z.of_nat n) in
  Z.to_nat (if m <? Z.of_nat n then m else 2 * Z.of_nat n - 1 - m).

(** Border extension by edge replication ([Image.expand] before a rank
    filter). *)
Definition replicate (n : nat) (j : Z) : nat :=
  Z.to_nat (Z.max 0 (Z.min (Z.of_nat n - 1) j)).

(** A border extension leaves the positions inside the line alone. *)
Definition inside_fixed (ext : nat -> Z -> nat) : Prop :=
  forall (n i : nat), (i < n)%nat -> ext n (Z.of_nat i) = i.

(** Positions covered by a centred window of [size] samples at [i]. *)
Definition window (size : Z) (i : nat) : list Z :=
  map (fun k => Z.of_nat i + Z.of_nat k - size / 2) (seq 0 (Z.to_nat size)).

Definition maximum (l : list Z) : Z :=
  match l with
  | [] => 0
  | x :: xs => fold_left Z.max xs x
  end.

(** Maximum filter along axis 0 (down the columns). *)
Definition max_axis0 (ext : nat -> Z -> nat) (size : Z) (a : gray) : gray :=
  imap (fun i row =>
          imap (fun c _ =>
                  maximum (map (fun j => pixel a (ext (length a) j) c)
                               (window size i)))
               row)
       a.

(** Maximum filter along axis 1 (along each row). *)
Definition max_axis1 (ext : nat -> Z -> nat) (size : Z) (a : gray) : gray :=
  imap (fun i row =>
          imap (fun c _ =>
                  maximum (map (fun j => pixel a i (ext (length row) j))
                               (window size c)))
               row)
       a.

(** [scipy.ndimage.maximum_filter(a, size=size)] on a 2-D array: a square
    footprint is applied separably, axis 0 then axis 1, skipping axes of
    size 1, with reflecting borders. *)
Definition maximum_filter (a : gray) (size : Z) : gray :=
  if 1 <? size then max_axis1 reflect size (max_axis0 reflect size a) else a.

(** [mask.filter(ImageFilter.MaxFilter(size))]: the image is expanded by
    [size // 2] replicated edge pixels and the maximum of each
    [size] x [size] window is taken. *)
Definition MaxFilter (size : Z) (a : gray) : gray :=
  max_axis1 replicate size (max_axis0 replicate size a).

End ndimage.

(** ** The imaging library's kernels and the arithmetic of floats *)

Record externals : Type := {
  (** [ImageFilter.GaussianBlur(radius)] applied to a mode L image. *)
  GaussianBlur : Z -> gray -> gray;
  (** LANCZOS resampling to (width, height). *)
  LANCZOS_rgb : nat * nat -> rgb -> rgb;
  LANCZOS_gray : nat * nat -> gray -> gray;
  (** Whether [from scipy.ndimage import maximum_filter] succeeds. *)
  scipy_available : bool;
  (** [image.convert('RGB')] of an image of another mode, given the mode
      and the bands of each pixel. *)
  convert_RGB : string -> raster (list Z) -> rgb;
  (** Rounding of a real result to a binary64 float. *)
  fl : Q -> Q
}.

(** ** The imaging library's raster operations (PIL.Image) *)

Module PIL.

(** Division by 255 with rounding, as the library's 8-bit blend does it:
    [tmp = a + 128; ((tmp >> 8) + tmp) >> 8]. *)
Definition DIV255 (a : Z) : Z :=
  let tmp := a + 128 in Z.shiftr (Z.shiftr tmp 8 + tmp) 8.

(** Mix of the current sample [in1] and the pasted sample [in2] under an
    8-bit matte: 255 copies [in2], 0 keeps [in1]. *)
Definition BLEND8 (mask in1 in2 : Z) : Z :=
  DIV255 (in1 * (255 - mask) + in2 * mask).

Definition blend_px (mask : Z) (in1 in2 : rgb_px) : rgb_px :=
  let '(r1, g1, b1) := in1 in
  let '(r2, g2, b2) := in2 in
  (BLEND8 mask r1 r2, BLEND8 mask g1 g2, BLEND8 mask b1 b2).

(** [Image.new('RGB', size, color)]. *)
Definition new (size : nat * nat) (color : rgb_px) : rgb :=
  repeat (repeat color (fst size)) (snd size).

(** [im.split()[3]]: the alpha band of an RGBA image. *)
Definition alpha (im : rgba) : gray :=
  map (map (fun p : rgba_px => let '(_, _, _, a) := p in a)) im.

(** The colour bands of an RGBA image, as [paste] reads them when the
    destination is RGB. *)
Definition colour (im : rgba) : rgb :=
  map (map (fun p : rgba_px => let '(r, g, b, _) := p in (r, g, b))) im.

(** [self.paste(im, mask=mask)] at the upper left corner: the region has
    the size of [im], the matte must have that size too ("images do not
    match" otherwise), and the region is clipped to [self]. *)
Definition paste (self im : rgb) (mask : gray) : result rgb :=
  if size_eqb (size im) (size mask) then
    Ok (imap (fun r row =>
                imap (fun c out =>
                        match lookup im r c, lookup mask r c with
                        | Some inp, Some m => blend_px m out inp
                        | _, _ => out
                        end)
                     row)
             self)
  else Raise ValueError.

(** [Image.composite(image1, image2, mask)]: a copy of [image2] with
    [image1] pasted through [mask]. *)
Definition composite (image1 image2 : rgb) (mask : gray) : result rgb :=
  paste image2 image1 mask.

(** [im.resize(size, resample)]: a copy when the size is unchanged, an
    error for an empty target ("height and width must be > 0"), the
    resampling kernel otherwise. *)
Definition resize {P : Type} (kernel : nat * nat -> raster P -> raster P)
    (im : raster P) (target : Z * Z) : result (raster P) :=
  let '(w, h) := target in
  if (Z.of_nat (width im) =? w) && (Z.of_nat (height im) =? h) then Ok im
  else if (w <? 1) || (h <? 1) then Raise ValueError
  else Ok (kernel (Z.to_nat w, Z.to_nat h) im).

(** [im.getbbox()] on mode L: the box (left, upper, right, lower) around
    the non-zero samples, right and lower exclusive; [None] when every
    sample is zero. *)
Definition nonzero_columns (row : list Z) : list nat :=
  filter (fun c => negb (nth c row 0 =? 0)) (seq 0 (length row)).

Definition nonzero_rows (im : gray) : list nat :=
  filter (fun r => match nonzero_columns (nth r im []) with
                   | [] => false
                   | _ :: _ => true
                   end)
         (seq 0 (length im)).

Definition getbbox (im : gray) : option (nat * nat * nat * nat) :=
  match nonzero_rows im with
  | [] => None
  | upper :: rows =>
      let cols := flat_map nonzero_columns im in
      let left_ := fold_right Nat.min (width im) cols in
      let right_ := fold_right Nat.max 0%nat (map S cols) in
      let lower := S (last rows upper) in
      Some (left_, upper, right_, lower)
  end.

End PIL.

(** What is assumed of the kernels: blurring keeps the size and the sample
    range of a mode L image, resampling produces the size asked for. *)
Record kernels_ok (E : externals) : Prop := {
  GaussianBlur_size :
    forall radius w h im,
      has_size w h im -> has_size w h (GaussianBlur E radius im);
  GaussianBlur_uint8 :
    forall radius im, uint8_gray im -> uint8_gray (GaussianBlur E radius im);
  LANCZOS_rgb_size :
    forall w h im,
      (0 < w)%nat -> (0 < h)%nat -> has_size w h (LANCZOS_rgb E (w, h) im);
  LANCZOS_gray_size :
    forall w h im,
      (0 < w)%nat -> (0 < h)%nat -> has_size w h (LANCZOS_gray E (w, h) im)
}.

(** What is assumed of float rounding (binary64, away from overflow and
    underflow): it is monotone, exact on integers of at most 53 bits, and
    within relative error 2^-53. *)
Record binary64 (fl : Q -> Q) : Prop := {
  fl_monotone : forall x y : Q, (x <= y)%Q -> (fl x <= fl y)%Q;
  fl_integer :
    forall n : Z, Z.abs n <= 2 ^ 53 -> (fl (inject_Z n) == inject_Z n)%Q;
  fl_error :
    forall x : Q, (Qabs (fl x - x) <= Qabs x * (1 # 2 ^ 53))%Q
}.

(** ** modules/mask_processor.py *)

Module MaskProcessor.

(** [config.get('mask_processing', {})]. *)
Record mask_config : Type := {
  expand_mask : option Z;
  feather_pixels : option Z;
  blur_amount : option Z
}.

(** [ImageOps.invert] on mode L: the lookup table 255, 254, ..., 0. *)
Definition invert (mask : gray) : gray := map (map (fun v => 255 - v)) mask.

Section Methods.
Context (E : externals) (mask_config_ : mask_config).

Definition _expand_mask (mask : gray) (pixels : Z) : gray :=
  if pixels <=? 0 then mask
  else if scipy_available E
       then ndimage.maximum_filter mask (pixels * 2 + 1)
       else ndimage.MaxFilter (pixels * 2 + 1) mask.

Definition _feather_edges (mask : gray) (pixels : Z) : gray :=
  if pixels <=? 0 then mask else GaussianBlur E pixels mask.

Definition _prepare_inpainting_mask (mask : gray) : gray :=
  let expanded := _expand_mask mask (get (expand_mask mask_config_) 10) in
  let feathered :=
    _feather_edges expanded (get (feather_pixels mask_config_) 3) in
  let inverted := invert feathered in
  inverted.

Definition _prepare_compositing_mask (mask : gray) : gray :=
  let blur_amount_ := get (blur_amount mask_config_) 5 in
  let blurred := GaussianBlur E blur_amount_ mask in
  blurred.

Definition process_mask (mask : gray) (operation : string) : gray :=
  if String.eqb operation "for_inpainting" then
    _prepare_inpainting_mask mask
  else if String.eqb operation "for_compositing" then
    _prepare_compositing_mask mask
  else mask.

End Methods.

(** [(mask_array > threshold).astype(np.uint8) * 255]. *)
Definition refine_mask (mask : gray) (threshold : Z) : gray :=
  map (map (fun v => (if threshold <? v then 1 else 0) * 255)) mask.

End MaskProcessor.


(** ** modules/compositing_engine.py *)

Module CompositingEngine.

(** [config.get('compositing', {})]. *)
Record comp_config : Type := {
  edge_refinement : option bool;
  shadow_generation : option bool;
  color_matching : option bool;
  shadow_opacity : option Q;
  shadow_blur : option Z
}.

(** [.astype(np.uint8)] of a float sample. *)
Definition astype_uint8 (q : Q) : Z := trunc q mod 256.

(** numpy broadcasting of one pair of dimensions. *)
Definition broadcast (n m : nat) : option nat :=
  if (n =? m)%nat then Some n
  else if (n =? 1)%nat then Some m
  else if (m =? 1)%nat then Some n
  else None.

Definition at_dim (n i : nat) : nat := if (n =? 1)%nat then 0%nat else i.

(** [shadow_shifted = np.zeros_like(a); shadow_shifted[s:, :] = a[:-s, :]]. *)
Definition shift_down (shift_pixels : nat) (shadow_array : gray) : gray :=
  let zeros := map (map (fun _ => 0)) shadow_array in
  firstn shift_pixels zeros
  ++ firstn (length shadow_array - shift_pixels) shadow_array.

Section Methods.
Context (E : externals) (comp_config_ : comp_config).

Definition _refine_edges (mask : gray) : gray := GaussianBlur E 1 mask.

(** [(bg_array * shadow_factor).astype(np.uint8)] for [bg_array] of shape
    (H, W, 3) and [shadow_factor] of shape (H', W', 1); [None] when the
    shapes do not broadcast. *)
Definition darken (bg_array : rgb) (shadow_factor : raster Q) : option rgb :=
  match broadcast (height bg_array) (height shadow_factor),
        broadcast (width bg_array) (width shadow_factor) with
  | Some h, Some w =>
      Some (map (fun r =>
              map (fun c =>
                     let '(x, y, z) :=
                       nth (at_dim (width bg_array) c)
                           (nth (at_dim (height bg_array) r) bg_array [])
                           (0, 0, 0) in
                     let f :=
                       nth (at_dim (width shadow_factor) c)
                           (nth (at_dim (height shadow_factor) r) shadow_factor [])
                           0%Q in
                     (astype_uint8 (fl E (inject_Z x * f)),
                      astype_uint8 (fl E (inject_Z y * f)),
                      astype_uint8 (fl E (inject_Z z * f))))
                  (seq 0 w))
              (seq 0 h))
  | _, _ => None
  end.

(** The local [shadow_mask] of [_add_shadow] after the blur. *)
Definition shadow_mask (mask : gray) : gray :=
  let shadow_blur_ := get (shadow_blur comp_config_) 15 in
  let shift_pixels := 20%nat in
  let shadow_shifted := shift_down shift_pixels mask in
  GaussianBlur E shadow_blur_ shadow_shifted.

(** The local [shadow_factor] of [_add_shadow]:
    [1 - np.array(shadow_mask).astype(float) / 255.0 * shadow_opacity]. *)
Definition shadow_factor (mask : gray) : raster Q :=
  let shadow_opacity_ := get (shadow_opacity comp_config_) (fl E (3 # 10)) in
  let shadow_array :=
    map (map (fun s => fl E (fl E (inject_Z s / 255) * shadow_opacity_)))
        (shadow_mask mask) in
  map (map (fun a => fl E (1 - a))) shadow_array.

(** Whatever the body raises is caught and the background returned
    unchanged; in this embedding only the product can fail. *)
Definition _add_shadow (background : rgb) (mask : gray) : rgb :=
  match darken background (shadow_factor mask) with
  | Some shadowed_bg => shadowed_bg
  | None => background
  end.

Definition _match_colors (composited foreground : rgb) (mask : gray) : rgb :=
  composited.

(** "Ensure same size": the background at the foreground's size. *)
Definition same_size_background (foreground_rgba : rgba) (background_rgb : rgb)
  : result rgb :=
  let '(w, h) := size foreground_rgba in
  if size_eqb (size foreground_rgba) (size background_rgb)
  then Ok background_rgb
  else PIL.resize (LANCZOS_rgb E) background_rgb (Z.of_nat w, Z.of_nat h).

(** "Use provided mask or extract from alpha". *)
Definition mask_or_alpha (foreground_rgba : rgba) (mask : option gray)
  : result gray :=
  let '(w, h) := size foreground_rgba in
  match mask with
  | None => Ok (PIL.alpha foreground_rgba)
  | Some mask =>
      if size_eqb (size mask) (size foreground_rgba) then Ok mask
      else PIL.resize (LANCZOS_gray E) mask (Z.of_nat w, Z.of_nat h)
  end.

(** The arguments are typed, so the two mode conversions at the top of
    the method do nothing. *)
Definition composite (foreground_rgba : rgba) (background_rgb : rgb)
    (mask : option gray) : result rgb :=
  (background_rgb <- same_size_background foreground_rgba background_rgb ;;
   mask <- mask_or_alpha foreground_rgba mask ;;
   let mask :=
     if get (edge_refinement comp_config_) true
     then _refine_edges mask else mask in
   let background_rgb :=
     if get (shadow_generation comp_config_) true
     then _add_shadow background_rgb mask else background_rgb in
   foreground_rgb <-
     PIL.paste (PIL.new (size foreground_rgba) (0, 0, 0))
               (PIL.colour foreground_rgba) (PIL.alpha foreground_rgba) ;;
   composited <- PIL.composite foreground_rgb background_rgb mask ;;
   let composited :=
     if get (color_matching comp_config_) true
     then _match_colors composited foreground_rgb mask else composited in
   Ok composited)%result.

End Methods.

End CompositingEngine.

(** ** modules/image_loader.py *)

Module ImageLoader.

(** What [Image.open] yields: the mode and the pixels. *)
Inductive decoded : Type :=
| ImRGB (im : rgb)
| ImRGBA (im : rgba)
| ImOther (mode : string) (im : raster (list Z)).

Record filesystem : Type := {
  path_exists : string -> bool;
  Image_open : string -> result decoded
}.

(** [config.get('image_processing', {})]. *)
Record image_config : Type := {
  max_dimension : option Z
}.

Section Methods.
Context (E : externals) (FS : filesystem) (image_config_ : image_config).

Definition max_dimension_ : Z := get (max_dimension image_config_) 2048.

Definition _resize_if_needed (image : rgb) : result rgb :=
  let '(width, height) := size image in
  let max_dim := Nat.max width height in
  if max_dimension_ <? Z.of_nat max_dim then
    let scale :=
      fl E (inject_Z max_dimension_ / inject_Z (Z.of_nat max_dim)) in
    let new_width := trunc (fl E (inject_Z (Z.of_nat width) * scale)) in
    let new_height := trunc (fl E (inject_Z (Z.of_nat height) * scale)) in
    PIL.resize (LANCZOS_rgb E) image (new_width, new_height)
  else Ok image.

Definition load_image (image_path : string) : result rgb :=
  (if negb (path_exists FS image_path) then Raise FileNotFoundError
   else
     image <- Image_open FS image_path ;;
     image <-
       match image with
       | ImRGB im => Ok im
       | ImRGBA im =>
           let background := PIL.new (size im) (255, 255, 255) in
           PIL.paste background (PIL.colour im) (PIL.alpha im)
       | ImOther mode im => Ok (convert_RGB E mode im)
       end ;;
     _resize_if_needed image)%result.

End Methods.

End ImageLoader.

(** ** modules/foreground_extractor.py *)

Module ForegroundExtractor.

Record extraction : Type := {
  foreground : rgba;
  mask : gray;
  original : rgb
}.

(** [remove] is the segmentation model (rembg); the session set-up is part
    of the call. *)
Definition extract_foreground (remove : rgb -> result rgba) (image : rgb)
    : result extraction :=
  (let original_rgb := image in
   foreground_rgba <- remove original_rgb ;;
   let mask := PIL.alpha foreground_rgba in
   Ok {| foreground := foreground_rgba;
         mask := mask;
         original := original_rgb |})%result.

Definition get_bounding_box (mask : gray) : option (Z * Z * Z * Z) :=
  match PIL.getbbox mask with
  | Some (x, y, right_, lower) =>
      let width := Z.of_nat right_ - Z.of_nat x in
      let height := Z.of_nat lower - Z.of_nat y in
      Some (Z.of_nat x, Z.of_nat y, width, height)
  | None => None
  end.

(** [ImageOps.invert(mask)]. *)
Definition create_inverted_mask (mask : gray) : gray :=
  MaskProcessor.invert mask.

End ForegroundExtractor.

(** ** methods/: the two generation pipelines *)

Module Methods.
Import ImageLoader ForegroundExtractor.

(** The models, the hosted API and the file writes behind a pipeline.
    Prompt building is text templating around calls to a language model
    and is kept opaque. *)
Record collaborators : Type := {
  (** [rembg.remove]. *)
  remove : rgb -> result rgba;
  (** [AutoPromptGenerator.generate_for_method1]: the prompt and the
      analysis' product description. *)
  generate_for_method1 : rgb -> result (string * string);
  (** [Method1ControlNetInpaint._build_controlnet_prompt]
      (prompt, product_description, style_preset, input_path). *)
  _build_controlnet_prompt :
    string -> string -> option string -> string -> result string;
  (** [ControlNetHandler.inpaint_background] (image, mask, prompt). *)
  inpaint_background : rgb -> gray -> string -> result rgb;
  (** [AutoPromptGenerator.generate_for_method2]. *)
  generate_for_method2 : rgb -> result string;
  (** [Method2NanoBananaComposite._build_background_prompt]
      (prompt, style_preset, color_palette). *)
  _build_background_prompt :
    string -> option string -> option (list string) -> result string;
  (** [NanoBananaAPI.generate_background] (prompt, width, height). *)
  generate_background : string -> nat -> nat -> result rgb;
  (** [ImageLoader.save_image]: the path written. *)
  save_image : rgb -> string -> result string;
  (** The default output path for an input path and a method suffix,
      after creating the output directory. *)
  default_output_path : string -> string -> result string
}.

Record config : Type := {
  image_processing : image_config;
  mask_processing : MaskProcessor.mask_config;
  compositing : CompositingEngine.comp_config;
  (** [config.get('visualization', {}).get('show_stages', True)]. *)
  show_stages : option bool
}.

(** What a run did, in the order it did it. *)
Inductive event : Type :=
| LoadImage (path : string) (image : rgb)
| ExtractForeground (image : rgb) (foreground : rgba) (mask : gray)
| ProcessMask (operation : string) (mask processed : gray)
| BuildPrompt (final : string)
| InpaintBackground (image : rgb) (mask : gray) (prompt : string) (out : rgb)
| GenerateBackground (prompt : string) (width height : nat) (out : rgb)
| Composite (foreground : rgba) (background : rgb) (mask : gray) (out : rgb)
| SaveImage (image : rgb) (path saved : string)
| VisualizeMethod1
    (original : rgb) (foreground : rgba) (mask inpaint_mask : gray) (out : rgb)
| VisualizeMethod2
    (original : rgb) (foreground : rgba) (mask : gray) (background out : rgb).

(** A pipeline threads the log of the stages run so far and stops at the
    first exception. *)
Definition pipeline (A : Type) : Type := list event -> result (A * list event).

Definition ret {A : Type} (a : A) : pipeline A := fun log => Ok (a, log).

Definition then_ {A B : Type} (m : pipeline A) (k : A -> pipeline B)
  : pipeline B :=
  fun log =>
    match m log with
    | Ok (a, log') => k a log'
    | Raise e => Raise e
    end.

(** Run one stage: on success its event joins the end of the log. *)
Definition stage {A : Type} (call : result A) (ev : A -> event) : pipeline A :=
  fun log =>
    match call with
    | Ok a => Ok (a, log ++ [ev a])
    | Raise e => Raise e
    end.

(** A call that is not a stage of its own. *)
Definition lift {A : Type} (call : result A) : pipeline A :=
  fun log =>
    match call with
    | Ok a => Ok (a, log)
    | Raise e => Raise e
    end.

(** [_visualize_pipeline] catches whatever it raises. *)
Definition visualize (ev : event) : pipeline unit :=
  fun log => Ok (tt, log ++ [ev]).

Declare Scope pipeline_scope.
Delimit Scope pipeline_scope with pipeline.
Notation "x <- m ;; k" := (then_ m (fun x => k))
  (at level 100, m at next level, right associativity) : pipeline_scope.

Section Generate.
Context (E : externals) (FS : filesystem) (C : collaborators) (cfg : config).

(** [Method1ControlNetInpaint.generate]. *)
Definition method1_generate (input_image_path : string)
    (prompt product_description style_preset output_path : option string)
  : pipeline string :=
  (original_image <-
     stage (load_image E FS (image_processing cfg) input_image_path)
           (LoadImage input_image_path) ;;
   extraction_result <-
     stage (extract_foreground (remove C) original_image)
           (fun x => ExtractForeground original_image (foreground x) (mask x)) ;;
   let foreground_rgba := foreground extraction_result in
   let mask := mask extraction_result in
   inpaint_mask <-
     stage (Ok (MaskProcessor.process_mask E (mask_processing cfg) mask
                  "for_inpainting"))
           (ProcessMask "for_inpainting" mask) ;;
   final_prompt <-
     stage (match prompt, product_description with
            | Some prompt, Some product_description =>
                _build_controlnet_prompt C prompt product_description
                  style_preset input_image_path
            | None, _ =>
                bind (generate_for_method1 C original_image)
                     (fun auto => Ok (fst auto))
            | Some prompt, None =>
                bind (generate_for_method1 C original_image)
                     (fun auto =>
                        _build_controlnet_prompt C prompt (snd auto)
                          style_preset input_image_path)
            end)
           BuildPrompt ;;
   result_image <-
     stage (inpaint_background C original_image inpaint_mask final_prompt)
           (InpaintBackground original_image inpaint_mask final_prompt) ;;
   output_path <-
     lift (match output_path with
           | Some path => Ok path
           | None => default_output_path C input_image_path "_method1_result.png"
           end) ;;
   saved_path <-
     stage (save_image C result_image output_path)
           (SaveImage result_image output_path) ;;
   _ <- (if get (show_stages cfg) true
         then visualize (VisualizeMethod1 original_image foreground_rgba
                           mask inpaint_mask result_image)
         else ret tt) ;;
   ret saved_path)%pipeline.

(** [Method2NanoBananaComposite.generate]. *)
Definition method2_generate (input_image_path : string)
    (prompt style_preset : option string)
    (color_palette : option (list string)) (output_path : option string)
  : pipeline string :=
  (original_image <-
     stage (load_image E FS (image_processing cfg) input_image_path)
           (LoadImage input_image_path) ;;
   let '(width, height) := size original_image in
   extraction_result <-
     stage (extract_foreground (remove C) original_image)
           (fun x => ExtractForeground original_image (foreground x) (mask x)) ;;
   let foreground_rgba := foreground extraction_result in
   let mask := mask extraction_result in
   composite_mask <-
     stage (Ok (MaskProcessor.process_mask E (mask_processing cfg) mask
                  "for_compositing"))
           (ProcessMask "for_compositing" mask) ;;
   background_prompt <-
     stage (match prompt with
            | None => generate_for_method2 C original_image
            | Some prompt =>
                _build_background_prompt C prompt style_preset color_palette
            end)
           BuildPrompt ;;
   background_image <-
     stage (generate_background C background_prompt width height)
           (GenerateBackground background_prompt width height) ;;
   result_image <-
     stage (CompositingEngine.composite E (compositing cfg)
              foreground_rgba background_image (Some composite_mask))
           (Composite foreground_rgba background_image composite_mask) ;;
   output_path <-
     lift (match output_path with
           | Some path => Ok path
           | None => default_output_path C input_image_path "_method2_result.png"
           end) ;;
   saved_path <-
     stage (save_image C result_image output_path)
           (SaveImage result_image output_path) ;;
   _ <- (if get (show_stages cfg) true
         then visualize (VisualizeMethod2 original_image foreground_rgba
                           mask background_image result_image)
         else ret tt) ;;
   ret saved_path)%pipeline.

End Generate.

End Methods.

(** ** models/controlnet_handler.py *)

Module ControlNetHandler.

(** The diffusion pipeline: loading it, and one call
    (prompt, negative_prompt, control_image, control_mask, width, height)
    yielding [images[0]]. *)
Record diffusion : Type := {
  _load_model : result unit;
  pipe : string -> string -> rgb -> gray -> Z -> Z -> result rgb
}.

(** [config.get('controlnet', {})], as far as the inputs of a call go. *)
Record cn_config : Type := {
  negative_prompt : option string
}.

(** [_get_optimal_size(original_size, max_dim, multiple)]; [None] is the
    [ZeroDivisionError] of [width / height] or of [// multiple]. *)
Definition _get_optimal_size (fl : Q -> Q) (original_size : Z * Z)
    (max_dim multiple : Z) : option (Z * Z) :=
  let '(width, height) := original_size in
  if multiple =? 0 then None
  else if (width <=? max_dim) && (height <=? max_dim) then
    let width := (width / multiple) * multiple in
    let height := (height / multiple) * multiple in
    let width := Z.max width multiple in
    let height := Z.max height multiple in
    Some (width, height)
  else if height =? 0 then None
  else
    let aspect_ratio := fl (inject_Z width / inject_Z height)%Q in
    let '(new_width, new_height) :=
      if height <? width
      then (max_dim, trunc (fl (inject_Z max_dim / aspect_ratio)%Q))
      else (trunc (fl (inject_Z max_dim * aspect_ratio)%Q), max_dim) in
    let new_width := (new_width / multiple) * multiple in
    let new_height := (new_height / multiple) * multiple in
    let new_width := Z.max new_width multiple in
    let new_height := Z.max new_height multiple in
    Some (new_width, new_height).

Section Methods.
Context (E : externals) (D : diffusion) (cn_config_ : cn_config).

(** [inpaint_background(image, mask, prompt, negative_prompt)]; the
    arguments are typed, so the two mode conversions do nothing. *)
Definition inpaint_background (image : rgb) (mask : gray) (prompt : string)
    (negative_prompt_ : option string) : result rgb :=
  (_ <- _load_model D ;;
   let original_size := size image in
   let original := (Z.of_nat (fst original_size), Z.of_nat (snd original_size)) in
   target_size <-
     match _get_optimal_size (fl E) original 1024 64 with
     | Some target => Ok target
     | None => Raise (ExternalError "ZeroDivisionError")
     end ;;
   controls <-
     (if (fst target_size =? fst original) && (snd target_size =? snd original)
      then Ok (image, mask)
      else
        control_image <- PIL.resize (LANCZOS_rgb E) image target_size ;;
        control_mask <- PIL.resize (LANCZOS_gray E) mask target_size ;;
        Ok (control_image, control_mask)) ;;
   let control_image := fst controls in
   let control_mask := snd controls in
   let negative_prompt_ :=
     match negative_prompt_ with
     | Some given => given
     | None => get (negative_prompt cn_config_) " "
     end in
   out <-
     pipe D prompt negative_prompt_ control_image control_mask
       (Z.of_nat (width control_image)) (Z.of_nat (height control_image)) ;;
   out <-
     (if size_eqb (size out) original_size then Ok out
      else PIL.resize (LANCZOS_rgb E) out original) ;;
   Ok out)%result.

End Methods.

End ControlNetHandler.

(** ** utils/env_loader.py and models/nano_banana_api.py *)

Module EnvLoader.

(** A string is truthy when it is not empty. *)
Definition truthy (s : string) : bool := negb (String.eqb s "").

(** [get_api_key(env_var_name, required)] over [os.getenv]. *)
Definition get_api_key (getenv : string -> option string)
    (env_var_name : string) (required : bool) : result (option string) :=
  match getenv env_var_name with
  | Some api_key =>
      if truthy api_key then Ok (Some api_key)
      else if required then Raise ValueError else Ok None
  | None => if required then Raise ValueError else Ok None
  end.

End EnvLoader.

Module NanoBananaAPI.

(** The keys of the configuration read by the constructor. *)
Record key_config : Type := {
  (** [config.get('api', {}).get('api_key_env_var', 'GEMINI_API_KEY')]. *)
  api_key_env_var : option string;
  (** [config.get('nano_banana', {}).get('require_api_key', True)]. *)
  require_api_key : option bool
}.

(** [__init__(config, api_key)] up to [genai.configure]: the key kept in
    [self.api_key], or the error raised. *)
Definition __init__ (getenv : string -> option string) (config : key_config)
    (api_key : option string) : result string :=
  (found <-
     match api_key with
     | Some given =>
         if EnvLoader.truthy given then Ok (Some given)
         else EnvLoader.get_api_key getenv
                (get (api_key_env_var config) "GEMINI_API_KEY")
                (get (require_api_key config) true)
     | None =>
         EnvLoader.get_api_key getenv
           (get (api_key_env_var config) "GEMINI_API_KEY")
           (get (require_api_key config) true)
     end ;;
   match found with
   | Some key => if EnvLoader.truthy key then Ok key else Raise ValueError
   | None => Raise ValueError
   end)%result.

(** The hosted model: its set-up, one [generate_content] call answering
    with candidates, each a list of parts carrying inline data or not, and
    the decoding of image bytes. *)
Record gemini : Type := {
  _initialize : result unit;
  generate_content : list string -> result (list (list (option string)));
  Image_open : string -> result rgb
}.

Definition test_prompt : string := "
        Create a vibrant outdoor picnic scene background. The main element is a pink and purple checkered picnic blanket spread on bright green grass. Scattered on and around the blanket are colorful faux flowers in hot pink, yellow, and orange. A pair of trendy sunglasses with neon frames sits on the blanket. The scene is photographed from slightly above at a 45-degree angle. Bright natural sunlight creates soft shadows. The atmosphere is playful, youthful, and Instagram-worthy. The background should be sharp and detailed with natural bokeh in the distance showing more grass and flowers. Commercial photography quality, vibrant colors, Gen-Z aesthetic. Background only - no products, no text.
        ".

(** The data of the first part that carries inline data. *)
Fixpoint first_inline_data (parts : list (option string)) : option string :=
  match parts with
  | [] => None
  | Some data :: _ => Some data
  | None :: rest => first_inline_data rest
  end.

Section Methods.
Context (E : externals) (G : gemini).

(** [generate_background(prompt, reference_image, width, height)]. *)
Definition generate_background (prompt : string) (width_ height_ : Z)
  : result rgb :=
  (_ <- _initialize G ;;
   let contents := [test_prompt] in
   response <- generate_content G contents ;;
   let generated_image_bytes :=
     match response with
     | [] => None
     | parts :: _ => first_inline_data parts
     end in
   match generated_image_bytes with
   | Some data =>
       if EnvLoader.truthy data then
         image <- Image_open G data ;;
         if (Z.of_nat (width image) =? width_) && (Z.of_nat (height image) =? height_)
         then Ok image
         else PIL.resize (LANCZOS_rgb E) image (width_, height_)
       else Raise ValueError
   | None => Raise ValueError
   end)%result.

End Methods.

End NanoBananaAPI.

(** ** modules/visualizer.py *)

Module Visualizer.

(** The grid of [visualize_stages]: [cols = min(3, num_stages)] and
    [rows = (num_stages + cols - 1) // cols], as (rows, cols); [None] is the
    [ZeroDivisionError] of an empty dictionary of stages, which the method
    catches and logs. *)
Definition grid (num_stages : Z) : option (Z * Z) :=
  let cols := Z.min 3 num_stages in
  if cols =? 0 then None
  else
    let rows := (num_stages + cols - 1) / cols in
    Some (rows, cols).

End Visualizer.

(** ** utils/auto_prompt_generator.py *)

Module AutoPromptGenerator.

(** A Python [str]: a sequence of Unicode code points, so that [len]
    counts code points and a slice keeps whole code points. *)
Definition str : Type := list N.

(** A string literal of the source; all of them are ASCII. *)
Definition literal (s : string) : str :=
  map Ascii.N_of_ascii (list_ascii_of_string s).

(** The fields of an analysis that the prompts use. *)
Record analysis : Type := {
  product_description : str;
  background_prompt : str;
  style_suggestion : str
}.

(** [generate_for_method1], given what [analyze_and_generate_prompts]
    answered. *)
Definition generate_for_method1 (analysis_ : analysis) : str * analysis :=
  let prompt :=
    literal "This photo showcases " ++ product_description analysis_
    ++ literal ". "
    ++ literal "The product is clearly highlighted and prominently displayed, "
    ++ literal "placed in " ++ background_prompt analysis_ ++ literal ". "
    ++ literal "The overall image maintains a " ++ style_suggestion analysis_
    ++ literal " visual style, "
    ++ literal "with professional commercial photography lighting." in
  let prompt :=
    if (600 <? length prompt)%nat then firstn 600 prompt else prompt in
  (prompt, analysis_).

(** [generate_for_method2]. *)
Definition generate_for_method2 (analysis_ : analysis) : str * analysis :=
  let prompt :=
    literal "A creative background scene featuring "
    ++ background_prompt analysis_ ++ literal ". "
    ++ literal "Style: " ++ style_suggestion analysis_ ++ literal ". "
    ++ literal "High quality commercial photography background with perfect lighting. "
    ++ literal "Background only, no products, no text, no foreground objects." in
  (prompt, analysis_).

End AutoPromptGenerator.

(** ** methods/: several variations in one call *)

Module Variations.
Import Methods.

(** The output directory of a run: creating it, and the path
    [output_dir / f"{input_name}{tag}{i}.png"] of variation [i]. *)
Record output_dir : Type := {
  mkdir : result unit;
  variation_path : string -> string -> nat -> string
}.

(** A [for] loop that appends each run's result to [results]. *)
Fixpoint for_each {A : Type} (items : list A) (body : A -> pipeline string)
  : pipeline (list string) :=
  match items with
  | [] => ret []
  | item :: rest =>
      (result_path <- body item ;;
       results <- for_each rest body ;;
       ret (result_path :: results))%pipeline
  end.

(** The files written during a run: the path asked for and the path that
    [save_image] returned, in order. *)
Definition saves (log : list event) : list (string * string) :=
  flat_map (fun e => match e with
                     | SaveImage _ path saved => [(path, saved)]
                     | _ => []
                     end) log.

Section Generate.
Context (E : externals) (FS : ImageLoader.filesystem) (C : collaborators)
  (cfg : config) (O : output_dir).

(** [Method1ControlNetInpaint.generate_with_variations]. *)
Definition generate_with_variations (input_image_path : string)
    (prompt product_description : option string) (num_variations : Z)
  : pipeline (list string) :=
  (_ <- lift (mkdir O) ;;
   for_each (seq 0 (Z.to_nat num_variations))
     (fun i =>
        let output_path := variation_path O input_image_path "_method1_var" (i + 1) in
        method1_generate E FS C cfg input_image_path prompt product_description
          None (Some output_path)))%pipeline.

(** [Method2NanoBananaComposite.generate_multiple_variations]. *)
Definition generate_multiple_variations (input_image_path : string)
    (prompts_list : option (list (option string)))
    (style_preset : option string) (color_palette : option (list string))
  : pipeline (list string) :=
  (let prompts_list :=
     match prompts_list with
     | None => let num_variations := 3%nat in repeat None num_variations
     | Some given => given
     end in
   _ <- lift (mkdir O) ;;
   for_each (combine (seq 0 (length prompts_list)) prompts_list)
     (fun item =>
        let idx := fst item in
        let prompt := snd item in
        let output_path := variation_path O input_image_path "_method2_var" (idx + 1) in
        method2_generate E FS C cfg input_image_path prompt style_preset
          color_palette (Some output_path)))%pipeline.

End Generate.

End Variations.

(** [v] lies between [x] and [y], whichever is larger. *)
Definition between (v x y : Z) : Prop := Z.min x y <= v <= Z.max x y.

(** ** The blend in the words of the specification

    [out = fg * (m / 255) + bg * (1 - m / 255)] on one channel, as a
    rational number. *)
Definition claimed_blend (fg m bg : Z) : Q :=
  (inject_Z fg * (inject_Z m / 255) + inject_Z bg * (1 - inject_Z m / 255))%Q.

(** ** Concrete stand-ins for the external kernels

    Executable instances of [externals], used to run the embedding on
    small rasters. *)

Module Examples.

(** Nearest-neighbour resampling to (width, height). *)
Definition nearest {P : Type} (d : P) (target : nat * nat) (im : raster P)
  : raster P :=
  let '(w, h) := target in
  map (fun r =>
         map (fun c =>
                nth (c * width im / w) (nth (r * height im / h) im []) d)
             (seq 0 w))
      (seq 0 h).

(** A 1-2-1 binomial blur along each row, edges replicated. *)
Definition blur_row (row : list Z) : list Z :=
  imap (fun c v =>
          (nth (c - 1) row v + 2 * v + nth (c + 1) row v) / 4)
       row.

Definition binomial_blur (radius : Z) (im : gray) : gray :=
  if radius <=? 0 then im else map blur_row im.

(** Conversion to RGB by repeating the first band. *)
Definition gray_to_rgb (mode : string) (im : raster (list Z)) : rgb :=
  map (map (fun bands => let v := hd 0 bands in (v, v, v))) im.

(** Exact arithmetic in place of binary64 rounding. *)
Definition exact (q : Q) : Q := q.

Definition E0 : externals := {|
  GaussianBlur := binomial_blur;
  LANCZOS_rgb := nearest (0, 0, 0);
  LANCZOS_gray := nearest 0;
  scipy_available := true;
  convert_RGB := gray_to_rgb;
  fl := exact
|}.

(** The same kernels on a host without scipy. *)
Definition E1 : externals := {|
  GaussianBlur := binomial_blur;
  LANCZOS_rgb := nearest (0, 0, 0);
  LANCZOS_gray := nearest 0;
  scipy_available := false;
  convert_RGB := gray_to_rgb;
  fl := exact
|}.

Definition defaults : MaskProcessor.mask_config := {|
  MaskProcessor.expand_mask := None;
  MaskProcessor.feather_pixels := None;
  MaskProcessor.blur_amount := None
|}.

Definition comp_defaults : CompositingEngine.comp_config := {|
  CompositingEngine.edge_refinement := None;
  CompositingEngine.shadow_generation := None;
  CompositingEngine.color_matching := None;
  CompositingEngine.shadow_opacity := None;
  CompositingEngine.shadow_blur := None
|}.

(** A grey column of 21 pixels and a fully opaque mask over it. *)
Definition tall_gray : rgb := repeat [(100, 100, 100)] 21.
Definition tall_mask : gray := repeat [255] 21.

(** A two-pixel foreground, a one-pixel background and a 1 x 2 mask. *)
Definition pair_fg : rgba := [[(200, 100, 50, 255); (1, 2, 3, 4)]].
Definition one_bg : rgb := [[(10, 20, 30)]].
Definition column_mask : gray := [[255]; [255]].

(** A single half-transparent foreground pixel. *)
Definition half_fg : rgba := [[(200, 100, 50, 128)]].

(** A directory holding one decodable picture, and collaborators that
    answer every call. *)
Definition FS0 : ImageLoader.filesystem := {|
  ImageLoader.path_exists := fun path => String.eqb path "product.png";
  ImageLoader.Image_open := fun _ => Ok (ImageLoader.ImRGB one_bg)
|}.

Definition C0 : Methods.collaborators := {|
  Methods.remove :=
    fun im => Ok (map (map (fun p : rgb_px => let '(r, g, b) := p in (r, g, b, 255))) im);
  Methods.generate_for_method1 := fun _ => Ok ("a product on a beach", "a product");
  Methods._build_controlnet_prompt := fun prompt _ _ _ => Ok prompt;
  Methods.inpaint_background := fun image _ _ => Ok image;
  Methods.generate_for_method2 := fun _ => Ok "a beach";
  Methods._build_background_prompt := fun prompt _ _ => Ok prompt;
  Methods.generate_background := fun _ w h => Ok (PIL.new (w, h) (0, 0, 255));
  Methods.save_image := fun _ path => Ok path;
  Methods.default_output_path := fun input suffix => Ok (String.append input suffix)
|}.

Definition config0 : Methods.config := {|
  Methods.image_processing := {| ImageLoader.max_dimension := None |};
  Methods.mask_processing := defaults;
  Methods.compositing := comp_defaults;
  Methods.show_stages := None
|}.

(** The logs of the two methods run on that picture. *)
Definition log1 : list Methods.event := Eval vm_compute in
    match Methods.method1_generate E0 FS0 C0 config0 "product.png"
            None None None (Some "out.png") [] with
    | Ok r => snd r
    | Raise _ => []
    end.

Definition log2 : list Methods.event := Eval vm_compute in
    match Methods.method2_generate E0 FS0 C0 config0 "product.png"
            None None None (Some "out.png") [] with
    | Ok r => snd r
    | Raise _ => []
    end.

(** A strip of 3000 x 1 pixels. *)
Definition strip : rgb := [repeat (0, 0, 0) 3000].

Definition FS_strip : ImageLoader.filesystem := {|
  ImageLoader.path_exists := fun _ => true;
  ImageLoader.Image_open := fun _ => Ok (ImageLoader.ImRGB strip)
|}.

(** A 3 x 3 mask with a single bright pixel in the middle. *)
Definition dot : gray := [[0; 0; 0]; [0; 200; 0]; [0; 0; 0]].

(** Dilation by one pixel and no feathering; a mask with one fully opaque
    pixel. *)
Definition sharp : MaskProcessor.mask_config := {|
  MaskProcessor.expand_mask := Some 1;
  MaskProcessor.feather_pixels := Some 0;
  MaskProcessor.blur_amount := None
|}.

Definition bright : gray := [[0; 0; 0]; [0; 255; 0]; [0; 0; 0]].

(** A diffusion pipeline that paints a black picture of the size asked. *)
Definition D0 : ControlNetHandler.diffusion := {|
  ControlNetHandler._load_model := Ok tt;
  ControlNetHandler.pipe :=
    fun _ _ _ _ w h => Ok (PIL.new (Z.to_nat w, Z.to_nat h) (0, 0, 0))
|}.

(** A hosted model answering with a text part and an image part, and one
    whose image sits in the second candidate only. *)
Definition G0 : NanoBananaAPI.gemini := {|
  NanoBananaAPI._initialize := Ok tt;
  NanoBananaAPI.generate_content := fun _ => Ok [[None; Some "bytes"]];
  NanoBananaAPI.Image_open := fun _ => Ok one_bg
|}.

Definition G1 : NanoBananaAPI.gemini := {|
  NanoBananaAPI._initialize := Ok tt;
  NanoBananaAPI.generate_content := fun _ => Ok [[None]; [Some "bytes"]];
  NanoBananaAPI.Image_open := fun _ => Ok one_bg
|}.

Definition O0 : Variations.output_dir := {|
  Variations.mkdir := Ok tt;
  Variations.variation_path := fun input tag _ => String.append input tag
|}.

(** An analysis with a character outside ASCII (code point 233), and one
    whose product description is 600 such characters long. *)
Definition analysis0 : AutoPromptGenerator.analysis := {|
  AutoPromptGenerator.product_description :=
    AutoPromptGenerator.literal "a yellow can from a caf" ++ [233%N];
  AutoPromptGenerator.background_prompt := AutoPromptGenerator.literal "a beach";
  AutoPromptGenerator.style_suggestion := AutoPromptGenerator.literal "bold"
|}.

Definition analysis_long : AutoPromptGenerator.analysis := {|
  AutoPromptGenerator.product_description := repeat 233%N 600;
  AutoPromptGenerator.background_prompt := AutoPromptGenerator.literal "a beach";
  AutoPromptGenerator.style_suggestion := AutoPromptGenerator.literal "bold"
|}.

(** A picture file with an opaque, a clear and a half-clear pixel. *)
Definition glass : rgba := [[(200, 100, 50, 255); (200, 100, 50, 0); (200, 100, 50, 128)]].

Definition FS_glass : ImageLoader.filesystem := {|
  ImageLoader.path_exists := fun _ => true;
  ImageLoader.Image_open := fun _ => Ok (ImageLoader.ImRGBA glass)
|}.

(** A zero shadow opacity; a 2 x 2 picture with 2 x 2 and 3 x 3 masks. *)
Definition no_opacity : CompositingEngine.comp_config := {|
  CompositingEngine.edge_refinement := None;
  CompositingEngine.shadow_generation := None;
  CompositingEngine.color_matching := None;
  CompositingEngine.shadow_opacity := Some 0%Q;
  CompositingEngine.shadow_blur := None
|}.

Definition square_bg : rgb := [[(10, 20, 30); (40, 50, 60)]; [(70, 80, 90); (1, 2, 3)]].
(** An API that answers every request with the same 2 x 2 picture. *)
Definition C_square : Methods.collaborators := {|
  Methods.remove := Methods.remove C0;
  Methods.generate_for_method1 := Methods.generate_for_method1 C0;
  Methods._build_controlnet_prompt := Methods._build_controlnet_prompt C0;
  Methods.inpaint_background := Methods.inpaint_background C0;
  Methods.generate_for_method2 := Methods.generate_for_method2 C0;
  Methods._build_background_prompt := Methods._build_background_prompt C0;
  Methods.generate_background := fun _ _ _ => Ok square_bg;
  Methods.save_image := Methods.save_image C0;
  Methods.default_output_path := Methods.default_output_path C0
|}.

(** A plain picture of 4 x 4 pixels. *)
Definition plain : rgb := repeat (repeat (10, 20, 30) 4) 4.

Definition FS_plain : ImageLoader.filesystem := {|
  ImageLoader.path_exists := fun _ => true;
  ImageLoader.Image_open := fun _ => Ok (ImageLoader.ImRGB plain)
|}.

Definition square_mask : gray := [[255; 255]; [255; 255]].
Definition wide_mask : gray := [[255; 255; 255]; [255; 255; 255]; [255; 255; 255]].

End Examples.
(** * Properties *)

(** ** Indexed maps and rasters *)

Section RasterFacts.
Context {A B : Type}.

Lemma imap_from (f : nat -> A -> B) (l : list A) (s i : nat) :
  nth_error (map (fun ia => f (fst ia) (snd ia)) (combine (seq s (length l)) l)) i
  = option_map (f (s + i)%nat) (nth_error l i).
Proof.
  revert s i; induction l as [|a l IH]; intros s i.
  - destruct i; reflexivity.
  - destruct i as [|i]; simpl.
    + now rewrite Nat.add_0_r.
    + rewrite IH. now rewrite Nat.add_succ_r.
Qed.

Lemma nth_error_imap (f : nat -> A -> B) (l : list A) (i : nat) :
  nth_error (imap f l) i = option_map (f i) (nth_error l i).
Proof. unfold imap. now rewrite imap_from. Qed.

Lemma length_imap (f : nat -> A -> B) (l : list A) :
  length (imap f l) = length l.
Proof.
  unfold imap. rewrite length_map, length_combine, length_seq.
  apply Nat.min_id.
Qed.

Lemma nth_imap (f : nat -> A -> B) (l : list A) (i : nat) (d : B) (d' : A) :
  (i < length l)%nat -> nth i (imap f l) d = f i (nth i l d').
Proof.
  intros Hi. apply nth_error_nth.
  rewrite nth_error_imap, (nth_error_nth' l d' Hi). reflexivity.
Qed.

End RasterFacts.

Lemma pixel_outside_row (im : gray) (r c : nat) :
  (length im <= r)%nat -> pixel im r c = 0.
Proof.
  intros H. unfold pixel. rewrite (nth_overflow im [] H). now destruct c.
Qed.

Lemma pixel_outside_col (im : gray) (r c : nat) :
  (length (nth r im []) <= c)%nat -> pixel im r c = 0.
Proof. intros H. unfold pixel. now apply nth_overflow. Qed.

(** ** Maximum filters are extensive *)

Module ndimage_facts.
Import ndimage.

Lemma fold_max_ge_init (xs : list Z) (x : Z) : x <= fold_left Z.max xs x.
Proof.
  revert x; induction xs as [|y xs IH]; intros x; simpl; [lia|].
  specialize (IH (Z.max x y)). lia.
Qed.

Lemma fold_max_ge_In (xs : list Z) (x v : Z) :
  In v xs -> v <= fold_left Z.max xs x.
Proof.
  revert x; induction xs as [|y xs IH]; intros x Hin; simpl in *; [easy|].
  destruct Hin as [->|Hin].
  - pose proof (fold_max_ge_init xs (Z.max x v)). lia.
  - now apply IH.
Qed.

Lemma maximum_ge (l : list Z) (v : Z) : In v l -> v <= maximum l.
Proof.
  destruct l as [|x xs]; simpl; [easy|].
  intros [->|Hin]; [apply fold_max_ge_init | now apply fold_max_ge_In].
Qed.

Lemma window_centre (size : Z) (i : nat) :
  1 <= size -> In (Z.of_nat i) (window size i).
Proof.
  intros Hs. unfold window. apply in_map_iff.
  exists (Z.to_nat (size / 2)). split.
  - rewrite Z2Nat.id; [lia|]. apply Z.div_pos; lia.
  - apply in_seq. split; [lia|]. simpl.
    apply Z2Nat.inj_lt; try lia; [apply Z.div_pos; lia|].
    apply Z.div_lt; lia.
Qed.

Lemma reflect_inside : inside_fixed reflect.
Proof.
  intros n i Hi. unfold reflect.
  rewrite Z.mod_small by lia.
  destruct (Z.ltb_spec (Z.of_nat i) (Z.of_nat n)); lia.
Qed.

Lemma replicate_inside : inside_fixed replicate.
Proof. intros n i Hi. unfold replicate. lia. Qed.

Lemma row_lengths_axis0 ext size a :
  map (@length Z) (max_axis0 ext size a) = map (@length Z) a.
Proof.
  apply nth_error_ext. intros i. unfold max_axis0.
  rewrite !nth_error_map, nth_error_imap.
  destruct (nth_error a i); simpl; [|reflexivity].
  now rewrite length_imap.
Qed.

Lemma row_lengths_axis1 ext size a :
  map (@length Z) (max_axis1 ext size a) = map (@length Z) a.
Proof.
  apply nth_error_ext. intros i. unfold max_axis1.
  rewrite !nth_error_map, nth_error_imap.
  destruct (nth_error a i); simpl; [|reflexivity].
  now rewrite length_imap.
Qed.

Lemma max_axis0_extensive ext size a r c :
  inside_fixed ext -> 1 <= size ->
  pixel a r c <= pixel (max_axis0 ext size a) r c.
Proof.
  intros Hext Hs.
  destruct (Nat.lt_ge_cases r (length a)) as [Hr|Hr].
  2:{ rewrite !pixel_outside_row; [lia| |assumption].
      unfold max_axis0. now rewrite length_imap. }
  destruct (Nat.lt_ge_cases c (length (nth r a []))) as [Hc|Hc].
  2:{ rewrite (pixel_outside_col a) by assumption.
      rewrite pixel_outside_col; [lia|].
      unfold max_axis0. rewrite (nth_imap _ _ _ _ []) by assumption.
      now rewrite length_imap. }
  unfold pixel at 2, max_axis0.
  rewrite (nth_imap _ _ _ _ []) by assumption.
  rewrite (nth_imap _ _ _ _ 0) by assumption.
  apply maximum_ge, in_map_iff. exists (Z.of_nat r). split.
  - now rewrite Hext.
  - now apply window_centre.
Qed.

Lemma max_axis1_extensive ext size a r c :
  inside_fixed ext -> 1 <= size ->
  pixel a r c <= pixel (max_axis1 ext size a) r c.
Proof.
  intros Hext Hs.
  destruct (Nat.lt_ge_cases r (length a)) as [Hr|Hr].
  2:{ rewrite !pixel_outside_row; [lia| |assumption].
      unfold max_axis1. now rewrite length_imap. }
  destruct (Nat.lt_ge_cases c (length (nth r a []))) as [Hc|Hc].
  2:{ rewrite (pixel_outside_col a) by assumption.
      rewrite pixel_outside_col; [lia|].
      unfold max_axis1. rewrite (nth_imap _ _ _ _ []) by assumption.
      now rewrite length_imap. }
  unfold pixel at 2, max_axis1.
  rewrite (nth_imap _ _ _ _ []) by assumption.
  rewrite (nth_imap _ _ _ _ 0) by assumption.
  apply maximum_ge, in_map_iff. exists (Z.of_nat c). split.
  - now rewrite Hext.
  - now apply window_centre.
Qed.

End ndimage_facts.

(** ** modules/mask_processor.py *)

Import MaskProcessor.

Lemma pixel_invert (m : gray) (r c : nat) :
  lookup (invert m) r c = option_map (fun v => 255 - v) (lookup m r c).
Proof.
  unfold lookup, invert. rewrite nth_error_map.
  destruct (nth_error m r) as [row|]; simpl; [|reflexivity].
  now rewrite nth_error_map.
Qed.

(** C2. Mask refinement for the inpainting path is dilation, then
    feathering, then inversion:
    [process_mask(mask, 'for_inpainting')] is
    [invert(_feather_edges(_expand_mask(mask)))] at the configured amounts
    (defaults 10 and 3); for a positive amount the dilation is the maximum
    filter of window [2 * pixels + 1], the feathering is the Gaussian blur of
    that radius, and inversion maps every sample [v] to [255 - v]. *)
Theorem process_mask_for_inpainting (E : externals) (cfg : mask_config) (mask : gray) :
  let p := get (expand_mask cfg) 10 in
  let f := get (feather_pixels cfg) 3 in
  process_mask E cfg mask "for_inpainting"
  = invert (_feather_edges E (_expand_mask E mask p) f)
  /\ (0 < p ->
      _expand_mask E mask p
      = if scipy_available E
        then ndimage.maximum_filter mask (2 * p + 1)
        else ndimage.MaxFilter (2 * p + 1) mask)
  /\ (0 < f -> forall m, _feather_edges E m f = GaussianBlur E f m)
  /\ (forall m r c,
        lookup (invert m) r c = option_map (fun v => 255 - v) (lookup m r c)).
Proof.
  intros p f. repeat split.
  - intros Hp. unfold _expand_mask.
    destruct (Z.leb_spec p 0); [lia|].
    now replace (p * 2 + 1) with (2 * p + 1) by lia.
  - intros Hf m. unfold _feather_edges.
    destruct (Z.leb_spec f 0); [lia|reflexivity].
  - apply pixel_invert.
Qed.

Lemma process_mask_for_inpainting_witness :
  process_mask Examples.E0 Examples.defaults Examples.dot "for_inpainting"
  = invert (GaussianBlur Examples.E0 3 (ndimage.maximum_filter Examples.dot 21)).
Proof.
  destruct (process_mask_for_inpainting Examples.E0 Examples.defaults Examples.dot)
    as (Hall & Hdil & Hfea & _).
  rewrite Hall, Hfea, Hdil; [reflexivity | simpl; lia | simpl; lia].
Defined.

(** C5. Dilation is the identity for a non-positive amount and extensive for
    a positive one: no sample of the dilated mask is below the sample of the
    input at the same position (and every row keeps its length). *)
Theorem expand_mask_extensive (E : externals) (mask : gray) (pixels : Z) :
  (pixels <= 0 -> _expand_mask E mask pixels = mask)
  /\ (0 < pixels ->
      map (@length Z) (_expand_mask E mask pixels) = map (@length Z) mask
      /\ forall r c, pixel mask r c <= pixel (_expand_mask E mask pixels) r c).
Proof.
  unfold _expand_mask. split; intros Hp.
  - destruct (Z.leb_spec pixels 0); [reflexivity|lia].
  - destruct (Z.leb_spec pixels 0); [lia|].
    unfold ndimage.maximum_filter, ndimage.MaxFilter.
    destruct (Z.ltb_spec 1 (pixels * 2 + 1)); [|lia].
    destruct (scipy_available E); split.
    + now rewrite ndimage_facts.row_lengths_axis1, ndimage_facts.row_lengths_axis0.
    + intros r c.
      etransitivity;
        [apply (ndimage_facts.max_axis0_extensive ndimage.reflect (pixels * 2 + 1))
        |apply ndimage_facts.max_axis1_extensive];
        auto using ndimage_facts.reflect_inside; lia.
    + now rewrite ndimage_facts.row_lengths_axis1, ndimage_facts.row_lengths_axis0.
    + intros r c.
      etransitivity;
        [apply (ndimage_facts.max_axis0_extensive ndimage.replicate (pixels * 2 + 1))
        |apply ndimage_facts.max_axis1_extensive];
        auto using ndimage_facts.replicate_inside; lia.
Qed.

Lemma expand_mask_extensive_witness :
  _expand_mask Examples.E0 Examples.dot 0 = Examples.dot
  /\ pixel Examples.dot 0 0 <= pixel (_expand_mask Examples.E0 Examples.dot 1) 0 0
  /\ pixel Examples.dot 1 1 <= pixel (_expand_mask Examples.E1 Examples.dot 1) 1 1.
Proof.
  split; [|split].
  - apply (proj1 (expand_mask_extensive Examples.E0 Examples.dot 0)). lia.
  - apply (proj2 (expand_mask_extensive Examples.E0 Examples.dot 1)). lia.
  - apply (proj2 (expand_mask_extensive Examples.E1 Examples.dot 1)). lia.
Defined.

(** C10. Thresholding yields a binary mask of the same shape: 255 exactly
    where the input sample is strictly above the threshold, 0 elsewhere. *)
Theorem refine_mask_binary (mask : gray) (threshold : Z) :
  map (@length Z) (refine_mask mask threshold) = map (@length Z) mask
  /\ (forall r c,
        lookup (refine_mask mask threshold) r c
        = option_map (fun v => if threshold <? v then 255 else 0) (lookup mask r c))
  /\ Forall (Forall (fun v => v = 0 \/ v = 255)) (refine_mask mask threshold).
Proof.
  unfold refine_mask. split; [|split].
  - rewrite map_map. apply map_ext. intros row. apply length_map.
  - intros r c. unfold lookup. rewrite nth_error_map.
    destruct (nth_error mask r) as [row|]; simpl; [|reflexivity].
    rewrite nth_error_map. destruct (nth_error row c) as [v|]; simpl; [|reflexivity].
    now destruct (threshold <? v).
  - apply Forall_map, Forall_forall. intros row _.
    apply Forall_map, Forall_forall. intros v _.
    destruct (threshold <? v); [right|left]; reflexivity.
Qed.

(** ** modules/foreground_extractor.py *)

Module getbbox_facts.
Import PIL.

Lemma pixel_nonzero_inside (im : gray) (r c : nat) :
  pixel im r c <> 0 ->
  (r < length im)%nat /\ (c < length (nth r im []))%nat.
Proof.
  intros H. split.
  - destruct (Nat.lt_ge_cases r (length im)) as [|Hr]; [assumption|].
    now rewrite pixel_outside_row in H.
  - destruct (Nat.lt_ge_cases c (length (nth r im []))) as [|Hc]; [assumption|].
    now rewrite pixel_outside_col in H.
Qed.

Lemma in_nonzero_columns (row : list Z) (c : nat) :
  In c (nonzero_columns row) <-> (c < length row)%nat /\ nth c row 0 <> 0.
Proof.
  unfold nonzero_columns. rewrite filter_In, in_seq, negb_true_iff, Z.eqb_neq.
  intuition lia.
Qed.

Lemma in_nonzero_rows (im : gray) (r : nat) :
  In r (nonzero_rows im) <-> exists c, pixel im r c <> 0.
Proof.
  unfold nonzero_rows. rewrite filter_In, in_seq. split.
  - intros [_ H].
    destruct (nonzero_columns (nth r im [])) as [|c cs] eqn:Hc; [discriminate|].
    exists c. apply (in_nonzero_columns (nth r im []) c). rewrite Hc. now left.
  - intros [c Hc]. destruct (pixel_nonzero_inside _ _ _ Hc) as [Hr Hcl].
    split; [lia|].
    assert (Hin : In c (nonzero_columns (nth r im []))).
    { apply in_nonzero_columns. split; assumption. }
    now destruct (nonzero_columns (nth r im [])).
Qed.

Lemma in_all_columns (im : gray) (r c : nat) :
  pixel im r c <> 0 -> In c (flat_map nonzero_columns im).
Proof.
  intros H. destruct (pixel_nonzero_inside _ _ _ H) as [Hr Hc].
  apply in_flat_map. exists (nth r im []). split.
  - now apply nth_In.
  - apply in_nonzero_columns. split; assumption.
Qed.

Lemma fold_min_le (cols : list nat) (w c : nat) :
  In c cols -> (fold_right Nat.min w cols <= c)%nat.
Proof.
  induction cols as [|x cols IH]; simpl; [easy|].
  intros [->|Hin]; [lia|]. specialize (IH Hin). lia.
Qed.

Lemma fold_max_gt (cols : list nat) (c : nat) :
  In c cols -> (c < fold_right Nat.max 0 (map S cols))%nat.
Proof.
  induction cols as [|x cols IH]; cbn [fold_right map In]; [easy|].
  intros [->|Hin]; [lia|]. specialize (IH Hin). lia.
Qed.

Lemma last_cons (ys : list nat) (y d : nat) : last (y :: ys) d = last ys y.
Proof.
  revert y d. induction ys as [|z ys IH]; intros y d; [reflexivity|].
  change (last (y :: z :: ys) d) with (last (z :: ys) d).
  rewrite (IH z d). symmetry. apply (IH z y).
Qed.

(** The selected indices of a range come out in increasing order. *)
Lemma filter_seq_bounds (f : nat -> bool) (n s x : nat) (xs : list nat) :
  filter f (seq s n) = x :: xs ->
  forall r, In r (x :: xs) -> (x <= r <= last xs x)%nat.
Proof.
  revert s x xs. induction n as [|n IH]; intros s x xs Heq r Hin; [discriminate|].
  simpl in Heq. destruct (f s).
  - injection Heq as <- Hxs.
    destruct xs as [|y ys].
    + destruct Hin as [<-|[]]. simpl. lia.
    + assert (Hy : forall t, In t (y :: ys) -> (y <= t <= last ys y)%nat)
        by (intros t; now apply (IH (S s))).
      assert (Hsy : (S s <= y)%nat).
      { assert (In y (filter f (seq (S s) n))) by (rewrite Hxs; now left).
        apply filter_In in H. destruct H as [H _]. apply in_seq in H. lia. }
      rewrite (last_cons ys y s).
      destruct Hin as [<-|Hin].
      * specialize (Hy y (or_introl eq_refl)). lia.
      * specialize (Hy r Hin). lia.
  - now apply (IH (S s)).
Qed.

Lemma getbbox_none (im : gray) :
  getbbox im = None <-> forall r c, pixel im r c = 0.
Proof.
  unfold getbbox. split.
  - destruct (nonzero_rows im) as [|u rows] eqn:Hrows; [|discriminate].
    intros _ r c. destruct (Z.eq_dec (pixel im r c) 0) as [|Hne]; [assumption|].
    assert (Hin : In r (nonzero_rows im)) by (apply in_nonzero_rows; eauto).
    rewrite Hrows in Hin. destruct Hin.
  - intros Hzero. destruct (nonzero_rows im) as [|u rows] eqn:Hrows; [reflexivity|].
    assert (Hin : In u (nonzero_rows im)) by (rewrite Hrows; now left).
    apply in_nonzero_rows in Hin. destruct Hin as [c Hc]. now rewrite Hzero in Hc.
Qed.

Lemma getbbox_some (im : gray) (l u rt lo : nat) :
  getbbox im = Some (l, u, rt, lo) ->
  (exists r c, pixel im r c <> 0)
  /\ forall r c, pixel im r c <> 0 -> (l <= c < rt)%nat /\ (u <= r < lo)%nat.
Proof.
  unfold getbbox.
  destruct (nonzero_rows im) as [|u0 rows] eqn:Hrows; [discriminate|].
  intros Heq. injection Heq as <- <- <- <-. split.
  - assert (Hin : In u0 (nonzero_rows im)) by (rewrite Hrows; now left).
    apply in_nonzero_rows in Hin. eauto.
  - intros r c Hne. split.
    + pose proof (in_all_columns _ _ _ Hne) as Hin. split.
      * now apply fold_min_le.
      * now apply fold_max_gt.
    + assert (Hin : In r (u0 :: rows))
        by (rewrite <- Hrows; apply in_nonzero_rows; eauto).
      pose proof (filter_seq_bounds _ _ _ _ _ Hrows r Hin). lia.
Qed.

End getbbox_facts.

(** C8. The bounding box is [None] exactly when the mask has no non-zero
    sample; otherwise it is (x, y, width, height) with positive width and
    height, and every non-zero sample lies in columns [x, x + width) and
    rows [y, y + height). *)
Theorem get_bounding_box_covers (mask : gray) :
  match ForegroundExtractor.get_bounding_box mask with
  | None => forall r c, pixel mask r c = 0
  | Some (x, y, width, height) =>
      (exists r c, pixel mask r c <> 0)
      /\ 0 < width /\ 0 < height
      /\ forall r c, pixel mask r c <> 0 ->
                     x <= Z.of_nat c < x + width /\ y <= Z.of_nat r < y + height
  end.
Proof.
  unfold ForegroundExtractor.get_bounding_box.
  destruct (PIL.getbbox mask) as [[[[l u] rt] lo]|] eqn:Hbox.
  - destruct (getbbox_facts.getbbox_some _ _ _ _ _ Hbox) as [Hex Hcover].
    split; [assumption|].
    destruct Hex as (r0 & c0 & H0). pose proof (Hcover r0 c0 H0).
    repeat split; try lia; specialize (Hcover r c H1); lia.
  - now apply getbbox_facts.getbbox_none.
Qed.

Lemma get_bounding_box_covers_witness :
  ForegroundExtractor.get_bounding_box Examples.dot = Some (1, 1, 1, 1)
  /\ (1 <= Z.of_nat 1 < 1 + 1 /\ 1 <= Z.of_nat 1 < 1 + 1)
  /\ ForegroundExtractor.get_bounding_box [[0; 0]; [0; 0]] = None.
Proof.
  split; [reflexivity|]. split; [|reflexivity].
  pose proof (get_bounding_box_covers Examples.dot) as H.
  change (ForegroundExtractor.get_bounding_box Examples.dot)
    with (Some (1, 1, 1, 1)) in H.
  destruct H as (_ & _ & _ & H). apply (H 1%nat 1%nat). discriminate.
Defined.

(** ** Float rounding *)

Section Rounding.
Context (fl : Q -> Q) (Hfl : binary64 fl).

Lemma fl_0 : (fl 0 == 0)%Q.
Proof. apply (fl_integer fl Hfl 0). now vm_compute. Qed.

Lemma fl_1 : (fl 1 == 1)%Q.
Proof. apply (fl_integer fl Hfl 1). now vm_compute. Qed.

Lemma fl_uint8 (x : Z) : 0 <= x <= 255 -> (fl (inject_Z x) == inject_Z x)%Q.
Proof.
  intros Hx. apply (fl_integer fl Hfl).
  assert (255 <= 2 ^ 53) by now vm_compute. lia.
Qed.

Lemma fl_unit (x : Q) : (0 <= x <= 1 -> 0 <= fl x <= 1)%Q.
Proof.
  intros [H0 H1]. split.
  - rewrite <- fl_0. now apply (fl_monotone fl Hfl).
  - rewrite <- fl_1. now apply (fl_monotone fl Hfl).
Qed.

Lemma uint8_unit (s : Z) : 0 <= s <= 255 -> (0 <= inject_Z s / 255 <= 1)%Q.
Proof.
  intros [H0 H1].
  rewrite Zle_Qle in H0, H1. change (inject_Z 0) with 0%Q in H0.
  change (inject_Z 255) with 255%Q in H1.
  split.
  - apply Qle_shift_div_l; lra.
  - apply Qle_shift_div_r; lra.
Qed.

(** The factor [1 - s / 255 * opacity] computed in floats stays in [0, 1]. *)
Lemma factor_unit (s : Z) (opacity : Q) :
  0 <= s <= 255 -> (0 <= opacity <= 1)%Q ->
  (0 <= fl (1 - fl (fl (inject_Z s / 255) * opacity)) <= 1)%Q.
Proof.
  intros Hs Hop.
  pose proof (fl_unit _ (uint8_unit s Hs)) as Ha.
  assert (Hb : (0 <= fl (inject_Z s / 255) * opacity <= 1)%Q) by nra.
  apply fl_unit in Hb. apply fl_unit. lra.
Qed.

(** A sample scaled by a factor of [0, 1] and cast back does not grow. *)
Lemma darken_sample (x : Z) (f : Q) :
  0 <= x <= 255 -> (0 <= f <= 1)%Q ->
  0 <= CompositingEngine.astype_uint8 (fl (inject_Z x * f)) <= x.
Proof.
  intros Hx Hf.
  assert (Hx0 : (0 <= inject_Z x)%Q)
    by (change 0%Q with (inject_Z 0); rewrite <- Zle_Qle; lia).
  assert (Hlo : (0 <= fl (inject_Z x * f))%Q).
  { rewrite <- fl_0. apply (fl_monotone fl Hfl). nra. }
  assert (Hhi : (fl (inject_Z x * f) <= inject_Z x)%Q).
  { rewrite <- (fl_uint8 x Hx) at 2. apply (fl_monotone fl Hfl). nra. }
  unfold CompositingEngine.astype_uint8, trunc.
  apply Qle_bool_iff in Hlo as Hb. rewrite Hb.
  pose proof (Qfloor_resp_le _ _ Hlo) as H1.
  pose proof (Qfloor_resp_le _ _ Hhi) as H2.
  rewrite Qfloor_Z in H2. change (Qfloor 0) with 0 in H1.
  rewrite Z.mod_small; lia.
Qed.

End Rounding.

(** ** Sizes and lookups *)

Lemma nth_error_seq_lt (s n i : nat) :
  nth_error (seq s n) i = if (i <? n)%nat then Some (s + i)%nat else None.
Proof.
  revert s i. induction n as [|n IH]; intros s i; simpl.
  - now destruct i.
  - destruct i as [|i]; simpl; [now rewrite Nat.add_0_r|].
    rewrite IH. change (S i <? S n)%nat with (i <? n)%nat.
    destruct (i <? n)%nat; [now rewrite Nat.add_succ_r|reflexivity].
Qed.

Lemma lookup_nth {P : Type} (im : raster P) (r c : nat) (p d : P) :
  lookup im r c = Some p ->
  (r < length im)%nat /\ (c < length (nth r im []))%nat /\ nth c (nth r im []) d = p.
Proof.
  unfold lookup. destruct (nth_error im r) as [row|] eqn:Hrow; [|discriminate].
  intros Hc.
  assert (Hr : (r < length im)%nat) by (apply nth_error_Some; congruence).
  rewrite (nth_error_nth im r [] Hrow).
  assert (Hcl : (c < length row)%nat) by (apply nth_error_Some; congruence).
  repeat split; try assumption. now apply nth_error_nth.
Qed.

Lemma nth_lookup {P : Type} (im : raster P) (r c : nat) (d : P) :
  (r < length im)%nat -> (c < length (nth r im []))%nat ->
  lookup im r c = Some (nth c (nth r im []) d).
Proof.
  intros Hr Hc. unfold lookup.
  rewrite (nth_error_nth' im [] Hr). now apply nth_error_nth'.
Qed.

Lemma lookup_imap2 {P Q : Type} (g : nat -> nat -> P -> Q) (im : raster P) (r c : nat) :
  lookup (imap (fun r row => imap (fun c o => g r c o) row) im) r c
  = option_map (g r c) (lookup im r c).
Proof.
  unfold lookup. rewrite nth_error_imap.
  destruct (nth_error im r) as [row|]; simpl; [|reflexivity].
  now rewrite nth_error_imap.
Qed.

Lemma has_size_row {P : Type} (w h : nat) (im : raster P) (r : nat) :
  has_size w h im -> (r < length im)%nat -> length (nth r im []) = w.
Proof.
  intros [_ Hrows] Hr. rewrite Forall_forall in Hrows.
  apply Hrows. now apply nth_In.
Qed.

Lemma has_size_width {P : Type} (w h : nat) (im : raster P) :
  has_size w h im -> (0 < h)%nat -> width im = w.
Proof.
  intros [Hh Hrows] Hpos. destruct im as [|row im]; simpl in *; [lia|].
  now inversion Hrows.
Qed.

Lemma has_size_size {P : Type} (w h : nat) (im : raster P) :
  has_size w h im -> (0 < h)%nat -> size im = (w, h).
Proof.
  intros Hs Hpos. unfold size, height.
  rewrite (has_size_width w h im Hs Hpos). now destruct Hs as [-> _].
Qed.

Lemma nth_Forall_Forall {P : Type} (Q : P -> Prop) (im : raster P) (r c : nat) (d : P) :
  Forall (Forall Q) im -> Q d -> Q (nth c (nth r im []) d).
Proof.
  intros Him Hd.
  destruct (Nat.lt_ge_cases r (length im)) as [Hr|Hr].
  - assert (Hrow : Forall Q (nth r im [])).
    { rewrite Forall_forall in Him. apply Him. now apply nth_In. }
    destruct (Nat.lt_ge_cases c (length (nth r im []))) as [Hc|Hc].
    + rewrite Forall_forall in Hrow. apply Hrow. now apply nth_In.
    + now rewrite nth_overflow.
  - rewrite (nth_overflow im [] Hr). now destruct c.
Qed.

(** ** The stand-in kernels meet the assumptions *)

Module Examples_facts.
Import Examples.

Lemma nearest_size {P : Type} (d : P) (w h : nat) (im : raster P) :
  has_size w h (nearest d (w, h) im).
Proof.
  unfold nearest, has_size. rewrite length_map, length_seq. split; [reflexivity|].
  apply Forall_map, Forall_forall. intros r _.
  now rewrite length_map, length_seq.
Qed.

Lemma blur_row_uint8 (row : list Z) :
  Forall (fun v => 0 <= v <= 255) row ->
  Forall (fun v => 0 <= v <= 255) (blur_row row).
Proof.
  intros Hrow. apply Forall_forall. intros x Hx.
  apply In_nth_error in Hx. destruct Hx as [c Hc].
  unfold blur_row in Hc. rewrite nth_error_imap in Hc.
  destruct (nth_error row c) as [v|] eqn:Hv; [|discriminate].
  assert (Hx : x = (nth (c - 1) row v + 2 * v + nth (c + 1) row v) / 4)
    by (cbv [option_map] in Hc; congruence).
  subst x. clear Hc.
  assert (Hin : 0 <= v <= 255).
  { rewrite Forall_forall in Hrow. apply Hrow. eapply nth_error_In; eauto. }
  assert (Hnth : forall i, 0 <= nth i row v <= 255).
  { intros i. destruct (Nat.lt_ge_cases i (length row)).
    - rewrite Forall_forall in Hrow. apply Hrow. now apply nth_In.
    - now rewrite nth_overflow. }
  pose proof (Hnth (c - 1)%nat). pose proof (Hnth (c + 1)%nat).
  split.
  - apply Z.div_pos; lia.
  - apply Z.div_le_upper_bound; lia.
Qed.

Lemma binomial_blur_size (radius : Z) (w h : nat) (im : gray) :
  has_size w h im -> has_size w h (binomial_blur radius im).
Proof.
  intros [Hh Hw]. unfold binomial_blur.
  destruct (radius <=? 0); [now split|]. split.
  - now rewrite length_map.
  - apply Forall_map. eapply Forall_impl; [|exact Hw].
    intros row Hrow. simpl. unfold blur_row. now rewrite length_imap.
Qed.

Lemma binomial_blur_uint8 (radius : Z) (im : gray) :
  uint8_gray im -> uint8_gray (binomial_blur radius im).
Proof.
  intros Him. unfold binomial_blur. destruct (radius <=? 0); [assumption|].
  apply Forall_map. eapply Forall_impl; [|exact Him].
  intros row. apply blur_row_uint8.
Qed.

Lemma exact_binary64 : binary64 exact.
Proof.
  split; unfold exact.
  - intros x y H. exact H.
  - intros n _. reflexivity.
  - intros x.
    assert (H0 : (x - x == 0)%Q) by ring.
    rewrite H0. change (Qabs 0) with 0%Q.
    apply Qmult_le_0_compat; [apply Qabs_nonneg|now vm_compute].
Qed.

Lemma E0_kernels_ok : kernels_ok E0.
Proof.
  split; simpl.
  - intros. now apply binomial_blur_size.
  - intros. now apply binomial_blur_uint8.
  - intros. apply nearest_size.
  - intros. apply nearest_size.
Qed.

Lemma E1_kernels_ok : kernels_ok E1.
Proof.
  split; simpl.
  - intros. now apply binomial_blur_size.
  - intros. now apply binomial_blur_uint8.
  - intros. apply nearest_size.
  - intros. apply nearest_size.
Qed.

End Examples_facts.

(** ** modules/compositing_engine.py: the shadow *)

Module shadow_facts.
Import CompositingEngine.

Lemma at_dim_lt (n i : nat) : (i < n)%nat -> at_dim n i = i.
Proof.
  intros Hi. unfold at_dim. destruct (Nat.eqb_spec n 1); [lia|reflexivity].
Qed.

Lemma shift_down_length (n : nat) (a : gray) :
  length (shift_down n a) = length a.
Proof.
  unfold shift_down. rewrite length_app, !length_firstn, length_map. lia.
Qed.

Lemma Forall_firstn_keep {A : Type} (Q : A -> Prop) (n : nat) (l : list A) :
  Forall Q l -> Forall Q (firstn n l).
Proof.
  intros Hl. revert n. induction Hl as [|x l Hx Hl IH]; intros [|n]; simpl;
    constructor; auto.
Qed.

Lemma shift_down_uint8 (n : nat) (a : gray) :
  uint8_gray a -> uint8_gray (shift_down n a).
Proof.
  intros Ha. unfold shift_down, uint8_gray. apply Forall_app. split.
  - apply Forall_firstn_keep, Forall_map, Forall_forall. intros row _.
    apply Forall_map, Forall_forall. intros v _. lia.
  - now apply Forall_firstn_keep.
Qed.

Lemma zeros_pixel (a : gray) (r c : nat) :
  nth c (nth r (map (map (fun _ : Z => 0)) a) []) 0 = 0.
Proof.
  revert r. induction a as [|row a IH]; intros [|r]; simpl; auto.
  - now destruct c.
  - now destruct c.
  - clear IH. revert c. induction row as [|v row IH]; intros [|c]; simpl; auto.
Qed.

Lemma shift_down_pixel (n : nat) (a : gray) (r c : nat) :
  (r < length a)%nat ->
  pixel (shift_down n a) r c = if (r <? n)%nat then 0 else pixel a (r - n) c.
Proof.
  intros Hr. unfold pixel, shift_down.
  destruct (Nat.ltb_spec r n) as [Hlt|Hge].
  - rewrite app_nth1 by (rewrite length_firstn, length_map; lia).
    rewrite nth_firstn. destruct (Nat.ltb_spec r n); [|lia].
    apply zeros_pixel.
  - rewrite app_nth2 by (rewrite length_firstn, length_map; lia).
    rewrite length_firstn, length_map, Nat.min_l by lia.
    rewrite nth_firstn.
    destruct (Nat.ltb_spec (r - n) (length a - n)); [reflexivity|lia].
Qed.

Section Darken.
Context (E : externals) (Hfl : binary64 (fl E)).

Lemma darken_lookup (bg out : rgb) (F : raster Q) (w h r c : nat) (p q : rgb_px) :
  has_size w h bg -> uint8_rgb bg ->
  Forall (Forall (fun f => 0 <= f <= 1)%Q) F ->
  darken E bg F = Some out ->
  lookup out r c = Some p -> lookup bg r c = Some q ->
  Forall2 Z.le (channels p) (channels q).
Proof.
  intros Hsize Hu8 HF Hd Hp Hq.
  destruct (lookup_nth bg r c q (0, 0, 0) Hq) as (Hr & Hc & Hnth).
  assert (Hpos : (0 < h)%nat) by (destruct Hsize as [<- _]; lia).
  assert (Hw : width bg = w) by now apply (has_size_width w h).
  rewrite (has_size_row w h bg r Hsize Hr) in Hc.
  unfold darken in Hd.
  destruct (broadcast (height bg) (height F)) as [ho|]; [|discriminate].
  destruct (broadcast (width bg) (width F)) as [wo|]; [|discriminate].
  injection Hd as <-.
  unfold lookup in Hp. rewrite nth_error_map, nth_error_seq_lt in Hp.
  destruct (r <? ho)%nat; [|discriminate]. simpl in Hp.
  rewrite nth_error_map, nth_error_seq_lt in Hp.
  destruct (c <? wo)%nat; [|discriminate]. simpl in Hp.
  rewrite (at_dim_lt (height bg) r Hr) in Hp.
  rewrite Hw, (at_dim_lt w c Hc), Hnth in Hp.
  destruct q as [[x y] z].
  set (f := nth _ (nth _ F []) 0%Q) in Hp.
  assert (Hf : (0 <= f <= 1)%Q) by (apply nth_Forall_Forall; [assumption|lra]).
  assert (Hpx : uint8_px (x, y, z)).
  { rewrite <- Hnth.
    apply (nth_Forall_Forall uint8_px); [assumption|simpl; lia]. }
  destruct Hpx as (Hx & Hy & Hz).
  injection Hp as <-. simpl.
  repeat constructor; now apply darken_sample.
Qed.

End Darken.

End shadow_facts.

(** ** modules/compositing_engine.py: sizes *)

Module composite_facts.
Import CompositingEngine.

Lemma size_eqb_eq (s t : nat * nat) : size_eqb s t = true <-> s = t.
Proof.
  destruct s as [a b], t as [c d]. unfold size_eqb. simpl.
  rewrite andb_true_iff, !Nat.eqb_eq. split.
  - intros [-> ->]. reflexivity.
  - intros H. injection H as -> ->. now split.
Qed.

Lemma has_size_map_map {P Q : Type} (f : P -> Q) (w h : nat) (im : raster P) :
  has_size w h im -> has_size w h (map (map f) im).
Proof.
  intros [Hh Hw]. split; [now rewrite length_map|].
  apply Forall_map. eapply Forall_impl; [|exact Hw].
  intros row Hrow. simpl. now rewrite length_map.
Qed.

Lemma new_has_size (w h : nat) (color : rgb_px) :
  has_size w h (PIL.new (w, h) color).
Proof.
  unfold PIL.new. simpl. split; [apply repeat_length|].
  apply Forall_forall. intros row Hrow. apply repeat_spec in Hrow.
  subst. apply repeat_length.
Qed.

Lemma has_size_of_size {P : Type} (w h wb hb : nat) (im : raster P) :
  has_size wb hb im -> (0 < h)%nat -> size im = (w, h) -> has_size w h im.
Proof.
  intros Him Hpos Hsz.
  assert (Hhb : hb = h).
  { destruct Him as [<- _]. unfold size in Hsz. now injection Hsz. }
  subst hb. rewrite (has_size_size wb h im Him Hpos) in Hsz.
  injection Hsz as ->. assumption.
Qed.

Lemma paste_ok (self im : rgb) (mask : gray) :
  size im = size mask -> exists out, PIL.paste self im mask = Ok out.
Proof.
  intros Hsz. unfold PIL.paste.
  rewrite (proj2 (size_eqb_eq _ _) Hsz). eauto.
Qed.

Lemma paste_has_size (self im out : rgb) (mask : gray) (w h : nat) :
  has_size w h self -> PIL.paste self im mask = Ok out -> has_size w h out.
Proof.
  intros [Hh Hw] Hp. unfold PIL.paste in Hp.
  destruct (size_eqb (size im) (size mask)); [|discriminate].
  injection Hp as <-. split; [now rewrite length_imap|].
  apply Forall_forall. intros row Hrow.
  apply In_nth_error in Hrow. destruct Hrow as [r Hr].
  rewrite nth_error_imap in Hr.
  destruct (nth_error self r) as [row0|] eqn:Hrow0; [|discriminate].
  injection Hr as <-. rewrite length_imap.
  rewrite Forall_forall in Hw. apply Hw. eapply nth_error_In; eauto.
Qed.

Lemma paste_lookup (self im out : rgb) (mask : gray) (r c : nat) :
  PIL.paste self im mask = Ok out ->
  lookup out r c
  = option_map (fun o => match lookup im r c, lookup mask r c with
                         | Some inp, Some m => PIL.blend_px m o inp
                         | _, _ => o
                         end)
               (lookup self r c).
Proof.
  intros Hp. unfold PIL.paste in Hp.
  destruct (size_eqb (size im) (size mask)); [|discriminate].
  injection Hp as <-.
  apply (lookup_imap2 (fun r c o => match lookup im r c, lookup mask r c with
                                    | Some inp, Some m => PIL.blend_px m o inp
                                    | _, _ => o
                                    end)).
Qed.

Lemma resize_ok {P : Type} (kernel : nat * nat -> raster P -> raster P)
    (im : raster P) (w h wb hb : nat) :
  (forall w h im, (0 < w)%nat -> (0 < h)%nat -> has_size w h (kernel (w, h) im)) ->
  (0 < w)%nat -> (0 < h)%nat -> has_size wb hb im ->
  exists out, PIL.resize kernel im (Z.of_nat w, Z.of_nat h) = Ok out
              /\ has_size w h out.
Proof.
  intros Hk Hw Hh Him. unfold PIL.resize.
  destruct ((Z.of_nat (width im) =? Z.of_nat w)
            && (Z.of_nat (height im) =? Z.of_nat h)) eqn:Hsame.
  - exists im. split; [reflexivity|].
    apply andb_true_iff in Hsame. destruct Hsame as [H1 H2].
    apply Z.eqb_eq in H1, H2.
    apply (has_size_of_size w h wb hb); [assumption|assumption|].
    unfold size. f_equal; lia.
  - destruct (Z.ltb_spec (Z.of_nat w) 1); [lia|].
    destruct (Z.ltb_spec (Z.of_nat h) 1); [lia|]. simpl.
    rewrite !Nat2Z.id. eauto.
Qed.

Lemma shift_down_has_size (n w h : nat) (a : gray) :
  has_size w h a -> has_size w h (shift_down n a).
Proof.
  intros [Hh Hw]. split.
  - now rewrite shadow_facts.shift_down_length.
  - unfold shift_down. apply Forall_app. split.
    + apply shadow_facts.Forall_firstn_keep, Forall_map.
      eapply Forall_impl; [|exact Hw]. intros row Hrow. simpl.
      now rewrite length_map.
    + now apply shadow_facts.Forall_firstn_keep.
Qed.

Section WithKernels.
Context (E : externals) (HE : kernels_ok E) (cfg : comp_config).

Lemma same_size_background_ok (fg : rgba) (bg : rgb) (w h wb hb : nat) :
  (0 < w)%nat -> (0 < h)%nat -> has_size w h fg -> has_size wb hb bg ->
  exists bg1, same_size_background E fg bg = Ok bg1 /\ has_size w h bg1.
Proof.
  intros Hw Hh Hfg Hbg. unfold same_size_background.
  rewrite (has_size_size w h fg Hfg Hh).
  destruct (size_eqb (w, h) (size bg)) eqn:Hsz.
  - exists bg. split; [reflexivity|].
    apply size_eqb_eq in Hsz. now apply (has_size_of_size w h wb hb).
  - apply (resize_ok _ bg w h wb hb); auto. apply (LANCZOS_rgb_size E HE).
Qed.

Lemma mask_or_alpha_ok (fg : rgba) (mask : option gray) (w h : nat) :
  (0 < w)%nat -> (0 < h)%nat -> has_size w h fg ->
  (forall m, mask = Some m -> exists wm hm, has_size wm hm m) ->
  exists m1, mask_or_alpha E fg mask = Ok m1 /\ has_size w h m1.
Proof.
  intros Hw Hh Hfg Hm. unfold mask_or_alpha.
  rewrite (has_size_size w h fg Hfg Hh).
  destruct mask as [m|].
  - destruct (Hm m eq_refl) as (wm & hm & Hsize).
    destruct (size_eqb (size m) (w, h)) eqn:Hsz.
    + exists m. split; [reflexivity|].
      apply size_eqb_eq in Hsz. now apply (has_size_of_size w h wm hm).
    + apply (resize_ok _ m w h wm hm); auto. apply (LANCZOS_gray_size E HE).
  - exists (PIL.alpha fg). split; [reflexivity|].
    now apply has_size_map_map.
Qed.

Lemma shadow_factor_has_size (mask : gray) (w h : nat) :
  has_size w h mask -> has_size w h (shadow_factor E cfg mask).
Proof.
  intros Hm. unfold shadow_factor, shadow_mask.
  apply has_size_map_map, has_size_map_map.
  apply (GaussianBlur_size E HE). now apply shift_down_has_size.
Qed.

Lemma darken_has_size (bg : rgb) (F : raster Q) (w h : nat) :
  (0 < h)%nat -> has_size w h bg -> has_size w h F ->
  exists out, darken E bg F = Some out /\ has_size w h out.
Proof.
  intros Hh Hbg HF. unfold darken.
  rewrite (has_size_width w h bg Hbg Hh), (has_size_width w h F HF Hh).
  unfold height. destruct Hbg as [-> _]. destruct HF as [-> _].
  unfold broadcast. rewrite !Nat.eqb_refl.
  eexists. split; [reflexivity|]. split.
  - now rewrite length_map, length_seq.
  - apply Forall_map, Forall_forall. intros r _.
    now rewrite length_map, length_seq.
Qed.

Lemma add_shadow_has_size (bg : rgb) (mask : gray) (w h : nat) :
  (0 < h)%nat -> has_size w h bg -> has_size w h mask ->
  has_size w h (_add_shadow E cfg bg mask).
Proof.
  intros Hh Hbg Hm. unfold _add_shadow.
  destruct (darken_has_size bg (shadow_factor E cfg mask) w h Hh Hbg)
    as (out & -> & Hout); [now apply shadow_factor_has_size|assumption].
Qed.

Lemma foreground_rgb_ok (fg : rgba) (w h : nat) :
  (0 < h)%nat -> has_size w h fg ->
  exists fgp,
    PIL.paste (PIL.new (size fg) (0, 0, 0)) (PIL.colour fg) (PIL.alpha fg) = Ok fgp
    /\ has_size w h fgp.
Proof.
  intros Hh Hfg.
  destruct (paste_ok (PIL.new (size fg) (0, 0, 0)) (PIL.colour fg) (PIL.alpha fg))
    as [fgp Hp].
  { rewrite (has_size_size w h (PIL.colour fg)), (has_size_size w h (PIL.alpha fg));
      auto; now apply has_size_map_map. }
  exists fgp. split; [assumption|].
  eapply paste_has_size; [|exact Hp].
  rewrite (has_size_size w h fg Hfg Hh). apply new_has_size.
Qed.

(** The run of [composite] on rasters of known sizes, stage by stage. *)
Lemma composite_run (fg : rgba) (bg : rgb) (mask : option gray) (w h wb hb : nat) :
  (0 < w)%nat -> (0 < h)%nat -> has_size w h fg -> has_size wb hb bg ->
  (forall m, mask = Some m -> exists wm hm, has_size wm hm m) ->
  exists bg1 m1 fgp out,
    same_size_background E fg bg = Ok bg1 /\ has_size w h bg1
    /\ mask_or_alpha E fg mask = Ok m1 /\ has_size w h m1
    /\ PIL.paste (PIL.new (size fg) (0, 0, 0)) (PIL.colour fg) (PIL.alpha fg)
       = Ok fgp
    /\ (let m := if get (edge_refinement cfg) true
                 then _refine_edges E m1 else m1 in
        let sbg := if get (shadow_generation cfg) true
                   then _add_shadow E cfg bg1 m else bg1 in
        has_size w h m /\ has_size w h sbg
        /\ PIL.composite fgp sbg m = Ok out)
    /\ composite E cfg fg bg mask = Ok out
    /\ has_size w h out.
Proof.
  intros Hw Hh Hfg Hbg Hmask.
  destruct (same_size_background_ok fg bg w h wb hb) as (bg1 & Hbg1 & Hs1); auto.
  destruct (mask_or_alpha_ok fg mask w h) as (m1 & Hm1 & Hs2); auto.
  destruct (foreground_rgb_ok fg w h) as (fgp & Hfgp & Hs3); auto.
  set (m := if get (edge_refinement cfg) true then _refine_edges E m1 else m1).
  set (sbg := if get (shadow_generation cfg) true
              then _add_shadow E cfg bg1 m else bg1).
  assert (Hsm : has_size w h m).
  { subst m. destruct (get (edge_refinement cfg) true); [|assumption].
    now apply (GaussianBlur_size E HE). }
  assert (Hssbg : has_size w h sbg).
  { subst sbg. destruct (get (shadow_generation cfg) true); [|assumption].
    now apply add_shadow_has_size. }
  destruct (paste_ok sbg fgp m) as [out Hout].
  { now rewrite (has_size_size w h fgp), (has_size_size w h m). }
  exists bg1, m1, fgp, out.
  repeat (split; [assumption|]).
  split; [cbv zeta; fold m; fold sbg;
          split; [exact Hsm|split; [exact Hssbg|exact Hout]]|].
  split.
  - unfold composite. rewrite Hbg1. simpl. rewrite Hm1. simpl.
    rewrite Hfgp. simpl. fold m. fold sbg.
    unfold PIL.composite in *. rewrite Hout. simpl.
    unfold _match_colors. now destruct (get (color_matching cfg) true).
  - eapply paste_has_size; [exact Hssbg|exact Hout].
Qed.

End WithKernels.

End composite_facts.

Section Resized.
Context (E : externals).

Lemma same_size_background_resized (fg : rgba) (bg : rgb) (w h : nat) :
  (0 < w)%nat -> (0 < h)%nat -> has_size w h fg ->
  CompositingEngine.same_size_background E fg bg
  = Ok (if size_eqb (size fg) (size bg) then bg else LANCZOS_rgb E (w, h) bg).
Proof.
  intros Hw Hh Hfg. unfold CompositingEngine.same_size_background.
  rewrite (has_size_size w h fg Hfg Hh).
  destruct (size_eqb (w, h) (size bg)) eqn:Hsz; [reflexivity|].
  unfold PIL.resize.
  destruct ((Z.of_nat (width bg) =? Z.of_nat w)
            && (Z.of_nat (height bg) =? Z.of_nat h)) eqn:Hsame.
  { apply andb_true_iff in Hsame. destruct Hsame as [H1 H2].
    apply Z.eqb_eq in H1, H2.
    assert (Heq : (w, h) = size bg) by (unfold size; f_equal; lia).
    apply composite_facts.size_eqb_eq in Heq. congruence. }
  destruct (Z.ltb_spec (Z.of_nat w) 1); [lia|].
  destruct (Z.ltb_spec (Z.of_nat h) 1); [lia|]. simpl.
  now rewrite !Nat2Z.id.
Qed.

Lemma mask_or_alpha_resized (fg : rgba) (mask : option gray) (w h : nat) :
  (0 < w)%nat -> (0 < h)%nat -> has_size w h fg ->
  CompositingEngine.mask_or_alpha E fg mask
  = Ok match mask with
       | None => PIL.alpha fg
       | Some m => if size_eqb (size m) (size fg) then m
                   else LANCZOS_gray E (w, h) m
       end.
Proof.
  intros Hw Hh Hfg. unfold CompositingEngine.mask_or_alpha.
  rewrite (has_size_size w h fg Hfg Hh).
  destruct mask as [m|]; [|reflexivity].
  destruct (size_eqb (size m) (w, h)) eqn:Hsz; [reflexivity|].
  unfold PIL.resize.
  destruct ((Z.of_nat (width m) =? Z.of_nat w)
            && (Z.of_nat (height m) =? Z.of_nat h)) eqn:Hsame.
  { apply andb_true_iff in Hsame. destruct Hsame as [H1 H2].
    apply Z.eqb_eq in H1, H2.
    assert (Heq : size m = (w, h)) by (unfold size; f_equal; lia).
    apply composite_facts.size_eqb_eq in Heq. congruence. }
  destruct (Z.ltb_spec (Z.of_nat w) 1); [lia|].
  destruct (Z.ltb_spec (Z.of_nat h) 1); [lia|]. simpl.
  now rewrite !Nat2Z.id.
Qed.

End Resized.

(** C9, as the specification states it, fails for an empty foreground: with
    a 0 x 0 foreground and a 1 x 1 background the sizes differ, the
    background is resized to (0, 0), and that resize raises. *)
Lemma composite_fails_on_empty_foreground :
  CompositingEngine.composite Examples.E0 Examples.comp_defaults
    [] Examples.one_bg None = Raise ValueError.
Proof. reflexivity. Qed.

(** C9, as the code has it.  For a foreground of at least 1 x 1 pixels, any
    background and any optional mask, [composite] does not fail and returns
    a picture of the foreground's size.  A background whose size differs
    from the foreground's is first resampled (LANCZOS) to that size, and so
    is a given mask; the result is [Image.composite] of the flattened
    foreground and that background (shadowed when enabled) through that
    mask (edge-refined when enabled). *)
Theorem composite_has_foreground_size (E : externals)
    (cfg : CompositingEngine.comp_config)
    (fg : rgba) (bg : rgb) (mask : option gray) (w h wb hb : nat) :
  kernels_ok E ->
  (0 < w)%nat -> (0 < h)%nat -> has_size w h fg -> has_size wb hb bg ->
  (forall m, mask = Some m -> exists wm hm, has_size wm hm m) ->
  let background :=
    if size_eqb (size fg) (size bg) then bg else LANCZOS_rgb E (w, h) bg in
  let mask_ :=
    match mask with
    | None => PIL.alpha fg
    | Some m => if size_eqb (size m) (size fg) then m
                else LANCZOS_gray E (w, h) m
    end in
  let refined :=
    if get (CompositingEngine.edge_refinement cfg) true
    then CompositingEngine._refine_edges E mask_ else mask_ in
  let shadowed :=
    if get (CompositingEngine.shadow_generation cfg) true
    then CompositingEngine._add_shadow E cfg background refined
    else background in
  exists foreground_rgb out,
    CompositingEngine.composite E cfg fg bg mask = Ok out
    /\ has_size w h out
    /\ has_size w h background
    /\ has_size w h mask_
    /\ PIL.paste (PIL.new (size fg) (0, 0, 0)) (PIL.colour fg) (PIL.alpha fg)
       = Ok foreground_rgb
    /\ PIL.composite foreground_rgb shadowed refined = Ok out.
Proof.
  intros HE Hw Hh Hfg Hbg Hmask background mask_ refined shadowed.
  destruct (composite_facts.composite_run E HE cfg fg bg mask w h wb hb)
    as (bg1 & m1 & fgp & out & Hbg1 & Hs1 & Hm1 & Hs2 & Hfgp & Hrun & Hc & Hs);
    auto.
  rewrite (same_size_background_resized E fg bg w h Hw Hh Hfg) in Hbg1.
  rewrite (mask_or_alpha_resized E fg mask w h Hw Hh Hfg) in Hm1.
  injection Hbg1 as Hbg1. injection Hm1 as Hm1.
  fold background in Hbg1. fold mask_ in Hm1. subst bg1 m1.
  cbv zeta in Hrun. fold refined in Hrun. fold shadowed in Hrun.
  destruct Hrun as (_ & _ & Hout).
  exists fgp, out.
  split; [exact Hc|]. split; [exact Hs|]. split; [exact Hs1|].
  split; [exact Hs2|]. split; [exact Hfgp|exact Hout].
Qed.

Lemma composite_has_foreground_size_witness :
  exists out,
    CompositingEngine.composite Examples.E0 Examples.comp_defaults
      Examples.pair_fg Examples.one_bg (Some Examples.column_mask) = Ok out
    /\ has_size 2 1 out
    /\ has_size 2 1 (LANCZOS_rgb Examples.E0 (2%nat, 1%nat) Examples.one_bg)
    /\ has_size 2 1 (LANCZOS_gray Examples.E0 (2%nat, 1%nat) Examples.column_mask).
Proof.
  destruct (composite_has_foreground_size Examples.E0 Examples.comp_defaults
              Examples.pair_fg Examples.one_bg (Some Examples.column_mask)
              2 1 1 1 Examples_facts.E0_kernels_ok ltac:(lia) ltac:(lia))
    as (fgp & out & Hout & Hs & Hb & Hm & _ & _).
  - split; [reflexivity|repeat constructor].
  - split; [reflexivity|repeat constructor].
  - intros m Hm. injection Hm as <-. exists 1%nat, 2%nat.
    split; [reflexivity|repeat constructor].
  - exists out. split; [exact Hout|]. split; [exact Hs|].
    split; [exact Hb|exact Hm].
Defined.

(** ** modules/compositing_engine.py: the blend *)

Lemma has_size_lookup {P : Type} (w h : nat) (im : raster P) (r c : nat) :
  has_size w h im -> (r < h)%nat -> (c < w)%nat -> exists p, lookup im r c = Some p.
Proof.
  intros Him Hr Hc. pose proof Him as [Hh _]. subst h.
  pose proof (has_size_row w _ im r Him Hr) as Hrow.
  destruct im as [|row0 im0] eqn:Heq; [simpl in Hr; lia|].
  rewrite <- Heq in *.
  assert (exists d : P, True) as [d _].
  { destruct (nth r im []) as [|d row] eqn:Hn; [simpl in Hrow; lia|eauto]. }
  exists (nth c (nth r im []) d). apply nth_lookup; [assumption|lia].
Qed.

Lemma lookup_inside {P : Type} (w h : nat) (im : raster P) (r c : nat) (p : P) :
  has_size w h im -> lookup im r c = Some p -> (r < h)%nat /\ (c < w)%nat.
Proof.
  intros Him Hl. destruct (lookup_nth im r c p p Hl) as (Hr & Hc & _).
  rewrite (has_size_row w h im r Him Hr) in Hc.
  destruct Him as [<- _]. now split.
Qed.

Lemma lookup_map_map {P Q : Type} (f : P -> Q) (im : raster P) (r c : nat) :
  lookup (map (map f) im) r c = option_map f (lookup im r c).
Proof.
  unfold lookup. rewrite nth_error_map.
  destruct (nth_error im r) as [row|]; simpl; [|reflexivity].
  now rewrite nth_error_map.
Qed.

Lemma lookup_new (w h r c : nat) (color : rgb_px) :
  (r < h)%nat -> (c < w)%nat -> lookup (PIL.new (w, h) color) r c = Some color.
Proof.
  intros Hr Hc. unfold PIL.new, lookup. simpl.
  rewrite (nth_error_repeat _ Hr). now apply nth_error_repeat.
Qed.

(** [DIV255] is division by 255 rounded to the nearest integer. *)
Lemma DIV255_nearest (x : Z) :
  0 <= x <= 255 * 255 -> Z.abs (255 * PIL.DIV255 x - x) <= 127.
Proof.
  intros Hx. unfold PIL.DIV255. cbv zeta.
  rewrite !Z.shiftr_div_pow2 by lia. change (2 ^ 8) with 256.
  Z.div_mod_to_equations. lia.
Qed.

Lemma BLEND8_opaque (in1 in2 : Z) : 0 <= in2 <= 255 -> PIL.BLEND8 255 in1 in2 = in2.
Proof.
  intros H. unfold PIL.BLEND8, PIL.DIV255. cbv zeta.
  rewrite !Z.shiftr_div_pow2 by lia. change (2 ^ 8) with 256.
  Z.div_mod_to_equations. lia.
Qed.

(** C3, as the code has it.  With edge refinement and shadow generation on,
    [composite] blurs the mask, darkens the (size-matched) background under
    the shadow of that mask, and blends per pixel and channel
    [out = BLEND8 m shadowed_bg fgp], the 8-bit rounding of
    [fgp * m / 255 + shadowed_bg * (255 - m) / 255], where [fgp] is the
    foreground colour already flattened onto black by its own alpha,
    [fgp = DIV255 (fg * a)]. *)
Theorem composite_blend (E : externals) (cfg : CompositingEngine.comp_config)
    (fg : rgba) (bg : rgb) (mask : option gray) (w h wb hb : nat) :
  kernels_ok E ->
  (0 < w)%nat -> (0 < h)%nat -> has_size w h fg -> has_size wb hb bg ->
  (forall m, mask = Some m -> exists wm hm, has_size wm hm m) ->
  get (CompositingEngine.edge_refinement cfg) true = true ->
  get (CompositingEngine.shadow_generation cfg) true = true ->
  (exists bg1 m1 out,
      CompositingEngine.same_size_background E fg bg = Ok bg1
      /\ CompositingEngine.mask_or_alpha E fg mask = Ok m1
      /\ CompositingEngine.composite E cfg fg bg mask = Ok out
      /\ forall r c red green blue a,
           lookup fg r c = Some (red, green, blue, a) ->
           exists m s,
             lookup (CompositingEngine._refine_edges E m1) r c = Some m
             /\ lookup (CompositingEngine._add_shadow E cfg bg1
                          (CompositingEngine._refine_edges E m1)) r c = Some s
             /\ lookup out r c
                = Some (PIL.blend_px m s
                          (PIL.DIV255 (red * a), PIL.DIV255 (green * a),
                           PIL.DIV255 (blue * a))))
  /\ (forall m in1 in2,
        0 <= m <= 255 -> 0 <= in1 <= 255 -> 0 <= in2 <= 255 ->
        Z.abs (255 * PIL.BLEND8 m in1 in2 - (in1 * (255 - m) + in2 * m)) <= 127).
Proof.
  intros HE Hw Hh Hfg Hbg Hmask Hedge Hshadow. split.
  - destruct (composite_facts.composite_run E HE cfg fg bg mask w h wb hb)
      as (bg1 & m1 & fgp & out & Hbg1 & Hs1 & Hm1 & Hs2 & Hfgp & Hrun & Hc & Hs);
      auto.
    rewrite Hedge, Hshadow in Hrun. cbv zeta in Hrun.
    destruct Hrun as (Hsm & Hssbg & Hout).
    exists bg1, m1, out. repeat (split; [assumption|]).
    intros r c red green blue a Hpx.
    destruct (lookup_inside w h fg r c _ Hfg Hpx) as [Hr Hcw].
    destruct (has_size_lookup w h _ r c Hsm Hr Hcw) as [m Hm].
    destruct (has_size_lookup w h _ r c Hssbg Hr Hcw) as [s Hsv].
    exists m, s. repeat (split; [assumption|]).
    unfold PIL.composite in Hout.
    rewrite (composite_facts.paste_lookup _ _ _ _ r c Hout), Hsv, Hm.
    rewrite (composite_facts.paste_lookup _ _ _ _ r c Hfgp).
    rewrite (has_size_size w h fg Hfg Hh), (lookup_new w h r c _ Hr Hcw).
    unfold PIL.colour, PIL.alpha. rewrite !lookup_map_map, Hpx. reflexivity.
  - intros m in1 in2 Hm H1 H2. unfold PIL.BLEND8.
    apply DIV255_nearest. nia.
Qed.

Lemma composite_blend_witness :
  exists out,
    CompositingEngine.composite Examples.E0 Examples.comp_defaults
      Examples.half_fg Examples.one_bg None = Ok out
    /\ lookup out 0 0
       = Some (PIL.BLEND8 128 10 (PIL.DIV255 (200 * 128)),
               PIL.BLEND8 128 20 (PIL.DIV255 (100 * 128)),
               PIL.BLEND8 128 30 (PIL.DIV255 (50 * 128))).
Proof.
  destruct (composite_blend Examples.E0 Examples.comp_defaults
              Examples.half_fg Examples.one_bg None 1 1 1 1)
    as ((bg1 & m1 & out & Hbg1 & Hm1 & Hout & Hpx) & _).
  - exact Examples_facts.E0_kernels_ok.
  - lia.
  - lia.
  - split; [reflexivity|repeat constructor].
  - split; [reflexivity|repeat constructor].
  - intros m Hm. discriminate Hm.
  - reflexivity.
  - reflexivity.
  - exists out. split; [exact Hout|].
    injection Hbg1 as <-. injection Hm1 as <-.
    destruct (Hpx 0%nat 0%nat 200 100 50 128 eq_refl) as (m & s & Hm & Hs & Ho).
    injection Hm as <-. injection Hs as <-. exact Ho.
Defined.

(** C3, as the specification states it, fails.  A half-transparent foreground pixel
    of red 200 over a background of red 10, composited through its own
    alpha: the refined mask is 128 and the shadowed background still 10, so
    the worded blend gives about 105, while [composite] returns 55, the
    blend of the alpha-flattened red 100. *)
Lemma composite_is_not_the_plain_blend :
  exists out,
    CompositingEngine.composite Examples.E0 Examples.comp_defaults
      Examples.half_fg Examples.one_bg None = Ok out
    /\ lookup Examples.half_fg 0 0 = Some (200, 100, 50, 128)
    /\ lookup (CompositingEngine._refine_edges Examples.E0
                 (PIL.alpha Examples.half_fg)) 0 0 = Some 128
    /\ lookup (CompositingEngine._add_shadow Examples.E0 Examples.comp_defaults
                 Examples.one_bg
                 (CompositingEngine._refine_edges Examples.E0
                    (PIL.alpha Examples.half_fg))) 0 0 = Some (10, 20, 30)
    /\ lookup out 0 0 = Some (55, 35, 27)
    /\ ~ (Qabs (inject_Z 55 - claimed_blend 200 128 10) < 1)%Q.
Proof.
  eexists. split; [vm_compute; reflexivity|].
  repeat (split; [vm_compute; reflexivity|]).
  intros H. vm_compute in H. discriminate H.
Qed.

(** ** modules/compositing_engine.py: the shadow, pixel by pixel *)

Section ShadowPixel.
Context (E : externals) (HE : kernels_ok E) (cfg : CompositingEngine.comp_config).

Lemma shadow_factor_entry (mask : gray) (w h r c : nat) :
  has_size w h mask -> (r < h)%nat -> (c < w)%nat ->
  nth c (nth r (CompositingEngine.shadow_factor E cfg mask) []) 0%Q
  = fl E (1 - fl E (fl E (inject_Z
                            (pixel (GaussianBlur E
                                      (get (CompositingEngine.shadow_blur cfg) 15)
                                      (CompositingEngine.shift_down 20 mask)) r c)
                          / 255)
                    * get (CompositingEngine.shadow_opacity cfg) (fl E (3 # 10)))).
Proof.
  intros Hm Hr Hc.
  assert (Hsm : has_size w h (CompositingEngine.shadow_mask E cfg mask)).
  { apply (GaussianBlur_size E HE). now apply composite_facts.shift_down_has_size. }
  destruct (has_size_lookup w h _ r c Hsm Hr Hc) as [s Hs].
  destruct (lookup_nth _ r c s 0 Hs) as (_ & _ & Hnth).
  assert (HF : lookup (CompositingEngine.shadow_factor E cfg mask) r c
               = Some (fl E (1 - fl E (fl E (inject_Z s / 255)
                                       * get (CompositingEngine.shadow_opacity cfg)
                                             (fl E (3 # 10)))))).
  { unfold CompositingEngine.shadow_factor. cbv zeta.
    rewrite !lookup_map_map, Hs. reflexivity. }
  destruct (lookup_nth _ r c _ 0%Q HF) as (_ & _ & ->).
  unfold CompositingEngine.shadow_mask in Hnth. cbv zeta in Hnth.
  unfold pixel. now rewrite Hnth.
Qed.

Lemma add_shadow_pixel (bg : rgb) (mask : gray) (w h r c : nat) (x y z : Z) :
  has_size w h bg -> has_size w h mask -> lookup bg r c = Some (x, y, z) ->
  let f := nth c (nth r (CompositingEngine.shadow_factor E cfg mask) []) 0%Q in
  lookup (CompositingEngine._add_shadow E cfg bg mask) r c
  = Some (CompositingEngine.astype_uint8 (fl E (inject_Z x * f)),
          CompositingEngine.astype_uint8 (fl E (inject_Z y * f)),
          CompositingEngine.astype_uint8 (fl E (inject_Z z * f))).
Proof.
  intros Hbg Hm Hq f.
  destruct (lookup_inside w h bg r c _ Hbg Hq) as [Hr Hc].
  assert (Hh : (0 < h)%nat) by lia.
  pose proof (composite_facts.shadow_factor_has_size E HE cfg mask w h Hm) as HF.
  destruct (lookup_nth bg r c _ (0, 0, 0) Hq) as (_ & _ & Hnth).
  unfold CompositingEngine._add_shadow, CompositingEngine.darken.
  rewrite (has_size_width w h bg Hbg Hh), (has_size_width w h _ HF Hh).
  unfold height. pose proof Hbg as [Hlb _]. pose proof HF as [HlF _].
  rewrite Hlb, HlF. unfold CompositingEngine.broadcast.
  rewrite !Nat.eqb_refl.
  unfold lookup. rewrite nth_error_map, nth_error_seq_lt.
  destruct (Nat.ltb_spec r h); [|lia]. simpl.
  rewrite nth_error_map, nth_error_seq_lt.
  destruct (Nat.ltb_spec c w); [|lia]. simpl.
  rewrite (shadow_facts.at_dim_lt h r Hr), (shadow_facts.at_dim_lt w c Hc), Hnth.
  reflexivity.
Qed.

End ShadowPixel.

(** C6. The shadow only darkens.  With an opacity in [0, 1], every channel of
    every pixel of [_add_shadow]'s output is at most the same channel of the
    background pixel at that position.  For a mask of the background's size
    the output pixel is the background pixel times the factor
    [1 - shadow / 255 * opacity] (in floating point, cast back to 8 bits),
    where [shadow] is the sample at that position of the Gaussian blur of
    the mask moved down by 20 rows, its first 20 rows zero; the factor lies
    in [0, 1] at every position. *)
Theorem add_shadow_only_darkens (E : externals) (cfg : CompositingEngine.comp_config)
    (background : rgb) (mask : gray) (w h : nat) :
  kernels_ok E -> binary64 (fl E) ->
  (0 <= get (CompositingEngine.shadow_opacity cfg) (fl E (3 # 10)) <= 1)%Q ->
  has_size w h background -> uint8_rgb background -> uint8_gray mask ->
  (forall r c p q,
      lookup (CompositingEngine._add_shadow E cfg background mask) r c = Some p ->
      lookup background r c = Some q ->
      Forall2 Z.le (channels p) (channels q))
  /\ (forall r c,
        let shadow :=
          pixel (GaussianBlur E (get (CompositingEngine.shadow_blur cfg) 15)
                   (CompositingEngine.shift_down 20 mask)) r c in
        let factor :=
          fl E (1 - fl E (fl E (inject_Z shadow / 255)
                          * get (CompositingEngine.shadow_opacity cfg)
                                (fl E (3 # 10)))) in
        (0 <= factor <= 1)%Q
        /\ (has_size w h mask ->
            forall x y z,
              lookup background r c = Some (x, y, z) ->
              lookup (CompositingEngine._add_shadow E cfg background mask) r c
              = Some (CompositingEngine.astype_uint8 (fl E (inject_Z x * factor)),
                      CompositingEngine.astype_uint8 (fl E (inject_Z y * factor)),
                      CompositingEngine.astype_uint8 (fl E (inject_Z z * factor)))))
  /\ length (CompositingEngine.shift_down 20 mask) = length mask
  /\ forall r c,
       (r < length mask)%nat ->
       pixel (CompositingEngine.shift_down 20 mask) r c
       = if (r <? 20)%nat then 0 else pixel mask (r - 20) c.
Proof.
  intros HE Hfl Hop Hsize Hbg Hmask.
  assert (Hsm : uint8_gray (CompositingEngine.shadow_mask E cfg mask)).
  { apply (GaussianBlur_uint8 E HE). now apply shadow_facts.shift_down_uint8. }
  assert (HF : Forall (Forall (fun f => 0 <= f <= 1)%Q)
                      (CompositingEngine.shadow_factor E cfg mask)).
  { unfold CompositingEngine.shadow_factor.
    rewrite map_map. apply Forall_map.
    eapply Forall_impl; [|exact Hsm]. intros row Hrow. simpl.
    rewrite map_map. apply Forall_map.
    eapply Forall_impl; [|exact Hrow]. intros s Hs. simpl.
    now apply factor_unit. }
  split; [|split; [|split]].
  - intros r c p q Hp Hq. unfold CompositingEngine._add_shadow in Hp.
    destruct (CompositingEngine.darken E background _) as [out|] eqn:Hd.
    + eapply shadow_facts.darken_lookup; eauto.
    + rewrite Hq in Hp. injection Hp as <-.
      destruct q as [[x y] z]. simpl. repeat constructor; lia.
  - intros r c shadow factor. split.
    + subst factor. apply factor_unit; [assumption| |assumption].
      subst shadow. unfold pixel.
      apply (nth_Forall_Forall (fun v => 0 <= v <= 255)); [exact Hsm|lia].
    + intros Hm x y z Hq.
      destruct (lookup_inside w h background r c _ Hsize Hq) as [Hr Hc].
      rewrite (add_shadow_pixel E HE cfg background mask w h r c x y z Hsize Hm Hq).
      cbv zeta.
      now rewrite (shadow_factor_entry E HE cfg mask w h r c Hm Hr Hc).
  - apply shadow_facts.shift_down_length.
  - intros r c. apply shadow_facts.shift_down_pixel.
Qed.

Lemma add_shadow_only_darkens_witness :
  lookup (CompositingEngine._add_shadow Examples.E0 Examples.comp_defaults
            Examples.tall_gray Examples.tall_mask) 20 0
  = Some (70, 70, 70)
  /\ Forall2 Z.le [70; 70; 70] [100; 100; 100]
  /\ pixel (CompositingEngine.shift_down 20 Examples.tall_mask) 20 0
     = pixel Examples.tall_mask 0 0.
Proof.
  assert (Hs : has_size 1 21 Examples.tall_gray).
  { split; [reflexivity|]. unfold Examples.tall_gray. apply Forall_forall.
    intros row Hrow. apply repeat_spec in Hrow. now subst. }
  assert (Hm : has_size 1 21 Examples.tall_mask).
  { split; [reflexivity|]. unfold Examples.tall_mask. apply Forall_forall.
    intros row Hrow. apply repeat_spec in Hrow. now subst. }
  assert (Hop : (0 <= get (CompositingEngine.shadow_opacity Examples.comp_defaults)
                       (fl Examples.E0 (3 # 10)) <= 1)%Q).
  { simpl. unfold Examples.exact. lra. }
  assert (Hbg : uint8_rgb Examples.tall_gray).
  { unfold Examples.tall_gray. apply Forall_forall.
    intros row Hrow. apply repeat_spec in Hrow. subst.
    repeat constructor; lia. }
  assert (Hmk : uint8_gray Examples.tall_mask).
  { unfold Examples.tall_mask. apply Forall_forall.
    intros row Hrow. apply repeat_spec in Hrow. subst.
    repeat constructor; lia. }
  destruct (add_shadow_only_darkens Examples.E0 Examples.comp_defaults
              Examples.tall_gray Examples.tall_mask 1 21
              Examples_facts.E0_kernels_ok Examples_facts.exact_binary64
              Hop Hs Hbg Hmk)
    as (Hdark & Hprod & _ & Hshift).
  destruct (Hprod 20%nat 0%nat) as [_ Hpixel].
  split; [|split].
  - rewrite (Hpixel Hm 100 100 100 eq_refl). vm_compute. reflexivity.
  - apply (Hdark 20%nat 0%nat (70, 70, 70) (100, 100, 100)); now vm_compute.
  - apply (Hshift 20%nat 0%nat). simpl. lia.
Defined.

(** ** methods/: the order of the stages *)

Module Methods_facts.
Import Methods ImageLoader ForegroundExtractor.

Lemma then_stage_inv {A B : Type} (call : result A) (ev : A -> event)
    (k : A -> pipeline B) (log : list event) (r : B * list event) :
  then_ (stage call ev) k log = Ok r ->
  exists a, call = Ok a /\ k a (log ++ [ev a]) = Ok r.
Proof.
  unfold then_, stage. destruct call as [a|e]; [|discriminate]. eauto.
Qed.

Lemma then_lift_inv {A B : Type} (call : result A)
    (k : A -> pipeline B) (log : list event) (r : B * list event) :
  then_ (lift call) k log = Ok r ->
  exists a, call = Ok a /\ k a log = Ok r.
Proof.
  unfold then_, lift. destruct call as [a|e]; [|discriminate]. eauto.
Qed.

Lemma then_visualize_inv {B : Type} (show : bool) (ev : event)
    (k : unit -> pipeline B) (log : list event) (r : B * list event) :
  then_ (if show then visualize ev else ret tt) k log = Ok r ->
  k tt (log ++ if show then [ev] else []) = Ok r.
Proof.
  unfold then_, visualize, ret. destruct show; [trivial|].
  now rewrite app_nil_r.
Qed.

Section Traces.
Context (E : externals) (FS : filesystem) (C : collaborators) (cfg : config).

(** Every successful run of method 1 is load, extract, process the mask
    for inpainting, build the prompt, inpaint, save, and visualize when
    enabled; each stage consumes what earlier stages produced. *)
Lemma method1_trace (input : string)
    (prompt product_description style_preset output_path : option string)
    (log log' : list event) (saved : string) :
  method1_generate E FS C cfg input prompt product_description style_preset
    output_path log = Ok (saved, log') ->
  exists image ext final_prompt out path,
    load_image E FS (image_processing cfg) input = Ok image
    /\ extract_foreground (remove C) image = Ok ext
    /\ inpaint_background C image
         (MaskProcessor.process_mask E (mask_processing cfg) (mask ext)
            "for_inpainting") final_prompt = Ok out
    /\ save_image C out path = Ok saved
    /\ log' = log
              ++ [LoadImage input image;
                  ExtractForeground image (foreground ext) (mask ext);
                  ProcessMask "for_inpainting" (mask ext)
                    (MaskProcessor.process_mask E (mask_processing cfg)
                       (mask ext) "for_inpainting");
                  BuildPrompt final_prompt;
                  InpaintBackground image
                    (MaskProcessor.process_mask E (mask_processing cfg)
                       (mask ext) "for_inpainting") final_prompt out;
                  SaveImage out path saved]
              ++ (if get (show_stages cfg) true
                  then [VisualizeMethod1 image (foreground ext) (mask ext)
                          (MaskProcessor.process_mask E (mask_processing cfg)
                             (mask ext) "for_inpainting") out]
                  else []).
Proof.
  unfold method1_generate. intros H.
  apply then_stage_inv in H. destruct H as (image & Hload & H).
  apply then_stage_inv in H. destruct H as (ext & Hext & H).
  apply then_stage_inv in H. destruct H as (inpaint_mask & Hmask & H).
  injection Hmask as <-.
  apply then_stage_inv in H. destruct H as (final_prompt & _ & H).
  apply then_stage_inv in H. destruct H as (out & Hinp & H).
  apply then_lift_inv in H. destruct H as (path & _ & H).
  apply then_stage_inv in H. destruct H as (saved' & Hsave & H).
  apply then_visualize_inv in H. unfold ret in H.
  injection H as <- <-.
  exists image, ext, final_prompt, out, path.
  repeat (split; [assumption|]).
  now rewrite <- !app_assoc.
Qed.

(** Every successful run of method 2 is load, extract, process the mask
    for compositing, build the prompt, generate a background of the
    loaded image's size, composite the extracted foreground over it
    through the processed mask, save, and visualize when enabled. *)
Lemma method2_trace (input : string) (prompt style_preset : option string)
    (color_palette : option (list string)) (output_path : option string)
    (log log' : list event) (saved : string) :
  method2_generate E FS C cfg input prompt style_preset color_palette
    output_path log = Ok (saved, log') ->
  exists image ext background_prompt background out path,
    load_image E FS (image_processing cfg) input = Ok image
    /\ extract_foreground (remove C) image = Ok ext
    /\ generate_background C background_prompt (width image) (height image)
       = Ok background
    /\ CompositingEngine.composite E (compositing cfg) (foreground ext)
         background
         (Some (MaskProcessor.process_mask E (mask_processing cfg) (mask ext)
                  "for_compositing")) = Ok out
    /\ save_image C out path = Ok saved
    /\ log' = log
              ++ [LoadImage input image;
                  ExtractForeground image (foreground ext) (mask ext);
                  ProcessMask "for_compositing" (mask ext)
                    (MaskProcessor.process_mask E (mask_processing cfg)
                       (mask ext) "for_compositing");
                  BuildPrompt background_prompt;
                  GenerateBackground background_prompt (width image)
                    (height image) background;
                  Composite (foreground ext) background
                    (MaskProcessor.process_mask E (mask_processing cfg)
                       (mask ext) "for_compositing") out;
                  SaveImage out path saved]
              ++ (if get (show_stages cfg) true
                  then [VisualizeMethod2 image (foreground ext) (mask ext)
                          background out]
                  else []).
Proof.
  unfold method2_generate. intros H.
  apply then_stage_inv in H. destruct H as (image & Hload & H).
  unfold size in H.
  apply then_stage_inv in H. destruct H as (ext & Hext & H).
  apply then_stage_inv in H. destruct H as (composite_mask & Hmask & H).
  injection Hmask as <-.
  apply then_stage_inv in H. destruct H as (background_prompt & _ & H).
  apply then_stage_inv in H. destruct H as (background & Hbg & H).
  apply then_stage_inv in H. destruct H as (out & Hcomp & H).
  apply then_lift_inv in H. destruct H as (path & _ & H).
  apply then_stage_inv in H. destruct H as (saved' & Hsave & H).
  apply then_visualize_inv in H. unfold ret in H.
  injection H as <- <-.
  exists image, ext, background_prompt, background, out, path.
  repeat (split; [assumption|]).
  now rewrite <- !app_assoc.
Qed.

End Traces.

End Methods_facts.

Import Methods.



(** C1, as the specification states it, fails for method 1: a successful run of
    [Method1ControlNetInpaint.generate] saves the inpainting result and its
    log holds no compositing step at all. *)
Lemma method1_never_composites :
  exists saved log,
    method1_generate Examples.E0 Examples.FS0 Examples.C0 Examples.config0
      "product.png" None None None (Some "out.png") [] = Ok (saved, log)
    /\ forall fg bg m out, ~ In (Composite fg bg m out) log.
Proof.
  exists "out.png", Examples.log1. split; [vm_compute; reflexivity|].
  intros fg bg m out Hin. unfold Examples.log1 in Hin. simpl in Hin.
  repeat (destruct Hin as [Hin|Hin]; [discriminate Hin|]). exact Hin.
Qed.

(** C1, as the code has it.  A successful run of method 2 loads the image,
    extracts the foreground from it, obtains a background of the loaded
    image's size from the external generator, and ends by compositing that
    foreground over that background and saving the composite.  A successful
    run of method 1 loads the image, extracts the foreground from it,
    inpaints the loaded image under the mask processed for inpainting, and
    ends by saving the inpainting result; its log holds no compositing
    step. *)
Theorem generate_ends_with_composite_or_inpaint (E : externals)
    (FS : ImageLoader.filesystem) (C : collaborators) (cfg : config)
    (input : string) :
  (forall prompt style_preset color_palette output_path saved log,
      method2_generate E FS C cfg input prompt style_preset color_palette
        output_path [] = Ok (saved, log) ->
      exists image ext background_prompt background out path earlier,
        ImageLoader.load_image E FS (image_processing cfg) input = Ok image
        /\ ForegroundExtractor.extract_foreground (remove C) image = Ok ext
        /\ generate_background C background_prompt (width image) (height image)
           = Ok background
        /\ CompositingEngine.composite E (compositing cfg)
             (ForegroundExtractor.foreground ext) background
             (Some (MaskProcessor.process_mask E (mask_processing cfg)
                      (ForegroundExtractor.mask ext) "for_compositing"))
           = Ok out
        /\ save_image C out path = Ok saved
        /\ log = earlier
                 ++ [Composite (ForegroundExtractor.foreground ext) background
                       (MaskProcessor.process_mask E (mask_processing cfg)
                          (ForegroundExtractor.mask ext) "for_compositing") out;
                     SaveImage out path saved]
                 ++ (if get (show_stages cfg) true
                     then [VisualizeMethod2 image
                             (ForegroundExtractor.foreground ext)
                             (ForegroundExtractor.mask ext) background out]
                     else []))
  /\ (forall prompt product_description style_preset output_path saved log,
      method1_generate E FS C cfg input prompt product_description style_preset
        output_path [] = Ok (saved, log) ->
      (exists image ext final_prompt out path earlier,
          ImageLoader.load_image E FS (image_processing cfg) input = Ok image
          /\ ForegroundExtractor.extract_foreground (remove C) image = Ok ext
          /\ inpaint_background C image
               (MaskProcessor.process_mask E (mask_processing cfg)
                  (ForegroundExtractor.mask ext) "for_inpainting") final_prompt
             = Ok out
          /\ save_image C out path = Ok saved
          /\ log = earlier
                   ++ [InpaintBackground image
                         (MaskProcessor.process_mask E (mask_processing cfg)
                            (ForegroundExtractor.mask ext) "for_inpainting")
                         final_prompt out;
                       SaveImage out path saved]
                   ++ (if get (show_stages cfg) true
                       then [VisualizeMethod1 image
                               (ForegroundExtractor.foreground ext)
                               (ForegroundExtractor.mask ext)
                               (MaskProcessor.process_mask E (mask_processing cfg)
                                  (ForegroundExtractor.mask ext) "for_inpainting")
                               out]
                       else []))
      /\ forall fg bg m out, ~ In (Composite fg bg m out) log).
Proof.
  split.
  - intros prompt style palette output saved log H.
    apply Methods_facts.method2_trace in H.
    destruct H as (image & ext & bp & bg & out & path & H1 & H2 & H3 & H4 & H5 & H6).
    exists image, ext, bp, bg, out, path.
    eexists. repeat (split; [eassumption|]).
    rewrite H6. simpl. 
    change (?a :: ?b :: ?c :: ?d :: ?e :: ?f :: ?g :: ?t)
      with ([a; b; c; d; e] ++ [f; g] ++ t).
    reflexivity.
  - intros prompt pd style output saved log H.
    apply Methods_facts.method1_trace in H.
    destruct H as (image & ext & fp & out & path & H1 & H2 & H3 & H4 & H5).
    split.
    + exists image, ext, fp, out, path.
      eexists. repeat (split; [eassumption|]).
      rewrite H5. simpl.
      change (?a :: ?b :: ?c :: ?d :: ?e :: ?f :: ?t)
        with ([a; b; c; d] ++ [e; f] ++ t).
      reflexivity.
    + intros fg bg m o Hin. rewrite H5 in Hin. simpl in Hin.
      repeat (destruct Hin as [Hin|Hin]; [discriminate Hin|]).
      destruct (get (show_stages cfg) true); simpl in Hin.
      * destruct Hin as [Hin|Hin]; [discriminate Hin|exact Hin].
      * exact Hin.
Qed.

Lemma generate_ends_with_composite_or_inpaint_witness :
  (exists earlier fg background mask out visualized,
      Examples.log2
      = earlier ++ [Composite fg background mask out;
                    SaveImage out "out.png" "out.png"] ++ visualized)
  /\ (exists earlier mask prompt out visualized,
      Examples.log1
      = earlier ++ [InpaintBackground Examples.one_bg mask prompt out;
                    SaveImage out "out.png" "out.png"] ++ visualized)
  /\ forall fg bg m out, ~ In (Composite fg bg m out) Examples.log1.
Proof.
  pose proof (generate_ends_with_composite_or_inpaint Examples.E0 Examples.FS0
                Examples.C0 Examples.config0 "product.png") as [H2 H1].
  split; [|split].
  - destruct (H2 None None None (Some "out.png") "out.png" Examples.log2)
      as (image & ext & bp & bg & out & path & earlier & _ & _ & _ & _ & Hs & Hlog).
    + vm_compute. reflexivity.
    + simpl in Hs. injection Hs as Hp. subst path. eauto 10.
  - destruct (H1 None None None (Some "out.png") "out.png" Examples.log1)
      as [(image & ext & fp & out & path & earlier & Hl & _ & _ & Hs & Hlog) _].
    + vm_compute. reflexivity.
    + simpl in Hs. injection Hs as Hp. subst path.
      vm_compute in Hl. injection Hl as Hi. subst image. eauto 10.
  - apply (H1 None None None (Some "out.png") "out.png" Examples.log1).
    vm_compute. reflexivity.
Defined.

(** ** modules/image_loader.py *)

Section RoundingError.
Context (fl : Q -> Q) (Hfl : binary64 fl).

Lemma fl_nonneg (x : Q) : (0 <= x -> 0 <= fl x)%Q.
Proof.
  intros Hx. rewrite <- (fl_0 fl Hfl). now apply (fl_monotone fl Hfl).
Qed.

Lemma fl_upper (x : Q) :
  (0 <= x -> fl x <= x * (1 + (1 # 9007199254740992)))%Q.
Proof.
  intros Hx. pose proof (fl_error fl Hfl x) as He.
  change (2 ^ 53)%positive with 9007199254740992%positive in He.
  rewrite (Qabs_pos x Hx) in He.
  apply Qabs_Qle_condition in He. lra.
Qed.

Lemma trunc_below_one (v : Q) : (0 <= v)%Q -> (v < 1)%Q -> trunc v = 0.
Proof.
  intros H0 H1. unfold trunc.
  apply Qle_bool_iff in H0 as Hb. rewrite Hb.
  pose proof (Qfloor_resp_le _ _ H0) as Hlo. change (Qfloor 0) with 0 in Hlo.
  pose proof (Qfloor_le v) as Hle.
  assert (Hlt : (inject_Z (Qfloor v) < inject_Z 1)%Q)
    by (change (inject_Z 1) with 1%Q; lra).
  rewrite <- Zlt_Qlt in Hlt. lia.
Qed.

Lemma trunc_le (v : Q) (M : Z) :
  (0 <= v)%Q -> (v < inject_Z M + 1)%Q -> 0 <= trunc v <= M.
Proof.
  intros H0 H1. unfold trunc.
  apply Qle_bool_iff in H0 as Hb. rewrite Hb.
  pose proof (Qfloor_resp_le _ _ H0) as Hlo. change (Qfloor 0) with 0 in Hlo.
  pose proof (Qfloor_le v) as Hle.
  assert (Hlt : (inject_Z (Qfloor v) < inject_Z (M + 1))%Q).
  { rewrite inject_Z_plus. change (inject_Z 1) with 1%Q. lra. }
  rewrite <- Zlt_Qlt in Hlt. lia.
Qed.

(** [int(w * (M / D))] in floats, for a side [w] no longer than the larger
    side [D] and a limit [M < D]: the scaled side fits the limit. *)
Lemma scaled_side_le (M D w : Z) :
  1 <= M <= 2 ^ 50 -> M < D -> 0 <= w <= D ->
  0 <= trunc (fl (inject_Z w * fl (inject_Z M / inject_Z D))) <= M.
Proof.
  intros HM HD Hw.
  set (e := (1 # 9007199254740992)%Q).
  set (q := (inject_Z M / inject_Z D)%Q).
  assert (HDpos : (0 < inject_Z D)%Q).
  { change 0%Q with (inject_Z 0). rewrite <- Zlt_Qlt. lia. }
  assert (HMpos : (1 <= inject_Z M)%Q).
  { change 1%Q with (inject_Z 1). rewrite <- Zle_Qle. lia. }
  assert (HMhi : (inject_Z M <= inject_Z (2 ^ 50))%Q) by (rewrite <- Zle_Qle; lia).
  assert (Hw0 : (0 <= inject_Z w)%Q).
  { change 0%Q with (inject_Z 0). rewrite <- Zle_Qle. lia. }
  assert (HwD : (inject_Z w <= inject_Z D)%Q) by (rewrite <- Zle_Qle; lia).
  assert (HqD : (q * inject_Z D == inject_Z M)%Q).
  { subst q. field. lra. }
  assert (Hq0 : (0 <= q)%Q).
  { subst q. apply Qle_shift_div_l; [assumption|lra]. }
  assert (Hs0 : (0 <= fl q)%Q) by now apply fl_nonneg.
  assert (Hs1 : (fl q <= q * (1 + e))%Q) by now apply fl_upper.
  assert (Hx0 : (0 <= inject_Z w * fl q)%Q) by nra.
  assert (Hwq : (inject_Z w * q <= inject_Z M)%Q) by nra.
  assert (Hx1 : (inject_Z w * fl q <= inject_Z M * (1 + e))%Q).
  { assert (inject_Z w * fl q <= inject_Z w * (q * (1 + e)))%Q by nra.
    assert (inject_Z w * (q * (1 + e)) == (inject_Z w * q) * (1 + e))%Q by ring.
    subst e. nra. }
  assert (Hv0 : (0 <= fl (inject_Z w * fl q))%Q) by now apply fl_nonneg.
  assert (Hv1 : (fl (inject_Z w * fl q) <= inject_Z w * fl q * (1 + e))%Q)
    by now apply fl_upper.
  apply trunc_le; [assumption|].
  change (inject_Z (2 ^ 50)) with (1125899906842624 # 1)%Q in HMhi.
  subst e. nra.
Qed.

End RoundingError.

Module ImageLoader_facts.
Import ImageLoader.

Lemma strip_size : size Examples.strip = (3000%nat, 1%nat).
Proof.
  unfold size, Examples.strip, width, height.
  now rewrite repeat_length.
Qed.

(** A 3000 x 1 strip under the default limit of 2048: the scaled height
    truncates to 0 and the resize is refused. *)
Lemma strip_resize_raises (E : externals) :
  binary64 (fl E) ->
  _resize_if_needed E {| max_dimension := None |} Examples.strip
  = Raise ValueError.
Proof.
  intros Hfl. unfold _resize_if_needed. rewrite strip_size.
  unfold max_dimension_. cbn [get max_dimension].
  change (2048 <? Z.of_nat (Nat.max 3000 1)) with true. cbv iota.
  change (Z.of_nat (Nat.max 3000 1)) with 3000.
  change (Z.of_nat 1) with 1. change (Z.of_nat 3000) with 3000.
  set (scale := fl E (inject_Z 2048 / inject_Z 3000)).
  assert (Hq : (0 <= inject_Z 2048 / inject_Z 3000)%Q) by now vm_compute.
  assert (Hs0 : (0 <= scale)%Q) by now apply fl_nonneg.
  assert (Hs1 : (scale <= (2048 # 3000) * (1 + (1 # 9007199254740992)))%Q).
  { subst scale. eapply Qle_trans; [now apply fl_upper|].
    apply Qle_lteq. right. reflexivity. }
  assert (Hv0 : (0 <= fl E (inject_Z 1 * scale))%Q).
  { apply fl_nonneg; [assumption|]. change (inject_Z 1) with 1%Q. lra. }
  assert (Hv1 : (fl E (inject_Z 1 * scale) < 1)%Q).
  { eapply Qle_lt_trans.
    - apply fl_upper; [assumption|]. change (inject_Z 1) with 1%Q. lra.
    - change (inject_Z 1) with 1%Q. lra. }
  rewrite (trunc_below_one _ Hv0 Hv1).
  unfold PIL.resize. unfold height, Examples.strip. cbn [length].
  change (Z.of_nat 1 =? 0) with false. rewrite andb_false_r.
  change (0 <? 1) with true. now rewrite orb_true_r.
Qed.

(** Away from an empty target, [_resize_if_needed] does what it is for:
    an image within the limit is returned as it is, a larger one is
    resampled to sides that both fit the limit. *)
Lemma resize_if_needed_spec (E : externals) (cfg : image_config)
    (image : rgb) (w h : nat) :
  kernels_ok E -> binary64 (fl E) ->
  has_size w h image -> (0 < w)%nat -> (0 < h)%nat ->
  1 <= max_dimension_ cfg <= 2 ^ 50 ->
  let M := max_dimension_ cfg in
  let D := Z.of_nat (Nat.max w h) in
  (D <= M -> _resize_if_needed E cfg image = Ok image)
  /\ (M < D ->
      let scale := fl E (inject_Z M / inject_Z D) in
      let new_width := trunc (fl E (inject_Z (Z.of_nat w) * scale)) in
      let new_height := trunc (fl E (inject_Z (Z.of_nat h) * scale)) in
      0 <= new_width <= M /\ 0 <= new_height <= M
      /\ (1 <= new_width -> 1 <= new_height ->
          exists out,
            _resize_if_needed E cfg image = Ok out
            /\ has_size (Z.to_nat new_width) (Z.to_nat new_height) out)
      /\ (new_width < 1 \/ new_height < 1 ->
          _resize_if_needed E cfg image = Raise ValueError)).
Proof.
  intros HE Hfl Hsize Hw Hh HM M D.
  unfold _resize_if_needed. rewrite (has_size_size w h image Hsize Hh).
  fold M. fold D. split.
  - intros HD. destruct (Z.ltb_spec M D); [lia|reflexivity].
  - intros HD. cbv zeta. destruct (Z.ltb_spec M D); [|lia].
    assert (Hnw := scaled_side_le (fl E) Hfl M D (Z.of_nat w) HM HD ltac:(lia)).
    assert (Hnh := scaled_side_le (fl E) Hfl M D (Z.of_nat h) HM HD ltac:(lia)).
    set (nw := trunc (fl E (inject_Z (Z.of_nat w) * fl E (inject_Z M / inject_Z D)))) in *.
    set (nh := trunc (fl E (inject_Z (Z.of_nat h) * fl E (inject_Z M / inject_Z D)))) in *.
    split; [assumption|]. split; [assumption|].
    unfold PIL.resize.
    rewrite (has_size_width w h image Hsize Hh).
    unfold height. destruct Hsize as [Hlen Hrows]. rewrite Hlen.
    split.
    + intros H1 H2.
      destruct ((Z.of_nat w =? nw) && (Z.of_nat h =? nh)) eqn:Hsame.
      * exists image. split; [reflexivity|].
        apply andb_true_iff in Hsame. destruct Hsame as [Ha Hb].
        apply Z.eqb_eq in Ha, Hb. rewrite <- Ha, <- Hb, !Nat2Z.id. now split.
      * destruct (Z.ltb_spec nw 1); [lia|]. destruct (Z.ltb_spec nh 1); [lia|].
        simpl. eexists. split; [reflexivity|].
        apply (LANCZOS_rgb_size E HE); lia.
    + intros Hsmall.
      destruct ((Z.of_nat w =? nw) && (Z.of_nat h =? nh)) eqn:Hsame.
      * apply andb_true_iff in Hsame. destruct Hsame as [Ha Hb].
        apply Z.eqb_eq in Ha, Hb. lia.
      * destruct (Z.ltb_spec nw 1); [reflexivity|].
        destruct (Z.ltb_spec nh 1); [reflexivity|lia].
Qed.

(** An RGBA picture is flattened onto white through its alpha band. *)
Lemma flatten_on_white (im : rgba) (w h : nat) :
  has_size w h im -> (0 < h)%nat ->
  exists flat,
    PIL.paste (PIL.new (size im) (255, 255, 255)) (PIL.colour im) (PIL.alpha im)
    = Ok flat
    /\ has_size w h flat
    /\ forall r c red green blue a,
         lookup im r c = Some (red, green, blue, a) ->
         lookup flat r c
         = Some (PIL.blend_px a (255, 255, 255) (red, green, blue)).
Proof.
  intros Him Hh.
  destruct (composite_facts.paste_ok (PIL.new (size im) (255, 255, 255))
              (PIL.colour im) (PIL.alpha im)) as [flat Hp].
  { rewrite (has_size_size w h (PIL.colour im)), (has_size_size w h (PIL.alpha im));
      auto; now apply composite_facts.has_size_map_map. }
  exists flat. split; [assumption|]. split.
  - eapply composite_facts.paste_has_size; [|exact Hp].
    rewrite (has_size_size w h im Him Hh). apply composite_facts.new_has_size.
  - intros r c red green blue a Hpx.
    destruct (lookup_inside w h im r c _ Him Hpx) as [Hr Hc].
    rewrite (composite_facts.paste_lookup _ _ _ _ r c Hp).
    rewrite (has_size_size w h im Him Hh), (lookup_new w h r c _ Hr Hc).
    unfold PIL.colour, PIL.alpha. rewrite !lookup_map_map, Hpx. reflexivity.
Qed.

End ImageLoader_facts.

(** C7, where the code departs from it.  An existing, decodable RGB picture
    of 3000 x 1 pixels under the default [max_dimension] of 2048:
    [_resize_if_needed] computes the target height [int(1 * 2048 / 3000)],
    which is 0, the imaging library refuses an empty target, and
    [load_image] raises instead of returning a scaled image. *)
Theorem load_image_strip_raises (E : externals) (FS : ImageLoader.filesystem)
    (path : string) :
  binary64 (fl E) ->
  ImageLoader.path_exists FS path = true ->
  ImageLoader.Image_open FS path = Ok (ImageLoader.ImRGB Examples.strip) ->
  ImageLoader.load_image E FS {| ImageLoader.max_dimension := None |} path
  = Raise ValueError.
Proof.
  intros Hfl Hex Hopen. unfold ImageLoader.load_image.
  rewrite Hex, Hopen. cbn [negb bind].
  now apply ImageLoader_facts.strip_resize_raises.
Qed.

Lemma load_image_strip_raises_witness :
  ImageLoader.load_image Examples.E0 Examples.FS_strip
    {| ImageLoader.max_dimension := None |} "strip.png"
  = Raise ValueError.
Proof.
  apply (load_image_strip_raises Examples.E0 Examples.FS_strip "strip.png").
  - exact Examples_facts.exact_binary64.
  - reflexivity.
  - reflexivity.
Defined.

(** * Further properties of the modules *)

(** ** modules/mask_processor.py: dilation, protection, thresholds *)

Module dilation_facts.
Import ndimage.

Lemma window_contains (size : Z) (i j : nat) :
  0 <= Z.of_nat j - Z.of_nat i + size / 2 < size ->
  In (Z.of_nat j) (window size i).
Proof.
  intros H. unfold window. apply in_map_iff.
  exists (Z.to_nat (Z.of_nat j - Z.of_nat i + size / 2)). split.
  - rewrite Z2Nat.id; lia.
  - apply in_seq. split; [lia|]. simpl. apply Z2Nat.inj_lt; lia.
Qed.

Lemma half_window (p : Z) : 0 <= p -> (p * 2 + 1) / 2 = p.
Proof.
  intros Hp. symmetry. apply (Z.div_unique (p * 2 + 1) 2 p 1); lia.
Qed.

Lemma row_length_axis0 ext size a r :
  length (nth r (max_axis0 ext size a) []) = length (nth r a []).
Proof.
  pose proof (ndimage_facts.row_lengths_axis0 ext size a) as H.
  apply (f_equal (fun l => nth r l 0%nat)) in H.
  change 0%nat with (length (@nil Z)) in H. now rewrite !map_nth in H.
Qed.

Lemma row_length_axis1 ext size a r :
  length (nth r (max_axis1 ext size a) []) = length (nth r a []).
Proof.
  pose proof (ndimage_facts.row_lengths_axis1 ext size a) as H.
  apply (f_equal (fun l => nth r l 0%nat)) in H.
  change 0%nat with (length (@nil Z)) in H. now rewrite !map_nth in H.
Qed.

Lemma pixel_axis0 ext size a r c :
  (r < length a)%nat -> (c < length (nth r a []))%nat ->
  pixel (max_axis0 ext size a) r c
  = maximum (map (fun j => pixel a (ext (length a) j) c) (window size r)).
Proof.
  intros Hr Hc. unfold pixel at 1, max_axis0.
  rewrite (nth_imap _ _ _ _ []) by assumption.
  now rewrite (nth_imap _ _ _ _ 0) by assumption.
Qed.

Lemma pixel_axis1 ext size a r c :
  (r < length a)%nat -> (c < length (nth r a []))%nat ->
  pixel (max_axis1 ext size a) r c
  = maximum (map (fun j => pixel a r (ext (length (nth r a [])) j)) (window size c)).
Proof.
  intros Hr Hc. unfold pixel at 1, max_axis1.
  rewrite (nth_imap _ _ _ _ []) by assumption.
  now rewrite (nth_imap _ _ _ _ 0) by assumption.
Qed.

Lemma axis0_reach ext p a r r' c :
  inside_fixed ext -> 0 <= p ->
  (r < length a)%nat -> (r' < length a)%nat -> (c < length (nth r' a []))%nat ->
  Z.abs (Z.of_nat r - Z.of_nat r') <= p ->
  pixel a r c <= pixel (max_axis0 ext (p * 2 + 1) a) r' c.
Proof.
  intros Hext Hp Hr Hr' Hc Hd. rewrite pixel_axis0 by assumption.
  apply ndimage_facts.maximum_ge, in_map_iff. exists (Z.of_nat r). split.
  - now rewrite Hext.
  - apply window_contains. rewrite half_window by assumption. lia.
Qed.

Lemma axis1_reach ext p a r c c' :
  inside_fixed ext -> 0 <= p ->
  (r < length a)%nat ->
  (c < length (nth r a []))%nat -> (c' < length (nth r a []))%nat ->
  Z.abs (Z.of_nat c - Z.of_nat c') <= p ->
  pixel a r c <= pixel (max_axis1 ext (p * 2 + 1) a) r c'.
Proof.
  intros Hext Hp Hr Hc Hc' Hd. rewrite pixel_axis1 by assumption.
  apply ndimage_facts.maximum_ge, in_map_iff. exists (Z.of_nat c). split.
  - now rewrite Hext.
  - apply window_contains. rewrite half_window by assumption. lia.
Qed.

Lemma maximum_range (l : list Z) (lo hi : Z) :
  lo <= 0 <= hi -> Forall (fun v => lo <= v <= hi) l -> lo <= maximum l <= hi.
Proof.
  intros H0 Hl. destruct l as [|x xs]; simpl; [assumption|].
  inversion Hl as [|? ? Hx Hxs]; subst. clear Hl.
  revert x Hx. induction Hxs as [|y ys Hy Hys IH]; intros x Hx; simpl; [assumption|].
  apply IH. lia.
Qed.

Lemma maximum_map_le {A : Type} (f g : A -> Z) (l : list A) :
  (forall x, In x l -> f x <= g x) -> maximum (map f l) <= maximum (map g l).
Proof.
  intros H. destruct l as [|x xs]; simpl; [lia|].
  assert (Hx : f x <= g x) by (apply H; now left).
  assert (Hxs : forall y, In y xs -> f y <= g y) by (intros; apply H; now right).
  clear H. revert Hx. generalize (f x) (g x).
  induction xs as [|y ys IH]; intros u v Huv; simpl; [assumption|].
  apply IH.
  - intros z Hz. apply Hxs. now right.
  - assert (f y <= g y) by (apply Hxs; now left). lia.
Qed.

Lemma pixel_uint8 (a : gray) (r c : nat) :
  uint8_gray a -> 0 <= pixel a r c <= 255.
Proof.
  intros Ha. unfold pixel.
  apply (nth_Forall_Forall (fun v => 0 <= v <= 255)); [assumption|lia].
Qed.

Lemma raster_Forall_lookup {P : Type} (Q : P -> Prop) (im : raster P) :
  (forall r c p, lookup im r c = Some p -> Q p) -> Forall (Forall Q) im.
Proof.
  intros H. apply Forall_forall. intros row Hrow.
  apply In_nth_error in Hrow. destruct Hrow as [r Hr].
  apply Forall_forall. intros p Hp.
  apply In_nth_error in Hp. destruct Hp as [c Hc].
  apply (H r c). unfold lookup. now rewrite Hr.
Qed.

Lemma axis0_uint8 ext size a : uint8_gray a -> uint8_gray (max_axis0 ext size a).
Proof.
  intros Ha. apply raster_Forall_lookup. intros r c p Hp.
  unfold max_axis0 in Hp. rewrite lookup_imap2 in Hp.
  destruct (lookup a r c); [|discriminate]. injection Hp as <-.
  apply maximum_range; [lia|]. apply Forall_map, Forall_forall.
  intros j _. now apply pixel_uint8.
Qed.

Lemma axis1_uint8 ext size a : uint8_gray a -> uint8_gray (max_axis1 ext size a).
Proof.
  intros Ha. apply raster_Forall_lookup. intros r c p Hp.
  unfold max_axis1, lookup in Hp. rewrite nth_error_imap in Hp.
  destruct (nth_error a r) as [row|]; [|discriminate]. simpl in Hp.
  rewrite nth_error_imap in Hp.
  destruct (nth_error row c); [|discriminate]. injection Hp as <-.
  apply maximum_range; [lia|]. apply Forall_map, Forall_forall.
  intros j _. now apply pixel_uint8.
Qed.

Lemma has_size_shape {P Q : Type} (w h : nat) (a : raster P) (b : raster Q) :
  map (@length Q) b = map (@length P) a -> has_size w h a -> has_size w h b.
Proof.
  intros Hshape [Hh Hw]. split.
  - apply (f_equal (@length nat)) in Hshape. rewrite !length_map in Hshape. lia.
  - apply Forall_forall. intros row Hrow.
    assert (Hin : In (length row) (map (@length P) a))
      by (rewrite <- Hshape; now apply in_map).
    apply in_map_iff in Hin. destruct Hin as (row' & Heq & Hin').
    rewrite Forall_forall in Hw. rewrite <- Heq. now apply Hw.
Qed.

End dilation_facts.

Lemma expand_mask_as_filters (E : externals) (mask : gray) (pixels : Z) :
  0 < pixels ->
  exists ext,
    ndimage.inside_fixed ext
    /\ _expand_mask E mask pixels
       = ndimage.max_axis1 ext (pixels * 2 + 1)
           (ndimage.max_axis0 ext (pixels * 2 + 1) mask).
Proof.
  intros Hp. unfold _expand_mask.
  destruct (Z.leb_spec pixels 0); [lia|].
  destruct (scipy_available E).
  - exists ndimage.reflect. split; [apply ndimage_facts.reflect_inside|].
    unfold ndimage.maximum_filter.
    destruct (Z.ltb_spec 1 (pixels * 2 + 1)); [reflexivity|lia].
  - exists ndimage.replicate. split; [apply ndimage_facts.replicate_inside|].
    reflexivity.
Qed.

Lemma expand_mask_reach (E : externals) (mask : gray) (pixels : Z)
    (w h r c r' c' : nat) :
  has_size w h mask -> 0 < pixels ->
  (r < h)%nat -> (c < w)%nat -> (r' < h)%nat -> (c' < w)%nat ->
  Z.abs (Z.of_nat r - Z.of_nat r') <= pixels ->
  Z.abs (Z.of_nat c - Z.of_nat c') <= pixels ->
  pixel mask r c <= pixel (_expand_mask E mask pixels) r' c'.
Proof.
  intros Hsize Hp Hr Hc Hr' Hc' Hdr Hdc.
  destruct (expand_mask_as_filters E mask pixels Hp) as (ext & Hext & ->).
  pose proof Hsize as [Hlen _]. subst h.
  pose proof (has_size_row w _ mask r' Hsize Hr') as Hrow'.
  transitivity (pixel (ndimage.max_axis0 ext (pixels * 2 + 1) mask) r' c).
  - apply dilation_facts.axis0_reach; try assumption; lia.
  - apply dilation_facts.axis1_reach; try assumption; try lia.
    + unfold ndimage.max_axis0. now rewrite length_imap.
    + rewrite dilation_facts.row_length_axis0. lia.
    + rewrite dilation_facts.row_length_axis0. lia.
Qed.

(** X1. Dilation really expands by [pixels]: in a rectangular mask, every
    position within [pixels] rows and [pixels] columns of a sample carries at
    least that sample's value after [_expand_mask]. *)
Theorem expand_mask_reaches (E : externals) (mask : gray) (pixels : Z)
    (w h r c r' c' : nat) :
  has_size w h mask -> 0 < pixels ->
  (r < h)%nat -> (c < w)%nat -> (r' < h)%nat -> (c' < w)%nat ->
  Z.abs (Z.of_nat r - Z.of_nat r') <= pixels ->
  Z.abs (Z.of_nat c - Z.of_nat c') <= pixels ->
  pixel mask r c <= pixel (_expand_mask E mask pixels) r' c'.
Proof. apply expand_mask_reach. Qed.

Lemma expand_mask_reaches_witness :
  pixel Examples.dot 1 1 <= pixel (_expand_mask Examples.E0 Examples.dot 1) 0 2.
Proof.
  apply (expand_mask_reaches Examples.E0 Examples.dot 1 3 3 1 1 0 2);
    try (simpl; lia).
  split; [reflexivity|repeat constructor].
Defined.

Module monotone_facts.
Import ndimage.

Lemma same_shape_rows (a b : gray) (r : nat) :
  map (@length Z) a = map (@length Z) b ->
  length a = length b /\ length (nth r a []) = length (nth r b []).
Proof.
  intros H. split.
  - apply (f_equal (@length nat)) in H. now rewrite !length_map in H.
  - apply (f_equal (fun l => nth r l 0%nat)) in H.
    change 0%nat with (length (@nil Z)) in H. now rewrite !map_nth in H.
Qed.

Lemma axis0_monotone ext size (a b : gray) :
  map (@length Z) a = map (@length Z) b ->
  (forall r c, pixel a r c <= pixel b r c) ->
  forall r c, pixel (max_axis0 ext size a) r c <= pixel (max_axis0 ext size b) r c.
Proof.
  intros Hshape Hle r c.
  destruct (same_shape_rows a b r Hshape) as [Hlen Hrow].
  destruct (Nat.lt_ge_cases r (length a)) as [Hr|Hr].
  2:{ rewrite !pixel_outside_row; [lia| |]; unfold max_axis0;
        rewrite length_imap; lia. }
  destruct (Nat.lt_ge_cases c (length (nth r a []))) as [Hc|Hc].
  2:{ rewrite !pixel_outside_col; [lia| |];
        rewrite dilation_facts.row_length_axis0; lia. }
  rewrite !dilation_facts.pixel_axis0 by lia. rewrite Hlen.
  apply dilation_facts.maximum_map_le. intros j _. apply Hle.
Qed.

Lemma axis1_monotone ext size (a b : gray) :
  map (@length Z) a = map (@length Z) b ->
  (forall r c, pixel a r c <= pixel b r c) ->
  forall r c, pixel (max_axis1 ext size a) r c <= pixel (max_axis1 ext size b) r c.
Proof.
  intros Hshape Hle r c.
  destruct (same_shape_rows a b r Hshape) as [Hlen Hrow].
  destruct (Nat.lt_ge_cases r (length a)) as [Hr|Hr].
  2:{ rewrite !pixel_outside_row; [lia| |]; unfold max_axis1;
        rewrite length_imap; lia. }
  destruct (Nat.lt_ge_cases c (length (nth r a []))) as [Hc|Hc].
  2:{ rewrite !pixel_outside_col; [lia| |];
        rewrite dilation_facts.row_length_axis1; lia. }
  rewrite !dilation_facts.pixel_axis1 by lia. rewrite Hrow.
  apply dilation_facts.maximum_map_le. intros j _. apply Hle.
Qed.

End monotone_facts.

(** X2. Dilation is monotone: of two masks of the same shape, the one that is
    nowhere brighter stays nowhere brighter after [_expand_mask] by the same
    amount. *)
Theorem expand_mask_monotone (E : externals) (m1 m2 : gray) (pixels : Z) :
  map (@length Z) m1 = map (@length Z) m2 ->
  (forall r c, pixel m1 r c <= pixel m2 r c) ->
  forall r c,
    pixel (_expand_mask E m1 pixels) r c <= pixel (_expand_mask E m2 pixels) r c.
Proof.
  intros Hshape Hle r c. unfold _expand_mask.
  destruct (pixels <=? 0); [apply Hle|].
  unfold ndimage.maximum_filter, ndimage.MaxFilter.
  destruct (scipy_available E); [destruct (1 <? pixels * 2 + 1); [|apply Hle]|].
  - apply monotone_facts.axis1_monotone.
    + now rewrite !ndimage_facts.row_lengths_axis0.
    + now apply monotone_facts.axis0_monotone.
  - apply monotone_facts.axis1_monotone.
    + now rewrite !ndimage_facts.row_lengths_axis0.
    + now apply monotone_facts.axis0_monotone.
Qed.

Lemma expand_mask_monotone_witness :
  pixel (_expand_mask Examples.E0 [[0; 0; 0]; [0; 100; 0]; [0; 0; 0]] 1) 0 0
  <= pixel (_expand_mask Examples.E0 Examples.dot 1) 0 0.
Proof.
  apply (expand_mask_monotone Examples.E0
           [[0; 0; 0]; [0; 100; 0]; [0; 0; 0]] Examples.dot 1).
  - reflexivity.
  - intros r c. unfold pixel, Examples.dot.
    destruct r as [|[|[|r]]]; destruct c as [|[|[|c]]]; simpl; try lia;
      destruct c; simpl; lia.
Defined.

Lemma expand_mask_extensive_shape_aux (E : externals) (mask : gray) (pixels : Z) :
  (pixels <= 0 -> _expand_mask E mask pixels = mask)
  /\ (0 < pixels ->
      map (@length Z) (_expand_mask E mask pixels) = map (@length Z) mask).
Proof.
  split; intros Hp.
  - unfold _expand_mask. destruct (Z.leb_spec pixels 0); [reflexivity|lia].
  - destruct (expand_mask_as_filters E mask pixels Hp) as (ext & _ & ->).
    now rewrite ndimage_facts.row_lengths_axis1, ndimage_facts.row_lengths_axis0.
Qed.

Lemma invert_uint8 (m : gray) : uint8_gray m -> uint8_gray (invert m).
Proof.
  intros Hm. unfold invert. apply Forall_map.
  eapply Forall_impl; [|exact Hm]. intros row Hrow. cbv beta.
  apply Forall_map. eapply Forall_impl; [|exact Hrow]. intros v Hv. cbv beta in *. lia.
Qed.

Lemma expand_mask_keeps (E : externals) (mask : gray) (pixels : Z) (w h : nat) :
  has_size w h mask -> uint8_gray mask ->
  has_size w h (_expand_mask E mask pixels)
  /\ uint8_gray (_expand_mask E mask pixels).
Proof.
  intros Hsize Hu8. split.
  - apply (dilation_facts.has_size_shape w h mask); [|assumption].
    destruct (Z.leb_spec pixels 0) as [Hp|Hp].
    + now rewrite (proj1 (expand_mask_extensive_shape_aux E mask pixels) Hp).
    + exact (proj2 (expand_mask_extensive_shape_aux E mask pixels) Hp).
  - unfold _expand_mask. destruct (pixels <=? 0); [assumption|].
    unfold ndimage.maximum_filter, ndimage.MaxFilter.
    destruct (scipy_available E); [destruct (1 <? pixels * 2 + 1); [|assumption]|];
      now apply dilation_facts.axis1_uint8, dilation_facts.axis0_uint8.
Qed.

(** X3. [process_mask] keeps a mask a mask: for every operation the result
    has the size of the input and samples in 0..255, and an operation other
    than 'for_inpainting' and 'for_compositing' returns the input as it
    is. *)
Theorem process_mask_keeps_mask (E : externals) (cfg : mask_config)
    (mask : gray) (operation : string) (w h : nat) :
  kernels_ok E -> has_size w h mask -> uint8_gray mask ->
  has_size w h (process_mask E cfg mask operation)
  /\ uint8_gray (process_mask E cfg mask operation)
  /\ (operation <> "for_inpainting" -> operation <> "for_compositing" ->
      process_mask E cfg mask operation = mask).
Proof.
  intros HE Hsize Hu8. unfold process_mask.
  destruct (String.eqb_spec operation "for_inpainting") as [->|Hne1].
  - unfold _prepare_inpainting_mask, _feather_edges. cbv zeta.
    destruct (expand_mask_keeps E mask (get (expand_mask cfg) 10) w h Hsize Hu8)
      as [Hs He].
    split; [|split; [|congruence]].
    + apply composite_facts.has_size_map_map.
      destruct (get (feather_pixels cfg) 3 <=? 0); [assumption|].
      now apply (GaussianBlur_size E HE).
    + apply invert_uint8.
      destruct (get (feather_pixels cfg) 3 <=? 0); [assumption|].
      now apply (GaussianBlur_uint8 E HE).
  - destruct (String.eqb_spec operation "for_compositing") as [->|Hne2].
    + unfold _prepare_compositing_mask. cbv zeta.
      split; [now apply (GaussianBlur_size E HE)|].
      split; [now apply (GaussianBlur_uint8 E HE)|congruence].
    + split; [assumption|]. split; [assumption|reflexivity].
Qed.

Lemma process_mask_keeps_mask_witness :
  has_size 3 3 (process_mask Examples.E0 Examples.defaults Examples.dot "for_inpainting")
  /\ process_mask Examples.E0 Examples.defaults Examples.dot "for_outpainting"
     = Examples.dot.
Proof.
  assert (Hs : has_size 3 3 Examples.dot) by (split; [reflexivity|repeat constructor]).
  assert (Hu : uint8_gray Examples.dot) by (repeat constructor; lia).
  split.
  - apply (process_mask_keeps_mask Examples.E0 Examples.defaults Examples.dot
             "for_inpainting" 3 3 Examples_facts.E0_kernels_ok Hs Hu).
  - apply (process_mask_keeps_mask Examples.E0 Examples.defaults Examples.dot
             "for_outpainting" 3 3 Examples_facts.E0_kernels_ok Hs Hu);
      discriminate.
Defined.

Lemma pixel_invert_inside (m : gray) (r c : nat) :
  (r < length m)%nat -> (c < length (nth r m []))%nat ->
  pixel (invert m) r c = 255 - pixel m r c.
Proof.
  intros Hr Hc.
  pose proof (pixel_invert m r c) as H.
  rewrite (nth_lookup m r c 0 Hr Hc) in H. simpl in H.
  destruct (lookup_nth (invert m) r c _ 0 H) as (_ & _ & Hn). exact Hn.
Qed.

(** X4. With feathering off, the inpainting mask protects the product with a
    margin: around every fully opaque sample (255) of a rectangular 8-bit
    mask, every position within [expand_mask] rows and columns is 0 (keep) in
    [process_mask(mask, 'for_inpainting')]. *)
Theorem inpainting_mask_protects_product (E : externals) (cfg : mask_config)
    (mask : gray) (w h r c r' c' : nat) :
  has_size w h mask -> uint8_gray mask ->
  get (feather_pixels cfg) 3 <= 0 -> 0 < get (expand_mask cfg) 10 ->
  (r < h)%nat -> (c < w)%nat -> (r' < h)%nat -> (c' < w)%nat ->
  Z.abs (Z.of_nat r - Z.of_nat r') <= get (expand_mask cfg) 10 ->
  Z.abs (Z.of_nat c - Z.of_nat c') <= get (expand_mask cfg) 10 ->
  pixel mask r c = 255 ->
  pixel (process_mask E cfg mask "for_inpainting") r' c' = 0.
Proof.
  intros Hsize Hu8 Hf Hp Hr Hc Hr' Hc' Hdr Hdc Hpx.
  unfold process_mask. simpl String.eqb. cbv iota.
  unfold _prepare_inpainting_mask, _feather_edges. cbv zeta.
  destruct (Z.leb_spec (get (feather_pixels cfg) 3) 0); [|lia].
  destruct (expand_mask_keeps E mask (get (expand_mask cfg) 10) w h Hsize Hu8)
    as [Hs He].
  pose proof Hs as [Hlen _].
  rewrite pixel_invert_inside.
  - pose proof (expand_mask_reach E mask (get (expand_mask cfg) 10)
                  w h r c r' c' Hsize Hp Hr Hc Hr' Hc' Hdr Hdc) as Hreach.
    pose proof (dilation_facts.pixel_uint8
                  (_expand_mask E mask (get (expand_mask cfg) 10)) r' c' He).
    lia.
  - lia.
  - rewrite (has_size_row w h _ r' Hs); lia.
Qed.

Lemma inpainting_mask_protects_product_witness :
  pixel (process_mask Examples.E0 Examples.sharp Examples.bright "for_inpainting") 0 2
  = 0.
Proof.
  apply (inpainting_mask_protects_product Examples.E0 Examples.sharp
           Examples.bright 3 3 1 1 0 2); try (simpl; lia).
  - split; [reflexivity|repeat constructor].
  - repeat constructor; lia.
  - reflexivity.
Defined.

(** X5. Thresholding is idempotent: a mask that went through [refine_mask]
    is left as it is by a second [refine_mask] at any threshold in
    [0, 255). *)
Theorem refine_mask_idempotent (mask : gray) (t t' : Z) :
  0 <= t' < 255 ->
  refine_mask (refine_mask mask t) t' = refine_mask mask t.
Proof.
  intros Ht. unfold refine_mask. rewrite map_map. apply map_ext. intros row.
  rewrite map_map. apply map_ext. intros v.
  destruct (t <? v); simpl.
  - destruct (Z.ltb_spec t' 255); [reflexivity|lia].
  - destruct (Z.ltb_spec t' 0); [lia|reflexivity].
Qed.

Lemma refine_mask_idempotent_witness :
  refine_mask (refine_mask Examples.dot 128) 10 = refine_mask Examples.dot 128.
Proof. apply refine_mask_idempotent. lia. Defined.

(** X6. [create_inverted_mask] is its own inverse and keeps samples in
    0..255; inverting the inpainting mask built without feathering gives
    back the dilated mask. *)
Theorem create_inverted_mask_involutive (E : externals) (cfg : mask_config)
    (mask : gray) :
  ForegroundExtractor.create_inverted_mask
    (ForegroundExtractor.create_inverted_mask mask) = mask
  /\ (uint8_gray mask ->
      uint8_gray (ForegroundExtractor.create_inverted_mask mask))
  /\ (get (feather_pixels cfg) 3 <= 0 ->
      ForegroundExtractor.create_inverted_mask
        (process_mask E cfg mask "for_inpainting")
      = _expand_mask E mask (get (expand_mask cfg) 10)).
Proof.
  assert (Hinv : forall m, invert (invert m) = m).
  { intros m. unfold invert. rewrite map_map. rewrite <- (map_id m) at 2.
    apply map_ext. intros row. rewrite map_map. rewrite <- (map_id row) at 2.
    apply map_ext. intros v. lia. }
  unfold ForegroundExtractor.create_inverted_mask. split; [apply Hinv|].
  split; [apply invert_uint8|].
  intros Hf. unfold process_mask. simpl String.eqb. cbv iota.
  unfold _prepare_inpainting_mask, _feather_edges. cbv zeta.
  destruct (Z.leb_spec (get (feather_pixels cfg) 3) 0); [|lia].
  apply Hinv.
Qed.

Lemma create_inverted_mask_involutive_witness :
  uint8_gray (ForegroundExtractor.create_inverted_mask Examples.bright)
  /\ ForegroundExtractor.create_inverted_mask
       (process_mask Examples.E0 Examples.sharp Examples.bright "for_inpainting")
     = _expand_mask Examples.E0 Examples.bright 1.
Proof.
  destruct (create_inverted_mask_involutive Examples.E0 Examples.sharp
              Examples.bright) as (_ & Hu & Hp).
  split.
  - apply Hu. repeat constructor; lia.
  - apply Hp. simpl. lia.
Defined.

(** ** modules/compositing_engine.py: what the blend shows *)

Lemma BLEND8_clear (in1 in2 : Z) : 0 <= in1 <= 255 -> PIL.BLEND8 0 in1 in2 = in1.
Proof.
  intros H. unfold PIL.BLEND8, PIL.DIV255. cbv zeta.
  rewrite !Z.shiftr_div_pow2 by lia. change (2 ^ 8) with 256.
  Z.div_mod_to_equations. lia.
Qed.

Lemma DIV255_opaque (v : Z) : 0 <= v <= 255 -> PIL.DIV255 (v * 255) = v.
Proof.
  intros H. unfold PIL.DIV255. cbv zeta.
  rewrite !Z.shiftr_div_pow2 by lia. change (2 ^ 8) with 256.
  Z.div_mod_to_equations. lia.
Qed.

Lemma BLEND8_between (m in1 in2 : Z) :
  0 <= m <= 255 -> 0 <= in1 <= 255 -> 0 <= in2 <= 255 ->
  Z.min in1 in2 <= PIL.BLEND8 m in1 in2 <= Z.max in1 in2.
Proof.
  intros Hm H1 H2. unfold PIL.BLEND8.
  assert (Hx : 255 * Z.min in1 in2 <= in1 * (255 - m) + in2 * m
               <= 255 * Z.max in1 in2) by nia.
  pose proof (DIV255_nearest (in1 * (255 - m) + in2 * m) ltac:(nia)) as Hn.
  lia.
Qed.

(** The pixels of [composite], with both refinement and shadow on. *)
Lemma composite_pixels (E : externals) (cfg : CompositingEngine.comp_config)
    (fg : rgba) (bg : rgb) (mask : option gray) (w h wb hb : nat) :
  kernels_ok E ->
  (0 < w)%nat -> (0 < h)%nat -> has_size w h fg -> has_size wb hb bg ->
  (forall m, mask = Some m -> exists wm hm, has_size wm hm m) ->
  get (CompositingEngine.edge_refinement cfg) true = true ->
  get (CompositingEngine.shadow_generation cfg) true = true ->
  exists bg1 m1 out,
    CompositingEngine.same_size_background E fg bg = Ok bg1
    /\ CompositingEngine.mask_or_alpha E fg mask = Ok m1
    /\ CompositingEngine.composite E cfg fg bg mask = Ok out
    /\ forall r c red green blue a,
         lookup fg r c = Some (red, green, blue, a) ->
         exists m s,
           lookup (CompositingEngine._refine_edges E m1) r c = Some m
           /\ lookup (CompositingEngine._add_shadow E cfg bg1
                        (CompositingEngine._refine_edges E m1)) r c = Some s
           /\ lookup out r c
              = Some (PIL.blend_px m s
                        (PIL.DIV255 (red * a), PIL.DIV255 (green * a),
                         PIL.DIV255 (blue * a))).
Proof.
  intros HE Hw Hh Hfg Hbg Hmask Hedge Hshadow.
  destruct (composite_facts.composite_run E HE cfg fg bg mask w h wb hb)
    as (bg1 & m1 & fgp & out & Hbg1 & Hs1 & Hm1 & Hs2 & Hfgp & Hrun & Hc & Hs);
    auto.
  rewrite Hedge, Hshadow in Hrun. cbv zeta in Hrun.
  destruct Hrun as (Hsm & Hssbg & Hout).
  exists bg1, m1, out. repeat (split; [assumption|]).
  intros r c red green blue a Hpx.
  destruct (lookup_inside w h fg r c _ Hfg Hpx) as [Hr Hcw].
  destruct (has_size_lookup w h _ r c Hsm Hr Hcw) as [m Hm].
  destruct (has_size_lookup w h _ r c Hssbg Hr Hcw) as [s Hsv].
  exists m, s. repeat (split; [assumption|]).
  unfold PIL.composite in Hout.
  rewrite (composite_facts.paste_lookup _ _ _ _ r c Hout), Hsv, Hm.
  rewrite (composite_facts.paste_lookup _ _ _ _ r c Hfgp).
  rewrite (has_size_size w h fg Hfg Hh), (lookup_new w h r c _ Hr Hcw).
  unfold PIL.colour, PIL.alpha. rewrite !lookup_map_map, Hpx. reflexivity.
Qed.

(** X7. What [composite] shows at a pixel.  Where the refined mask is 255
    and the foreground is opaque, the output is the foreground colour
    exactly; where the refined mask is 0, it is the shadowed background
    pixel exactly; in between, every output channel lies between the
    shadowed background's channel and the alpha-flattened foreground's. *)
Theorem composite_shows (E : externals) (cfg : CompositingEngine.comp_config)
    (fg : rgba) (bg : rgb) (mask : option gray) (w h wb hb : nat) :
  kernels_ok E ->
  (0 < w)%nat -> (0 < h)%nat -> has_size w h fg -> has_size wb hb bg ->
  (forall m, mask = Some m -> exists wm hm, has_size wm hm m) ->
  get (CompositingEngine.edge_refinement cfg) true = true ->
  get (CompositingEngine.shadow_generation cfg) true = true ->
  exists bg1 m1 out,
    CompositingEngine.same_size_background E fg bg = Ok bg1
    /\ CompositingEngine.mask_or_alpha E fg mask = Ok m1
    /\ CompositingEngine.composite E cfg fg bg mask = Ok out
    /\ forall r c red green blue a m s,
         lookup fg r c = Some (red, green, blue, a) ->
         lookup (CompositingEngine._refine_edges E m1) r c = Some m ->
         lookup (CompositingEngine._add_shadow E cfg bg1
                   (CompositingEngine._refine_edges E m1)) r c = Some s ->
         uint8_px (red, green, blue) -> 0 <= a <= 255 ->
         uint8_px s -> 0 <= m <= 255 ->
         exists o,
           lookup out r c = Some o
           /\ (m = 255 -> a = 255 -> o = (red, green, blue))
           /\ (m = 0 -> o = s)
           /\ Forall2 (fun v ends => between v (fst ends) (snd ends))
                (channels o)
                (combine (channels s)
                   [PIL.DIV255 (red * a); PIL.DIV255 (green * a);
                    PIL.DIV255 (blue * a)]).
Proof.
  intros HE Hw Hh Hfg Hbg Hmask Hedge Hshadow.
  destruct (composite_pixels E cfg fg bg mask w h wb hb HE Hw Hh Hfg Hbg Hmask
              Hedge Hshadow) as (bg1 & m1 & out & Hbg1 & Hm1 & Hout & Hpx).
  exists bg1, m1, out. repeat (split; [assumption|]).
  intros r c red green blue a m s Hfgpx Hm Hs (Hred & Hgreen & Hblue) Ha Hsu Hmr.
  destruct (Hpx r c red green blue a Hfgpx) as (m' & s' & Hm' & Hs' & Ho).
  rewrite Hm in Hm'. injection Hm' as <-. rewrite Hs in Hs'. injection Hs' as <-.
  eexists. split; [exact Ho|].
  destruct s as [[sr sg] sb]. destruct Hsu as (Hsr & Hsg & Hsb).
  assert (Hd : forall v, 0 <= v <= 255 -> 0 <= PIL.DIV255 (v * a) <= 255).
  { intros v Hv. pose proof (DIV255_nearest (v * a) ltac:(nia)). nia. }
  split; [|split].
  - intros -> ->. unfold PIL.blend_px.
    rewrite !DIV255_opaque by assumption.
    now rewrite !BLEND8_opaque by assumption.
  - intros ->. unfold PIL.blend_px. now rewrite !BLEND8_clear by assumption.
  - unfold PIL.blend_px, between. simpl.
    repeat constructor; simpl; apply BLEND8_between; auto.
Qed.

Lemma composite_shows_witness :
  exists out,
    CompositingEngine.composite Examples.E0 Examples.comp_defaults
      Examples.pair_fg [[(10, 20, 30); (40, 50, 60)]] (Some [[255; 0]]) = Ok out
    /\ exists o, lookup out 0 0 = Some o /\ between (fst (fst o)) 10 200.
Proof.
  destruct (composite_shows Examples.E0 Examples.comp_defaults
              Examples.pair_fg [[(10, 20, 30); (40, 50, 60)]] (Some [[255; 0]])
              2 1 2 1) as (bg1 & m1 & out & Hbg1 & Hm1 & Hout & Hpx).
  - exact Examples_facts.E0_kernels_ok.
  - lia.
  - lia.
  - split; [reflexivity|repeat constructor].
  - split; [reflexivity|repeat constructor].
  - intros m Hm. injection Hm as <-. exists 2%nat, 1%nat.
    split; [reflexivity|repeat constructor].
  - reflexivity.
  - reflexivity.
  - exists out. split; [exact Hout|].
    injection Hbg1 as <-. injection Hm1 as <-.
    destruct (Hpx 0%nat 0%nat 200 100 50 255 191 (10, 20, 30))
      as (o & Ho & _ & _ & Hb); try (simpl; lia); try reflexivity.
    exists o. split; [exact Ho|].
    destruct o as [[o1 o2] o3]. simpl in Hb. inversion Hb; subst.
    simpl in *. unfold between in *. simpl. 
    replace (PIL.DIV255 51000) with 200 in * by reflexivity. assumption.
Defined.

(** ** modules/compositing_engine.py: when the shadow does nothing *)

Lemma raster_ext {P : Type} (w h : nat) (a b : raster P) :
  has_size w h a -> has_size w h b ->
  (forall r c, (r < h)%nat -> (c < w)%nat -> lookup a r c = lookup b r c) ->
  a = b.
Proof.
  intros Ha Hb Hpx. apply nth_error_ext. intros r.
  destruct (Nat.lt_ge_cases r h) as [Hr|Hr].
  - pose proof Ha as [Hla _]. pose proof Hb as [Hlb _].
    assert (Hra : (r < length a)%nat) by lia.
    assert (Hrb : (r < length b)%nat) by lia.
    rewrite (nth_error_nth' a [] Hra), (nth_error_nth' b [] Hrb). f_equal.
    apply nth_error_ext. intros c.
    specialize (Hpx r c Hr). unfold lookup in Hpx.
    rewrite (nth_error_nth' a [] Hra), (nth_error_nth' b [] Hrb) in Hpx.
    destruct (Nat.lt_ge_cases c w) as [Hc|Hc]; [now apply Hpx|].
    pose proof (has_size_row w h a r Ha Hra). pose proof (has_size_row w h b r Hb Hrb).
    rewrite !(proj2 (nth_error_None _ _)); [reflexivity| |]; lia.
  - destruct Ha as [Hla _]. destruct Hb as [Hlb _].
    rewrite !(proj2 (nth_error_None _ _)); [reflexivity| |]; lia.
Qed.

Section ShadowOff.
Context (E : externals) (HE : kernels_ok E) (Hfl : binary64 (fl E)).
Context (cfg : CompositingEngine.comp_config).

Lemma fl_compat (x y : Q) : (x == y -> fl E x == fl E y)%Q.
Proof.
  intros Hxy. apply Qle_antisym; apply (fl_monotone (fl E) Hfl);
    rewrite Hxy; apply Qle_refl.
Qed.

Lemma factor_without_opacity (s : Z) (opacity : Q) :
  (opacity == 0)%Q ->
  (fl E (1 - fl E (fl E (inject_Z s / 255) * opacity)) == 1)%Q.
Proof.
  intros Hop.
  assert (H0 : (fl E (fl E (inject_Z s / 255) * opacity) == 0)%Q).
  { rewrite <- (fl_0 (fl E) Hfl). apply fl_compat. rewrite Hop. ring. }
  rewrite <- (fl_1 (fl E) Hfl) at 2. apply fl_compat. rewrite H0. ring.
Qed.

Lemma sample_times_one (x : Z) (f : Q) :
  0 <= x <= 255 -> (f == 1)%Q ->
  CompositingEngine.astype_uint8 (fl E (inject_Z x * f)) = x.
Proof.
  intros Hx Hf.
  assert (Hv : (fl E (inject_Z x * f) == inject_Z x)%Q).
  { rewrite <- (fl_uint8 (fl E) Hfl x Hx) at 2. apply fl_compat. rewrite Hf. ring. }
  unfold CompositingEngine.astype_uint8, trunc.
  assert (Hb : Qle_bool 0 (fl E (inject_Z x * f)) = true).
  { apply Qle_bool_iff. rewrite Hv. change 0%Q with (inject_Z 0).
    rewrite <- Zle_Qle. lia. }
  rewrite Hb, Hv, Qfloor_Z. apply Z.mod_small. lia.
Qed.

Lemma add_shadow_without_opacity (bg : rgb) (mask : gray) (w h : nat) :
  (0 < h)%nat -> has_size w h bg -> has_size w h mask -> uint8_rgb bg ->
  (get (CompositingEngine.shadow_opacity cfg) (fl E (3 # 10)) == 0)%Q ->
  CompositingEngine._add_shadow E cfg bg mask = bg.
Proof.
  intros Hh Hbg Hm Hu8 Hop.
  pose proof (composite_facts.shadow_factor_has_size E HE cfg mask w h Hm) as HF.
  assert (Hone : Forall (Forall (fun f => f == 1)%Q)
                        (CompositingEngine.shadow_factor E cfg mask)).
  { unfold CompositingEngine.shadow_factor. rewrite map_map.
    apply Forall_map, Forall_forall. intros row _. rewrite map_map.
    apply Forall_map, Forall_forall. intros s _.
    now apply factor_without_opacity. }
  unfold CompositingEngine._add_shadow.
  destruct (composite_facts.darken_has_size E bg _ w h Hh Hbg HF)
    as (out & Hd & Hout).
  rewrite Hd. apply (raster_ext w h); try assumption.
  intros r c Hr Hc.
  destruct (has_size_lookup w h bg r c Hbg Hr Hc) as [q Hq]. rewrite Hq.
  destruct (lookup_nth bg r c q (0, 0, 0) Hq) as (Hrl & Hcl & Hnth).
  unfold CompositingEngine.darken in Hd.
  rewrite (has_size_width w h bg Hbg Hh), (has_size_width w h _ HF Hh) in Hd.
  unfold height in Hd. pose proof Hbg as [Hlb _]. pose proof HF as [HlF _].
  rewrite Hlb, HlF in Hd. unfold CompositingEngine.broadcast in Hd.
  rewrite !Nat.eqb_refl in Hd. injection Hd as <-.
  unfold lookup. rewrite nth_error_map, nth_error_seq_lt.
  destruct (Nat.ltb_spec r h); [|lia]. simpl.
  rewrite nth_error_map, nth_error_seq_lt.
  destruct (Nat.ltb_spec c w); [|lia]. simpl.
  rewrite (shadow_facts.at_dim_lt h r Hr), (shadow_facts.at_dim_lt w c Hc), Hnth.
  destruct q as [[x y] z].
  assert (Hpx : uint8_px (x, y, z)).
  { rewrite <- Hnth. apply (nth_Forall_Forall uint8_px); [assumption|simpl; lia]. }
  destruct Hpx as (Hx & Hy & Hz).
  set (f := nth c (nth r (CompositingEngine.shadow_factor E cfg mask) []) 0%Q).
  assert (Hf : (f == 1)%Q).
  { subst f. rewrite Forall_forall in Hone.
    assert (Hrow : Forall (fun f => f == 1)%Q
                     (nth r (CompositingEngine.shadow_factor E cfg mask) []))
      by (apply Hone, nth_In; lia).
    rewrite Forall_forall in Hrow. apply Hrow, nth_In.
    rewrite (has_size_row w h _ r HF); lia. }
  now rewrite !sample_times_one.
Qed.

Lemma add_shadow_mismatch (bg : rgb) (mask : gray) (w h w' h' : nat) :
  (0 < h)%nat -> (0 < h')%nat -> has_size w h bg -> has_size w' h' mask ->
  (h <> h' /\ h <> 1%nat /\ h' <> 1%nat) \/ (w <> w' /\ w <> 1%nat /\ w' <> 1%nat) ->
  CompositingEngine._add_shadow E cfg bg mask = bg.
Proof.
  intros Hh Hh' Hbg Hm Hmis.
  pose proof (composite_facts.shadow_factor_has_size E HE cfg mask w' h' Hm) as HF.
  unfold CompositingEngine._add_shadow, CompositingEngine.darken.
  rewrite (has_size_width w h bg Hbg Hh), (has_size_width w' h' _ HF Hh').
  unfold height. destruct Hbg as [-> _]. destruct HF as [-> _].
  unfold CompositingEngine.broadcast.
  destruct Hmis as [(H1 & H2 & H3)|(H1 & H2 & H3)].
  - destruct (Nat.eqb_spec h h'); [lia|]. destruct (Nat.eqb_spec h 1); [lia|].
    destruct (Nat.eqb_spec h' 1); [lia|reflexivity].
  - destruct (if (h =? h')%nat then Some h else _); [|reflexivity].
    destruct (Nat.eqb_spec w w'); [lia|]. destruct (Nat.eqb_spec w 1); [lia|].
    destruct (Nat.eqb_spec w' 1); [lia|reflexivity].
Qed.

End ShadowOff.

(** X8. A shadow opacity of 0 turns the shadow off: for an 8-bit background
    and a mask of the same size, [_add_shadow] returns the background
    unchanged. *)
Theorem add_shadow_opacity_zero (E : externals) (cfg : CompositingEngine.comp_config)
    (background : rgb) (mask : gray) (w h : nat) :
  kernels_ok E -> binary64 (fl E) ->
  (0 < h)%nat -> has_size w h background -> has_size w h mask ->
  uint8_rgb background ->
  (get (CompositingEngine.shadow_opacity cfg) (fl E (3 # 10)) == 0)%Q ->
  CompositingEngine._add_shadow E cfg background mask = background.
Proof. intros HE Hfl. now apply add_shadow_without_opacity. Qed.

(** X9. When the mask's shape cannot be combined with the background's
    (heights or widths differ and neither is 1), the failure inside
    [_add_shadow] is swallowed and the background comes back unchanged. *)
Theorem add_shadow_shape_mismatch (E : externals)
    (cfg : CompositingEngine.comp_config)
    (background : rgb) (mask : gray) (w h w' h' : nat) :
  kernels_ok E ->
  (0 < h)%nat -> (0 < h')%nat -> has_size w h background -> has_size w' h' mask ->
  (h <> h' /\ h <> 1%nat /\ h' <> 1%nat) \/ (w <> w' /\ w <> 1%nat /\ w' <> 1%nat) ->
  CompositingEngine._add_shadow E cfg background mask = background.
Proof. intros HE. now apply add_shadow_mismatch. Qed.

Lemma square_bg_facts :
  has_size 2 2 Examples.square_bg /\ uint8_rgb Examples.square_bg
  /\ has_size 2 2 Examples.square_mask /\ has_size 3 3 Examples.wide_mask.
Proof.
  repeat split; try reflexivity; repeat constructor; simpl; lia.
Qed.

Lemma add_shadow_opacity_zero_witness :
  CompositingEngine._add_shadow Examples.E0 Examples.no_opacity
    Examples.square_bg Examples.square_mask = Examples.square_bg.
Proof.
  destruct square_bg_facts as (Hs & Hu & Hm & _).
  apply (add_shadow_opacity_zero Examples.E0 Examples.no_opacity
           Examples.square_bg Examples.square_mask 2 2
           Examples_facts.E0_kernels_ok Examples_facts.exact_binary64);
    try assumption; [lia|reflexivity].
Defined.

Lemma add_shadow_shape_mismatch_witness :
  CompositingEngine._add_shadow Examples.E0 Examples.comp_defaults
    Examples.square_bg Examples.wide_mask = Examples.square_bg.
Proof.
  destruct square_bg_facts as (Hs & _ & _ & Hw).
  apply (add_shadow_shape_mismatch Examples.E0 Examples.comp_defaults
           Examples.square_bg Examples.wide_mask 2 2 3 3
           Examples_facts.E0_kernels_ok); try assumption; lia.
Defined.

(** ** modules/image_loader.py: what a load returns *)

Lemma scaled_side_le_side (fl : Q -> Q) (M D w : Z) :
  binary64 fl -> 0 <= M -> M < D -> 0 <= w <= 2 ^ 53 ->
  trunc (fl (inject_Z w * fl (inject_Z M / inject_Z D))%Q) <= w.
Proof.
  intros Hfl HM HD Hw.
  assert (HDpos : (0 < inject_Z D)%Q).
  { change 0%Q with (inject_Z 0). rewrite <- Zlt_Qlt. lia. }
  assert (HM0 : (0 <= inject_Z M)%Q).
  { change 0%Q with (inject_Z 0). rewrite <- Zle_Qle. lia. }
  assert (HMD : (inject_Z M <= inject_Z D)%Q) by (rewrite <- Zle_Qle; lia).
  assert (Hw0 : (0 <= inject_Z w)%Q).
  { change 0%Q with (inject_Z 0). rewrite <- Zle_Qle. lia. }
  assert (Hq : (0 <= inject_Z M / inject_Z D <= 1)%Q).
  { split; [apply Qle_shift_div_l|apply Qle_shift_div_r]; lra. }
  pose proof (fl_unit fl Hfl _ Hq) as Hs.
  assert (Hv0 : (0 <= fl (inject_Z w * fl (inject_Z M / inject_Z D)))%Q).
  { apply fl_nonneg; [assumption|nra]. }
  assert (Hv1 : (fl (inject_Z w * fl (inject_Z M / inject_Z D)) <= inject_Z w)%Q).
  { rewrite <- (fl_integer fl Hfl w) at 2 by lia.
    apply (fl_monotone fl Hfl). nra. }
  unfold trunc. apply Qle_bool_iff in Hv0 as Hb. rewrite Hb.
  pose proof (Qfloor_resp_le _ _ Hv1) as H. now rewrite Qfloor_Z in H.
Qed.

Section ScaledSides.
Context (fl : Q -> Q) (Hfl : binary64 fl).

Lemma fl_lower (x : Q) :
  (0 <= x -> x * (1 - (1 # 9007199254740992)) <= fl x)%Q.
Proof.
  intros Hx. pose proof (fl_error fl Hfl x) as He.
  change (2 ^ 53)%positive with 9007199254740992%positive in He.
  rewrite (Qabs_pos x Hx) in He.
  apply Qabs_Qle_condition in He. lra.
Qed.

(** A side at most half of [D / M] is scaled to 0. *)
Lemma scaled_side_zero (M D w : Z) :
  1 <= M -> 0 <= w -> 2 * w * M <= D ->
  trunc (fl (inject_Z w * fl (inject_Z M / inject_Z D))) = 0.
Proof.
  intros HM Hw Hsmall.
  destruct (Z.eq_dec w 0) as [->|Hw0].
  { set (x := fl (inject_Z M / inject_Z D)).
    assert (Hz0 : (inject_Z 0 * x == 0)%Q) by (change (inject_Z 0) with 0%Q; ring).
    assert (Ha : (fl (inject_Z 0 * x) <= fl 0)%Q)
      by (apply (fl_monotone fl Hfl); rewrite Hz0; apply Qle_refl).
    assert (Hb : (fl 0 <= fl (inject_Z 0 * x))%Q)
      by (apply (fl_monotone fl Hfl); rewrite Hz0; apply Qle_refl).
    pose proof (fl_0 fl Hfl) as H0.
    apply trunc_below_one; lra. }
  set (e := (1 # 9007199254740992)%Q).
  set (q := (inject_Z M / inject_Z D)%Q).
  assert (HD : 0 < D) by nia.
  assert (HDpos : (0 < inject_Z D)%Q).
  { change 0%Q with (inject_Z 0). rewrite <- Zlt_Qlt. lia. }
  assert (HMpos : (1 <= inject_Z M)%Q).
  { change 1%Q with (inject_Z 1). rewrite <- Zle_Qle. lia. }
  assert (Hwpos : (0 <= inject_Z w)%Q).
  { change 0%Q with (inject_Z 0). rewrite <- Zle_Qle. lia. }
  assert (Hq0 : (0 <= q)%Q).
  { subst q. apply Qle_shift_div_l; [assumption|lra]. }
  assert (HqD : (q * inject_Z D == inject_Z M)%Q).
  { subst q. field. lra. }
  assert (Hz : (inject_Z (2 * w * M) <= inject_Z D)%Q) by (rewrite <- Zle_Qle; lia).
  rewrite !inject_Z_mult in Hz. change (inject_Z 2) with 2%Q in Hz.
  assert (Hwq : (2 * (inject_Z w * q) <= 1)%Q).
  { assert (H1 : (2 * (inject_Z w * q) * inject_Z D
                  == 2 * inject_Z w * inject_Z M)%Q).
    { rewrite <- HqD. ring. }
    assert (H2 : (2 * (inject_Z w * q) * inject_Z D <= 1 * inject_Z D)%Q) by lra.
    apply Qmult_lt_0_le_reg_r in H2; assumption. }
  assert (Hs0 : (0 <= fl q)%Q) by now apply fl_nonneg.
  assert (Hs1 : (fl q <= q * (1 + e))%Q) by now apply fl_upper.
  assert (Hx0 : (0 <= inject_Z w * fl q)%Q) by nra.
  assert (Hx1 : (inject_Z w * fl q <= (inject_Z w * q) * (1 + e))%Q).
  { assert (inject_Z w * (q * (1 + e)) == (inject_Z w * q) * (1 + e))%Q by ring.
    assert (inject_Z w * fl q <= inject_Z w * (q * (1 + e)))%Q by nra.
    lra. }
  assert (Hv0 : (0 <= fl (inject_Z w * fl q))%Q) by now apply fl_nonneg.
  assert (Hv1 : (fl (inject_Z w * fl q) <= inject_Z w * fl q * (1 + e))%Q)
    by now apply fl_upper.
  apply trunc_below_one; [assumption|].
  assert (He : (0 <= e <= 1 # 10)%Q) by (subst e; split; now vm_compute).
  assert (Hp0 : (0 <= inject_Z w * q)%Q) by nra.
  nra.
Qed.

(** A side of at least twice [D / M] is scaled to at least 1. *)
Lemma scaled_side_pos (M D w : Z) :
  1 <= M -> 0 < D -> 2 * D <= w * M ->
  1 <= trunc (fl (inject_Z w * fl (inject_Z M / inject_Z D))).
Proof.
  intros HM HD Hbig.
  set (e := (1 # 9007199254740992)%Q).
  set (q := (inject_Z M / inject_Z D)%Q).
  assert (HDpos : (0 < inject_Z D)%Q).
  { change 0%Q with (inject_Z 0). rewrite <- Zlt_Qlt. lia. }
  assert (HMpos : (1 <= inject_Z M)%Q).
  { change 1%Q with (inject_Z 1). rewrite <- Zle_Qle. lia. }
  assert (Hw : 0 <= w) by nia.
  assert (Hwpos : (0 <= inject_Z w)%Q).
  { change 0%Q with (inject_Z 0). rewrite <- Zle_Qle. lia. }
  assert (Hq0 : (0 <= q)%Q).
  { subst q. apply Qle_shift_div_l; [assumption|lra]. }
  assert (HqD : (q * inject_Z D == inject_Z M)%Q).
  { subst q. field. lra. }
  assert (Hz : (inject_Z (2 * D) <= inject_Z (w * M))%Q) by (rewrite <- Zle_Qle; lia).
  rewrite !inject_Z_mult in Hz. change (inject_Z 2) with 2%Q in Hz.
  assert (Hwq : (2 <= inject_Z w * q)%Q).
  { assert (H1 : ((inject_Z w * q) * inject_Z D == inject_Z w * inject_Z M)%Q).
    { rewrite <- HqD. ring. }
    assert (H2 : (2 * inject_Z D <= (inject_Z w * q) * inject_Z D)%Q) by lra.
    apply Qmult_lt_0_le_reg_r in H2; assumption. }
  assert (Hs1 : (q * (1 - e) <= fl q)%Q) by now apply fl_lower.
  assert (He : (0 <= e <= 1 # 10)%Q) by (subst e; split; now vm_compute).
  assert (Hx1 : (1 <= inject_Z w * fl q)%Q).
  { assert ((inject_Z w * q) * (1 - e) <= inject_Z w * fl q)%Q.
    { assert (inject_Z w * (q * (1 - e)) == (inject_Z w * q) * (1 - e))%Q by ring.
      assert (inject_Z w * (q * (1 - e)) <= inject_Z w * fl q)%Q by nra.
      lra. }
    nra. }
  assert (Hv1 : (1 <= fl (inject_Z w * fl q))%Q).
  { rewrite <- (fl_1 fl Hfl) at 1. now apply (fl_monotone fl Hfl). }
  unfold trunc.
  assert (Hb : Qle_bool 0 (fl (inject_Z w * fl q)) = true)
    by (apply Qle_bool_iff; lra).
  rewrite Hb.
  pose proof (Qfloor_resp_le _ _ Hv1) as H. change (Qfloor 1) with 1 in H.
  exact H.
Qed.

End ScaledSides.

(** What [_resize_if_needed] does above the limit, by the scaled sides and
    by the shape of the picture. *)
Lemma resize_if_needed_outcome (E : externals) (cfg : ImageLoader.image_config)
    (image : rgb) (w h : nat) :
  kernels_ok E -> binary64 (fl E) ->
  has_size w h image -> (0 < w)%nat -> (0 < h)%nat ->
  1 <= ImageLoader.max_dimension_ cfg <= 2 ^ 50 ->
  Z.of_nat (Nat.max w h) <= 2 ^ 53 ->
  let M := ImageLoader.max_dimension_ cfg in
  let D := Z.of_nat (Nat.max w h) in
  let scale := fl E (inject_Z M / inject_Z D) in
  let new_width := trunc (fl E (inject_Z (Z.of_nat w) * scale)) in
  let new_height := trunc (fl E (inject_Z (Z.of_nat h) * scale)) in
  (D <= M -> ImageLoader._resize_if_needed E cfg image = Ok image)
  /\ (M < D ->
      (0 <= new_width <= Z.of_nat w /\ new_width <= M)
      /\ (0 <= new_height <= Z.of_nat h /\ new_height <= M)
      /\ (new_width < 1 \/ new_height < 1 ->
          ImageLoader._resize_if_needed E cfg image = Raise ValueError)
      /\ (1 <= new_width -> 1 <= new_height ->
          exists out,
            ImageLoader._resize_if_needed E cfg image = Ok out
            /\ has_size (Z.to_nat new_width) (Z.to_nat new_height) out)
      /\ (2 * Z.of_nat (Nat.min w h) * M <= D ->
          ImageLoader._resize_if_needed E cfg image = Raise ValueError)
      /\ (2 * D <= Z.of_nat (Nat.min w h) * M ->
          exists out,
            ImageLoader._resize_if_needed E cfg image = Ok out
            /\ has_size (Z.to_nat new_width) (Z.to_nat new_height) out
            /\ 1 <= new_width /\ 1 <= new_height)).
Proof.
  intros HE Hfl Hsize Hw Hh HM Hbig M D scale new_width new_height.
  destruct (ImageLoader_facts.resize_if_needed_spec E cfg image w h
              HE Hfl Hsize Hw Hh HM) as [Hsmall Hlarge].
  split; [exact Hsmall|]. intros HD. specialize (Hlarge HD). cbv zeta in Hlarge.
  fold M D in Hlarge. fold scale in Hlarge. fold new_width new_height in Hlarge.
  destruct Hlarge as (Hnw & Hnh & Hok & Hfail).
  assert (Hnw' : new_width <= Z.of_nat w)
    by (apply scaled_side_le_side; try assumption; subst M D; lia).
  assert (Hnh' : new_height <= Z.of_nat h)
    by (apply scaled_side_le_side; try assumption; subst M D; lia).
  split; [lia|]. split; [lia|]. split; [exact Hfail|]. split; [exact Hok|].
  split.
  - intros Hthin. apply Hfail.
    destruct (Nat.min_spec w h) as [[_ Hmin]|[_ Hmin]]; rewrite Hmin in Hthin.
    + left. subst new_width scale.
      rewrite (scaled_side_zero (fl E) Hfl M D (Z.of_nat w)); subst M; lia.
    + right. subst new_height scale.
      rewrite (scaled_side_zero (fl E) Hfl M D (Z.of_nat h)); subst M; lia.
  - intros Hwide.
    assert (H1 : 1 <= new_width).
    { subst new_width scale. apply (scaled_side_pos (fl E) Hfl); subst M D; nia. }
    assert (H2 : 1 <= new_height).
    { subst new_height scale. apply (scaled_side_pos (fl E) Hfl); subst M D; nia. }
    destruct (Hok H1 H2) as (out & Hout & Hs). exists out. auto.
Qed.

(** X10. What [load_image] returns for an existing RGB picture.  Within
    [max_dimension] the decoded picture is returned as it is.  Above it the
    sides are scaled by [max_dimension / longer side] and truncated; they
    never exceed the original sides or [max_dimension].  The load raises
    exactly when a scaled side is truncated to 0, and otherwise returns a
    picture of the scaled sides.  In terms of the shape: a picture whose
    longer side is at least [2 * max_dimension] times the shorter one
    raises, and one with [shorter side * max_dimension >= 2 * longer side]
    is always loaded. *)
Theorem load_image_fits_limit (E : externals) (FS : ImageLoader.filesystem)
    (cfg : ImageLoader.image_config) (path : string) (im : rgb) (w h : nat) :
  kernels_ok E -> binary64 (fl E) ->
  ImageLoader.path_exists FS path = true ->
  ImageLoader.Image_open FS path = Ok (ImageLoader.ImRGB im) ->
  has_size w h im -> (0 < w)%nat -> (0 < h)%nat ->
  1 <= ImageLoader.max_dimension_ cfg <= 2 ^ 50 ->
  Z.of_nat (Nat.max w h) <= 2 ^ 53 ->
  let M := ImageLoader.max_dimension_ cfg in
  let D := Z.of_nat (Nat.max w h) in
  let scale := fl E (inject_Z M / inject_Z D) in
  let new_width := trunc (fl E (inject_Z (Z.of_nat w) * scale)) in
  let new_height := trunc (fl E (inject_Z (Z.of_nat h) * scale)) in
  (D <= M -> ImageLoader.load_image E FS cfg path = Ok im)
  /\ (M < D ->
      (0 <= new_width <= Z.of_nat w /\ new_width <= M)
      /\ (0 <= new_height <= Z.of_nat h /\ new_height <= M)
      /\ (new_width < 1 \/ new_height < 1 ->
          ImageLoader.load_image E FS cfg path = Raise ValueError)
      /\ (1 <= new_width -> 1 <= new_height ->
          exists out,
            ImageLoader.load_image E FS cfg path = Ok out
            /\ has_size (Z.to_nat new_width) (Z.to_nat new_height) out)
      /\ (2 * Z.of_nat (Nat.min w h) * M <= D ->
          ImageLoader.load_image E FS cfg path = Raise ValueError)
      /\ (2 * D <= Z.of_nat (Nat.min w h) * M ->
          exists out,
            ImageLoader.load_image E FS cfg path = Ok out
            /\ has_size (Z.to_nat new_width) (Z.to_nat new_height) out
            /\ 1 <= new_width /\ 1 <= new_height)).
Proof.
  intros HE Hfl Hex Hopen Hsize Hw Hh HM Hbig.
  unfold ImageLoader.load_image. rewrite Hex, Hopen. cbn [negb bind].
  now apply resize_if_needed_outcome.
Qed.

Lemma load_image_fits_limit_witness :
  ImageLoader.load_image Examples.E0 Examples.FS0
    {| ImageLoader.max_dimension := Some 1 |} "product.png" = Ok Examples.one_bg
  /\ ImageLoader.load_image Examples.E0 Examples.FS_strip
       {| ImageLoader.max_dimension := None |} "strip.png" = Raise ValueError
  /\ exists out,
       ImageLoader.load_image Examples.E0 Examples.FS_plain
         {| ImageLoader.max_dimension := Some 2 |} "plain.png" = Ok out
       /\ has_size 2 2 out.
Proof.
  assert (H1 : has_size 1 1 Examples.one_bg)
    by (split; [reflexivity|repeat constructor]).
  assert (H2 : has_size 3000 1 Examples.strip).
  { split; [reflexivity|]. constructor; [apply repeat_length|constructor]. }
  assert (H3 : has_size 4 4 Examples.plain)
    by (split; [reflexivity|repeat constructor]).
  assert (Hlim1 : 1 <= 1 <= 2 ^ 50) by (split; now vm_compute).
  assert (Hlim2 : 1 <= 2048 <= 2 ^ 50) by (split; now vm_compute).
  assert (Hlim3 : 1 <= 2 <= 2 ^ 50) by (split; now vm_compute).
  assert (Hb1 : Z.of_nat (Nat.max 1 1) <= 2 ^ 53) by now vm_compute.
  assert (Hb2 : Z.of_nat (Nat.max 3000 1) <= 2 ^ 53) by now vm_compute.
  assert (Hb3 : Z.of_nat (Nat.max 4 4) <= 2 ^ 53) by now vm_compute.
  split; [|split].
  - apply (proj1 (load_image_fits_limit Examples.E0 Examples.FS0
             {| ImageLoader.max_dimension := Some 1 |} "product.png"
             Examples.one_bg 1 1 Examples_facts.E0_kernels_ok
             Examples_facts.exact_binary64 eq_refl eq_refl H1
             ltac:(lia) ltac:(lia) Hlim1 Hb1)).
    now vm_compute.
  - destruct (proj2 (load_image_fits_limit Examples.E0 Examples.FS_strip
             {| ImageLoader.max_dimension := None |} "strip.png"
             Examples.strip 3000 1 Examples_facts.E0_kernels_ok
             Examples_facts.exact_binary64 eq_refl eq_refl H2
             ltac:(lia) ltac:(lia) Hlim2 Hb2))
      as (_ & _ & Hraise & _); [now vm_compute|].
    apply Hraise. right. now vm_compute.
  - destruct (proj2 (load_image_fits_limit Examples.E0 Examples.FS_plain
             {| ImageLoader.max_dimension := Some 2 |} "plain.png"
             Examples.plain 4 4 Examples_facts.E0_kernels_ok
             Examples_facts.exact_binary64 eq_refl eq_refl H3
             ltac:(lia) ltac:(lia) Hlim3 Hb3))
      as (_ & _ & _ & _ & _ & Hload); [now vm_compute|].
    destruct Hload as (out & Hout & Hs & _); [now vm_compute|].
    exists out. split; [exact Hout|exact Hs].
Defined.

(** X11. An RGBA picture within [max_dimension] is loaded flattened onto
    white, at its own size: an opaque pixel keeps its colour, a fully
    transparent one becomes white (255, 255, 255), and any other lies,
    channel by channel, between white and its colour. *)
Theorem load_image_flattens_on_white (E : externals) (FS : ImageLoader.filesystem)
    (cfg : ImageLoader.image_config) (path : string) (im : rgba) (w h : nat) :
  ImageLoader.path_exists FS path = true ->
  ImageLoader.Image_open FS path = Ok (ImageLoader.ImRGBA im) ->
  has_size w h im -> (0 < h)%nat ->
  Z.of_nat (Nat.max w h) <= ImageLoader.max_dimension_ cfg ->
  exists out,
    ImageLoader.load_image E FS cfg path = Ok out
    /\ has_size w h out
    /\ forall r c red green blue a,
         lookup im r c = Some (red, green, blue, a) ->
         uint8_px (red, green, blue) -> 0 <= a <= 255 ->
         exists o,
           lookup out r c = Some o
           /\ (a = 255 -> o = (red, green, blue))
           /\ (a = 0 -> o = (255, 255, 255))
           /\ Forall2 (fun v colour => between v 255 colour)
                (channels o) [red; green; blue].
Proof.
  intros Hex Hopen Hsize Hh Hlim.
  destruct (ImageLoader_facts.flatten_on_white im w h Hsize Hh)
    as (flat & Hflat & Hfs & Hpx).
  exists flat. split; [|split; [assumption|]].
  - unfold ImageLoader.load_image. rewrite Hex, Hopen. cbn [negb bind].
    rewrite Hflat. cbn [bind]. unfold ImageLoader._resize_if_needed.
    rewrite (has_size_size w h flat Hfs Hh).
    destruct (Z.ltb_spec (ImageLoader.max_dimension_ cfg) (Z.of_nat (Nat.max w h)));
      [lia|reflexivity].
  - intros r c red green blue a Hl (Hr & Hg & Hb) Ha.
    eexists. split; [apply (Hpx r c red green blue a Hl)|].
    unfold PIL.blend_px. split; [|split].
    + intros ->. now rewrite !BLEND8_opaque.
    + intros ->. now rewrite !BLEND8_clear by lia.
    + unfold between. simpl. repeat constructor; apply BLEND8_between; lia.
Qed.

Lemma load_image_flattens_on_white_witness :
  exists out,
    ImageLoader.load_image Examples.E0 Examples.FS_glass
      {| ImageLoader.max_dimension := None |} "glass.png" = Ok out
    /\ lookup out 0 0 = Some (200, 100, 50)
    /\ lookup out 0 1 = Some (255, 255, 255).
Proof.
  destruct (load_image_flattens_on_white Examples.E0 Examples.FS_glass
              {| ImageLoader.max_dimension := None |} "glass.png"
              Examples.glass 3 1) as (out & Hout & _ & Hpx).
  - reflexivity.
  - reflexivity.
  - split; [reflexivity|repeat constructor].
  - lia.
  - now vm_compute.
  - exists out. split; [exact Hout|]. split.
    + destruct (Hpx 0%nat 0%nat 200 100 50 255 eq_refl) as (o & Ho & Hop & _);
        [simpl; lia|lia|].
      rewrite Ho. f_equal. now apply Hop.
    + destruct (Hpx 0%nat 1%nat 200 100 50 0 eq_refl) as (o & Ho & _ & Hcl & _);
        [simpl; lia|lia|].
      rewrite Ho. f_equal. now apply Hcl.
Defined.

(** ** models/controlnet_handler.py *)

Module ControlNetHandler_facts.
Import ControlNetHandler.

Lemma floor_to_multiple (x m : Z) :
  0 < m -> (m | x / m * m) /\ x - m < x / m * m <= x.
Proof.
  intros Hm. split.
  - exists (x / m). reflexivity.
  - pose proof (Z.mul_div_le x m Hm). pose proof (Z.mul_succ_div_gt x m Hm). lia.
Qed.

Lemma snapped_side (x max_dim multiple : Z) :
  0 < multiple <= max_dim -> x <= max_dim ->
  (multiple | Z.max (x / multiple * multiple) multiple)
  /\ multiple <= Z.max (x / multiple * multiple) multiple <= max_dim.
Proof.
  intros Hm Hx.
  destruct (floor_to_multiple x multiple ltac:(lia)) as [Hdiv Hb].
  split; [|lia].
  destruct (Z.max_spec (x / multiple * multiple) multiple) as [[_ ->]|[_ ->]];
    [apply Z.divide_refl|assumption].
Qed.

Section Scaled.
Context (fl : Q -> Q) (Hfl : binary64 fl).

Lemma scaled_down_by_ratio (max_dim w h : Z) :
  0 <= max_dim <= 2 ^ 53 -> 0 < h -> h < w ->
  0 <= trunc (fl (inject_Z max_dim / fl (inject_Z w / inject_Z h))) <= max_dim.
Proof.
  intros HM Hh Hw.
  assert (Hhq : (0 < inject_Z h)%Q).
  { change 0%Q with (inject_Z 0). rewrite <- Zlt_Qlt. lia. }
  assert (Hwh : (inject_Z h <= inject_Z w)%Q) by (rewrite <- Zle_Qle; lia).
  assert (HMq : (0 <= inject_Z max_dim)%Q).
  { change 0%Q with (inject_Z 0). rewrite <- Zle_Qle. lia. }
  assert (Hr : (1 <= fl (inject_Z w / inject_Z h))%Q).
  { rewrite <- (fl_1 fl Hfl). apply (fl_monotone fl Hfl).
    apply Qle_shift_div_l; lra. }
  set (a := fl (inject_Z w / inject_Z h)) in *.
  assert (Hq0 : (0 <= inject_Z max_dim / a)%Q) by (apply Qle_shift_div_l; lra).
  assert (Hq1 : (inject_Z max_dim / a <= inject_Z max_dim)%Q)
    by (apply Qle_shift_div_r; nra).
  assert (Hv0 : (0 <= fl (inject_Z max_dim / a))%Q) by now apply fl_nonneg.
  assert (Hv1 : (fl (inject_Z max_dim / a) <= inject_Z max_dim)%Q).
  { rewrite <- (fl_integer fl Hfl max_dim) at 2 by lia.
    now apply (fl_monotone fl Hfl). }
  unfold trunc. apply Qle_bool_iff in Hv0 as Hb. rewrite Hb.
  pose proof (Qfloor_resp_le _ _ Hv0) as H0. change (Qfloor 0) with 0 in H0.
  pose proof (Qfloor_resp_le _ _ Hv1) as H1. rewrite Qfloor_Z in H1. lia.
Qed.

Lemma scaled_up_by_ratio (max_dim w h : Z) :
  0 <= max_dim <= 2 ^ 53 -> 0 < h -> 0 <= w <= h ->
  0 <= trunc (fl (inject_Z max_dim * fl (inject_Z w / inject_Z h))) <= max_dim.
Proof.
  intros HM Hh Hw.
  assert (Hhq : (0 < inject_Z h)%Q).
  { change 0%Q with (inject_Z 0). rewrite <- Zlt_Qlt. lia. }
  assert (Hw0 : (0 <= inject_Z w)%Q).
  { change 0%Q with (inject_Z 0). rewrite <- Zle_Qle. lia. }
  assert (Hwh : (inject_Z w <= inject_Z h)%Q) by (rewrite <- Zle_Qle; lia).
  assert (HMq : (0 <= inject_Z max_dim)%Q).
  { change 0%Q with (inject_Z 0). rewrite <- Zle_Qle. lia. }
  assert (Hq : (0 <= inject_Z w / inject_Z h <= 1)%Q).
  { split; [apply Qle_shift_div_l|apply Qle_shift_div_r]; lra. }
  pose proof (fl_unit fl Hfl _ Hq) as Ha.
  set (a := fl (inject_Z w / inject_Z h)) in *.
  assert (Hv0 : (0 <= fl (inject_Z max_dim * a))%Q)
    by (apply fl_nonneg; [assumption|nra]).
  assert (Hv1 : (fl (inject_Z max_dim * a) <= inject_Z max_dim)%Q).
  { rewrite <- (fl_integer fl Hfl max_dim) at 2 by lia.
    apply (fl_monotone fl Hfl). nra. }
  unfold trunc. apply Qle_bool_iff in Hv0 as Hb. rewrite Hb.
  pose proof (Qfloor_resp_le _ _ Hv0) as H0. change (Qfloor 0) with 0 in H0.
  pose proof (Qfloor_resp_le _ _ Hv1) as H1. rewrite Qfloor_Z in H1. lia.
Qed.

Lemma optimal_size_bounds (w h max_dim multiple : Z) :
  0 <= w -> 0 <= h -> 0 < multiple <= max_dim -> max_dim <= 2 ^ 53 ->
  match _get_optimal_size fl (w, h) max_dim multiple with
  | Some (w', h') =>
      (multiple | w') /\ (multiple | h')
      /\ multiple <= w' <= max_dim /\ multiple <= h' <= max_dim
  | None => h = 0 /\ max_dim < w
  end.
Proof.
  intros Hw Hh Hm HM. unfold _get_optimal_size.
  destruct (Z.eqb_spec multiple 0); [lia|].
  destruct ((w <=? max_dim) && (h <=? max_dim)) eqn:Hboth.
  - apply andb_true_iff in Hboth. destruct Hboth as [H1 H2].
    apply Z.leb_le in H1, H2.
    destruct (snapped_side w max_dim multiple Hm H1) as [Ha Hb].
    destruct (snapped_side h max_dim multiple Hm H2) as [Hc Hd].
    repeat split; try assumption; lia.
  - apply andb_false_iff in Hboth.
    destruct (Z.eqb_spec h 0) as [->|Hh0].
    + split; [reflexivity|].
      destruct Hboth as [H|H]; apply Z.leb_gt in H; lia.
    + destruct (Z.ltb_spec h w) as [Hlt|Hge].
      * pose proof (scaled_down_by_ratio max_dim w h ltac:(lia) ltac:(lia) Hlt) as Hs.
        destruct (snapped_side max_dim max_dim multiple Hm ltac:(lia)) as [Ha Hb].
        destruct (snapped_side _ max_dim multiple Hm (proj2 Hs)) as [Hc Hd].
        repeat split; try assumption; lia.
      * pose proof (scaled_up_by_ratio max_dim w h ltac:(lia) ltac:(lia) ltac:(lia)) as Hs.
        destruct (snapped_side max_dim max_dim multiple Hm ltac:(lia)) as [Ha Hb].
        destruct (snapped_side _ max_dim multiple Hm (proj2 Hs)) as [Hc Hd].
        repeat split; try assumption; lia.
Qed.

Lemma optimal_size_fixed (w h max_dim multiple : Z) :
  0 < multiple ->
  (multiple | w) -> (multiple | h) ->
  multiple <= w <= max_dim -> multiple <= h <= max_dim ->
  _get_optimal_size fl (w, h) max_dim multiple = Some (w, h).
Proof.
  intros Hm [a ->] [b ->] Hw Hh. unfold _get_optimal_size.
  destruct (Z.eqb_spec multiple 0); [lia|].
  destruct (Z.leb_spec (a * multiple) max_dim); [|lia].
  destruct (Z.leb_spec (b * multiple) max_dim); [|lia]. simpl.
  rewrite !Z.div_mul by lia. f_equal. f_equal; lia.
Qed.

End Scaled.

End ControlNetHandler_facts.



(** X13. [_get_optimal_size] leaves a suitable size alone and is idempotent:
    a size whose sides are multiples of 64 between 64 and 1024 is returned
    unchanged, so the size it returns for any picture is returned again when
    it is applied to that size. *)
Theorem get_optimal_size_idempotent (fl : Q -> Q) (w h : Z) :
  binary64 fl -> 0 <= w -> 0 <= h ->
  ((64 | w) -> (64 | h) -> 64 <= w <= 1024 -> 64 <= h <= 1024 ->
   ControlNetHandler._get_optimal_size fl (w, h) 1024 64 = Some (w, h))
  /\ forall target,
       ControlNetHandler._get_optimal_size fl (w, h) 1024 64 = Some target ->
       ControlNetHandler._get_optimal_size fl target 1024 64 = Some target.
Proof.
  intros Hfl Hw Hh. split.
  - intros. apply ControlNetHandler_facts.optimal_size_fixed; auto; lia.
  - intros [w' h'] Ht.
    pose proof (ControlNetHandler_facts.optimal_size_bounds fl Hfl w h 1024 64
                  Hw Hh ltac:(lia) ltac:(now vm_compute)) as Hb.
    rewrite Ht in Hb. destruct Hb as (H1 & H2 & H3 & H4).
    apply ControlNetHandler_facts.optimal_size_fixed; auto; lia.
Qed.

Lemma get_optimal_size_idempotent_witness :
  ControlNetHandler._get_optimal_size Examples.exact (512, 768) 1024 64
  = Some (512, 768)
  /\ ControlNetHandler._get_optimal_size Examples.exact (1024, 640) 1024 64
     = Some (1024, 640).
Proof.
  split.
  - apply (proj1 (get_optimal_size_idempotent Examples.exact 512 768
                    Examples_facts.exact_binary64 ltac:(lia) ltac:(lia)));
      try lia; [exists 8|exists 12]; reflexivity.
  - apply (proj2 (get_optimal_size_idempotent Examples.exact 3000 2000
                    Examples_facts.exact_binary64 ltac:(lia) ltac:(lia))).
    now vm_compute.
Defined.

Lemma resize_to (P : Type) (kernel : nat * nat -> raster P -> raster P)
    (im : raster P) (tw th : Z) (wb hb : nat) :
  (forall w h im, (0 < w)%nat -> (0 < h)%nat -> has_size w h (kernel (w, h) im)) ->
  1 <= tw -> 1 <= th -> has_size wb hb im ->
  exists out, PIL.resize kernel im (tw, th) = Ok out
              /\ has_size (Z.to_nat tw) (Z.to_nat th) out.
Proof.
  intros Hk Htw Hth Him.
  destruct (composite_facts.resize_ok kernel im (Z.to_nat tw) (Z.to_nat th) wb hb)
    as (out & Hout & Hs); auto; try lia.
  rewrite !Z2Nat.id in Hout by lia. eauto.
Qed.



(** ** utils/env_loader.py, models/nano_banana_api.py *)

(** X15. Constructing [NanoBananaAPI] needs a key whatever the
    configuration says: a non-empty [api_key] argument is kept, before any
    look at the environment; without one, the environment variable's
    non-empty value is kept; with neither, the constructor raises
    [ValueError], and [require_api_key] changes none of this. *)
Theorem nano_banana_needs_a_key (getenv : string -> option string)
    (env_var : option string) (api_key : option string) :
  let variable := get env_var "GEMINI_API_KEY" in
  let construct required :=
    NanoBananaAPI.__init__ getenv
      {| NanoBananaAPI.api_key_env_var := env_var;
         NanoBananaAPI.require_api_key := required |} api_key in
  (forall required, construct required = construct None)
  /\ (forall given, api_key = Some given -> given <> "" ->
      construct None = Ok given)
  /\ (api_key = None \/ api_key = Some "" ->
      forall value, getenv variable = Some value -> value <> "" ->
      construct None = Ok value)
  /\ (api_key = None \/ api_key = Some "" ->
      getenv variable = None \/ getenv variable = Some "" ->
      construct None = Raise ValueError).
Proof.
  cbv zeta. unfold NanoBananaAPI.__init__, EnvLoader.get_api_key, EnvLoader.truthy.
  cbn [NanoBananaAPI.api_key_env_var NanoBananaAPI.require_api_key].
  repeat split.
  - intros required. destruct api_key as [given|].
    + destruct (String.eqb_spec given ""); [|reflexivity]. cbn [negb].
      destruct (getenv (get env_var "GEMINI_API_KEY")) as [value|].
      * destruct (String.eqb_spec value ""); [|reflexivity]. cbn [negb].
        now destruct required as [[|]|].
      * now destruct required as [[|]|].
    + destruct (getenv (get env_var "GEMINI_API_KEY")) as [value|].
      * destruct (String.eqb_spec value ""); [|reflexivity]. cbn [negb].
        now destruct required as [[|]|].
      * now destruct required as [[|]|].
  - intros given -> Hne. destruct (String.eqb_spec given ""); [contradiction|].
    cbn [negb bind]. destruct (String.eqb_spec given ""); [contradiction|reflexivity].
  - intros Hkey value Henv Hne.
    destruct Hkey as [->| ->]; cbn [String.eqb negb]; rewrite Henv;
      destruct (String.eqb_spec value ""); try contradiction; cbn [negb bind];
      destruct (String.eqb_spec value ""); try contradiction; reflexivity.
  - intros Hkey Henv.
    destruct Hkey as [->| ->]; destruct Henv as [->| ->]; reflexivity.
Qed.

Lemma nano_banana_needs_a_key_witness :
  NanoBananaAPI.__init__ (fun _ => Some "from-env")
    {| NanoBananaAPI.api_key_env_var := None;
       NanoBananaAPI.require_api_key := None |} (Some "given") = Ok "given"
  /\ NanoBananaAPI.__init__ (fun _ => Some "from-env")
       {| NanoBananaAPI.api_key_env_var := None;
          NanoBananaAPI.require_api_key := None |} (Some "") = Ok "from-env"
  /\ NanoBananaAPI.__init__ (fun _ => None)
       {| NanoBananaAPI.api_key_env_var := None;
          NanoBananaAPI.require_api_key := Some false |} None = Raise ValueError.
Proof.
  split; [|split].
  - destruct (nano_banana_needs_a_key (fun _ => Some "from-env") None (Some "given"))
      as (_ & Hgiven & _).
    apply Hgiven; [reflexivity|discriminate].
  - destruct (nano_banana_needs_a_key (fun _ => Some "from-env") None (Some ""))
      as (_ & _ & Henv & _).
    apply Henv; [now right|reflexivity|discriminate].
  - destruct (nano_banana_needs_a_key (fun _ => None) None None)
      as (Hsame & _ & _ & Hnone).
    rewrite (Hsame (Some false)). apply Hnone; now left.
Defined.

Module NanoBananaAPI_facts.
Import NanoBananaAPI.

Lemma truthy_iff (s : string) : EnvLoader.truthy s = true <-> s <> "".
Proof.
  unfold EnvLoader.truthy. destruct (String.eqb_spec s ""); simpl; split;
    congruence.
Qed.

End NanoBananaAPI_facts.



(** ** modules/visualizer.py *)

(** X17. The grid of [visualize_stages] holds every stage and wastes no row:
    for at least one stage there are at most 3 columns, [rows * cols] cells
    are enough for all stages, and the last row is not empty; with no stage
    at all the computation divides by zero. *)
Theorem visualize_stages_grid (num_stages : Z) :
  (1 <= num_stages ->
   exists rows cols,
     Visualizer.grid num_stages = Some (rows, cols)
     /\ 1 <= cols <= 3 /\ 1 <= rows
     /\ (rows - 1) * cols < num_stages <= rows * cols)
  /\ Visualizer.grid 0 = None.
Proof.
  split; [|reflexivity]. intros Hn. unfold Visualizer.grid. cbv zeta.
  destruct (Z.eqb_spec (Z.min 3 num_stages) 0); [lia|].
  eexists _, _. split; [reflexivity|].
  set (cols := Z.min 3 num_stages) in *.
  assert (Hc : 1 <= cols <= 3) by (subst cols; lia).
  pose proof (Z.mul_div_le (num_stages + cols - 1) cols ltac:(lia)).
  pose proof (Z.mul_succ_div_gt (num_stages + cols - 1) cols ltac:(lia)).
  assert (1 <= (num_stages + cols - 1) / cols)
    by (apply Z.div_le_lower_bound; lia).
  repeat split; try lia; nia.
Qed.

Lemma visualize_stages_grid_witness :
  exists rows cols,
    Visualizer.grid 5 = Some (rows, cols)
    /\ 1 <= cols <= 3 /\ 1 <= rows /\ (rows - 1) * cols < 5 <= rows * cols.
Proof.
  apply (proj1 (visualize_stages_grid 5)). lia.
Defined.

(** ** utils/auto_prompt_generator.py *)

(** X18. The prompt that [generate_for_method1] builds is cut to 600
    characters (code points): whatever the analysis says, the prompt has at
    most 600 characters and is the sentence built from the analysis, whole
    when that has at most 600 characters and otherwise its first 600
    characters exactly; it still opens with "This photo showcases ", and the
    analysis is handed on unchanged. *)
Theorem generate_for_method1_is_cut (a : AutoPromptGenerator.analysis) :
  let full :=
    AutoPromptGenerator.literal "This photo showcases "
    ++ AutoPromptGenerator.product_description a
    ++ AutoPromptGenerator.literal ". "
    ++ AutoPromptGenerator.literal
         "The product is clearly highlighted and prominently displayed, "
    ++ AutoPromptGenerator.literal "placed in "
    ++ AutoPromptGenerator.background_prompt a
    ++ AutoPromptGenerator.literal ". "
    ++ AutoPromptGenerator.literal "The overall image maintains a "
    ++ AutoPromptGenerator.style_suggestion a
    ++ AutoPromptGenerator.literal " visual style, "
    ++ AutoPromptGenerator.literal
         "with professional commercial photography lighting." in
  let prompt := fst (AutoPromptGenerator.generate_for_method1 a) in
  (length prompt <= 600)%nat
  /\ (exists dropped, full = prompt ++ dropped)
  /\ (exists rest,
        prompt = AutoPromptGenerator.literal "This photo showcases " ++ rest)
  /\ ((length full <= 600)%nat -> prompt = full)
  /\ ((600 < length full)%nat -> length prompt = 600%nat)
  /\ snd (AutoPromptGenerator.generate_for_method1 a) = a.
Proof.
  cbv zeta. unfold AutoPromptGenerator.generate_for_method1. cbv zeta.
  cbn [fst snd].
  set (opening := AutoPromptGenerator.literal "This photo showcases ").
  set (rest := AutoPromptGenerator.product_description a ++ _).
  assert (Hopen : length opening = 21%nat) by reflexivity.
  destruct (Nat.ltb_spec 600 (length (opening ++ rest))) as [Hlong|Hshort].
  - split; [rewrite length_firstn; lia|].
    split; [exists (skipn 600 (opening ++ rest)); now rewrite firstn_skipn|].
    split.
    { exists (firstn (600 - 21) rest).
      rewrite firstn_app, Hopen. f_equal. }
    split; [lia|]. split; [|reflexivity].
    intros _. rewrite length_firstn. lia.
  - split; [assumption|].
    split; [exists []; now rewrite app_nil_r|].
    split; [now exists rest|]. split; [reflexivity|]. split; [lia|reflexivity].
Qed.

Lemma generate_for_method1_is_cut_witness :
  fst (AutoPromptGenerator.generate_for_method1 Examples.analysis0)
  = AutoPromptGenerator.literal "This photo showcases a yellow can from a caf"
    ++ [233%N]
    ++ AutoPromptGenerator.literal
         ". The product is clearly highlighted and prominently displayed, placed in a beach. The overall image maintains a bold visual style, with professional commercial photography lighting."
  /\ length (fst (AutoPromptGenerator.generate_for_method1 Examples.analysis_long))
     = 600%nat.
Proof.
  split.
  - destruct (generate_for_method1_is_cut Examples.analysis0)
      as (_ & _ & _ & H & _).
    rewrite H; [reflexivity|]. apply Nat.leb_le. vm_compute. reflexivity.
  - destruct (generate_for_method1_is_cut Examples.analysis_long)
      as (_ & _ & _ & _ & H & _).
    apply H. apply Nat.ltb_lt. vm_compute. reflexivity.
Defined.

(** ** methods/: sizes and variations *)

Lemma alpha_keeps_size (w h : nat) (fg : rgba) :
  has_size w h fg -> has_size w h (PIL.alpha fg).
Proof.
  unfold PIL.alpha. apply composite_facts.has_size_map_map.
Qed.



Module Variations_facts.
Import Variations.

Lemma saves_app (l1 l2 : list event) : saves (l1 ++ l2) = saves l1 ++ saves l2.
Proof. unfold saves. apply flat_map_app. Qed.

(** A loop whose every run writes one file writes one file per item, in
    order, and returns what the writes returned. *)
Lemma for_each_saves {A : Type} (path : A -> string) (body : A -> pipeline string) :
  (forall item log saved log',
      body item log = Ok (saved, log') ->
      saves log' = saves log ++ [(path item, saved)]) ->
  forall items log results log',
    for_each items body log = Ok (results, log') ->
    length results = length items
    /\ saves log' = saves log ++ combine (map path items) results.
Proof.
  intros Hbody items. induction items as [|item rest IH]; intros log results log' H.
  - unfold for_each, ret in H. injection H as <- <-.
    split; [reflexivity|]. simpl. now rewrite app_nil_r.
  - cbn [for_each] in H. unfold then_ in H.
    destruct (body item log) as [[saved log1]|] eqn:Hrun; [|discriminate].
    destruct (for_each rest body log1) as [[results1 log2]|] eqn:Hrest;
      [|discriminate].
    unfold ret in H. injection H as <- <-.
    destruct (IH _ _ _ Hrest) as [Hlen Hsaves].
    split; [simpl; now rewrite Hlen|].
    rewrite Hsaves, (Hbody _ _ _ _ Hrun), <- app_assoc. reflexivity.
Qed.

Section Runs.
Context (E : externals) (FS : ImageLoader.filesystem) (C : collaborators)
  (cfg : config).

Lemma visualized_saves (show : bool) (ev : event) :
  (forall image path saved, ev <> SaveImage image path saved) ->
  saves (if show then [ev] else []) = [].
Proof.
  intros Hev. destruct show; [|reflexivity].
  destruct ev; try reflexivity. now elim (Hev image path saved).
Qed.

Lemma method1_saves (input : string)
    (prompt product_description style_preset : option string)
    (output_path : string) (log log' : list event) (saved : string) :
  method1_generate E FS C cfg input prompt product_description style_preset
    (Some output_path) log = Ok (saved, log') ->
  saves log' = saves log ++ [(output_path, saved)].
Proof.
  unfold method1_generate. intros H.
  apply Methods_facts.then_stage_inv in H. destruct H as (image & _ & H).
  apply Methods_facts.then_stage_inv in H. destruct H as (ext & _ & H).
  apply Methods_facts.then_stage_inv in H. destruct H as (inpaint_mask & _ & H).
  apply Methods_facts.then_stage_inv in H. destruct H as (final_prompt & _ & H).
  apply Methods_facts.then_stage_inv in H. destruct H as (out & _ & H).
  apply Methods_facts.then_lift_inv in H. destruct H as (path & Hpath & H).
  injection Hpath as <-.
  apply Methods_facts.then_stage_inv in H. destruct H as (saved' & _ & H).
  apply Methods_facts.then_visualize_inv in H. unfold ret in H.
  injection H as <- <-.
  rewrite !saves_app, visualized_saves by discriminate.
  simpl. now rewrite !app_nil_r.
Qed.

Lemma method2_saves (input : string) (prompt style_preset : option string)
    (color_palette : option (list string)) (output_path : string)
    (log log' : list event) (saved : string) :
  method2_generate E FS C cfg input prompt style_preset color_palette
    (Some output_path) log = Ok (saved, log') ->
  saves log' = saves log ++ [(output_path, saved)].
Proof.
  unfold method2_generate. intros H.
  apply Methods_facts.then_stage_inv in H. destruct H as (image & _ & H).
  destruct (size image) as [width_ height_].
  apply Methods_facts.then_stage_inv in H. destruct H as (ext & _ & H).
  apply Methods_facts.then_stage_inv in H. destruct H as (composite_mask & _ & H).
  apply Methods_facts.then_stage_inv in H. destruct H as (background_prompt & _ & H).
  apply Methods_facts.then_stage_inv in H. destruct H as (background & _ & H).
  apply Methods_facts.then_stage_inv in H. destruct H as (out & _ & H).
  apply Methods_facts.then_lift_inv in H. destruct H as (path & Hpath & H).
  injection Hpath as <-.
  apply Methods_facts.then_stage_inv in H. destruct H as (saved' & _ & H).
  apply Methods_facts.then_visualize_inv in H. unfold ret in H.
  injection H as <- <-.
  rewrite !saves_app, visualized_saves by discriminate.
  simpl. now rewrite !app_nil_r.
Qed.

End Runs.

End Variations_facts.

(** X21. A successful [generate_with_variations] returns exactly
    [num_variations] paths (none when the number is not positive): it
    writes one file per variation, to the paths numbered 1, 2, ... in that
    order, and the list returned is what [save_image] returned for each. *)
Theorem generate_with_variations_results (E : externals)
    (FS : ImageLoader.filesystem) (C : collaborators) (cfg : config)
    (O : Variations.output_dir) (input : string)
    (prompt product_description : option string) (num_variations : Z)
    (log log' : list event) (results : list string) :
  Variations.generate_with_variations E FS C cfg O input prompt
    product_description num_variations log = Ok (results, log') ->
  length results = Z.to_nat num_variations
  /\ Variations.saves log'
     = Variations.saves log
       ++ combine
            (map (fun i => Variations.variation_path O input "_method1_var" (i + 1))
                 (seq 0 (Z.to_nat num_variations)))
            results.
Proof.
  unfold Variations.generate_with_variations. intros H.
  apply Methods_facts.then_lift_inv in H. destruct H as (_ & _ & H).
  apply (Variations_facts.for_each_saves
           (fun i => Variations.variation_path O input "_method1_var" (i + 1)))
    in H.
  - now rewrite length_seq in H.
  - intros item l saved l'. apply Variations_facts.method1_saves.
Qed.

Lemma generate_with_variations_results_witness :
  exists results log',
    Variations.generate_with_variations Examples.E0 Examples.FS0 Examples.C0
      Examples.config0 Examples.O0 "product.png" None None 2 []
    = Ok (results, log')
    /\ length results = 2%nat
    /\ Variations.saves log'
       = [("product.png_method1_var", "product.png_method1_var");
          ("product.png_method1_var", "product.png_method1_var")].
Proof.
  eexists. eexists. split; [vm_compute; reflexivity|].
  destruct (generate_with_variations_results Examples.E0 Examples.FS0
              Examples.C0 Examples.config0 Examples.O0 "product.png" None None
              2 [] _ _ eq_refl) as [Hlen Hsaves].
  split; [exact Hlen|].
  etransitivity; [exact Hsaves|vm_compute; reflexivity].
Defined.

(** X22. A successful [generate_multiple_variations] returns one path per
    prompt of [prompts_list], and exactly three when no list is given: it
    writes one file per prompt, to the paths numbered 1, 2, ... in that
    order, and the list returned is what [save_image] returned for each. *)
Theorem generate_multiple_variations_results (E : externals)
    (FS : ImageLoader.filesystem) (C : collaborators) (cfg : config)
    (O : Variations.output_dir) (input : string)
    (prompts_list : option (list (option string)))
    (style_preset : option string) (color_palette : option (list string))
    (log log' : list event) (results : list string) :
  Variations.generate_multiple_variations E FS C cfg O input prompts_list
    style_preset color_palette log = Ok (results, log') ->
  let n := match prompts_list with
           | None => 3%nat
           | Some given => length given
           end in
  length results = n
  /\ Variations.saves log'
     = Variations.saves log
       ++ combine
            (map (fun idx => Variations.variation_path O input "_method2_var" (idx + 1))
                 (seq 0 n))
            results.
Proof.
  intros H n. unfold Variations.generate_multiple_variations in H.
  set (prompts := match prompts_list with
                  | None => repeat None 3
                  | Some given => given
                  end) in *.
  assert (Hn : length prompts = n).
  { subst prompts n. now destruct prompts_list. }
  cbv zeta in H.
  apply Methods_facts.then_lift_inv in H. destruct H as (_ & _ & H).
  apply (Variations_facts.for_each_saves
           (fun item : nat * option string =>
              Variations.variation_path O input "_method2_var" (fst item + 1)))
    in H.
  - destruct H as [Hlen Hsaves].
    assert (Hfst : map fst (combine (seq 0 (length prompts)) prompts)
                   = seq 0 (length prompts)).
    { clear. generalize 0%nat. induction prompts as [|p ps IH]; intros k.
      - reflexivity.
      - simpl. now rewrite IH. }
    rewrite length_combine, length_seq, Nat.min_id, Hn in Hlen.
    split; [exact Hlen|].
    rewrite Hsaves. do 2 f_equal.
    rewrite <- (map_map fst
                  (fun idx => Variations.variation_path O input "_method2_var" (idx + 1))).
    now rewrite Hfst, Hn.
  - intros item l saved l'. apply Variations_facts.method2_saves.
Qed.

Lemma generate_multiple_variations_results_witness :
  exists results log',
    Variations.generate_multiple_variations Examples.E0 Examples.FS0
      Examples.C0 Examples.config0 Examples.O0 "product.png" None None None []
    = Ok (results, log')
    /\ length results = 3%nat.
Proof.
  eexists. eexists. split; [vm_compute; reflexivity|].
  apply (generate_multiple_variations_results Examples.E0 Examples.FS0
           Examples.C0 Examples.config0 Examples.O0 "product.png" None None
           None [] _ _ eq_refl).
Defined.
